(** * ParseUtil: utility functions of the TeX input jax

    A shallow embedding of [mathjax3-ts/input/tex/ParseUtil.ts] and the
    properties of its dimension parser ([matchDimen], [dimen2em], [Em]),
    its text/math scanner ([internalMath], [internalText]) and its macro
    argument substitution ([substituteArgs], [addArgs]).

    Conventions of the embedding.
    - A JavaScript string is a [string]; a character is one code unit in the
      range 0..255 (the source only ever tests ASCII characters and the
      non-breaking space U+00A0; the white space of [\s] beyond U+00FF is
      out of this range).
    - The string methods and the regular expressions the source uses are
      modelled by the modules [JS] and [RegExp]; a regular expression is a
      syntax tree that is read next to its source text, and is run by a
      backtracking matcher with the priorities of ECMAScript (leftmost start,
      first alternative first, greedy repetition).
    - A JavaScript number is a binary64 [float].
    - A thrown [TexError] is the [Throw] case of [result]. *)

From Stdlib Require Import Bool Arith ZArith Lia List.
From Stdlib Require Import Ascii String DecimalString.
From Stdlib Require Import Floats.PrimFloat Floats.SpecFloat Floats.FloatOps.
Import ListNotations.

Set Warnings "-inexact-float,-register-all".

Local Open Scope string_scope.
Local Open Scope nat_scope.

(* ================================================================== *)
(** * JavaScript strings *)

Module JS.

(** [s.length] *)
Definition length (s : string) : nat := String.length s.

(** [s.charAt(i)]: the one-character string at index [i], or [''] when [i]
    is out of range. *)
Definition charAt (s : string) (i : nat) : string := substring i 1 s.

(** [s.substr(start)] for [start >= 0]. *)
Definition substr (s : string) (start : nat) : string :=
  substring start (String.length s - start) s.

(** [s.substr(start, len)] for [start >= 0]. *)
Definition substr2 (s : string) (start len : nat) : string :=
  substring start len s.

(** [s.slice(a, b)] for [a, b >= 0]: empty when [b <= a]. *)
Definition slice2 (s : string) (a b : nat) : string :=
  substring a (b - a) s.

(** [s.slice(a)] for [a >= 0]. *)
Definition slice (s : string) (a : nat) : string :=
  substring a (String.length s - a) s.

(** Truthiness of a string: [''] is falsy. *)
Definition truthy (s : string) : bool := negb (s =? "")%string.

(** The white space of [\s] and of [parseFloat]'s trimming, on code units
    0..255: TAB, LF, VT, FF, CR, SPACE and NBSP. *)
Definition isSpace (c : ascii) : bool :=
  let n := nat_of_ascii c in
  ((9 <=? n) && (n <=? 13)) || (n =? 32) || (n =? 160).

(** [\d] *)
Definition isDigit (c : ascii) : bool :=
  let n := nat_of_ascii c in (48 <=? n) && (n <=? 57).

(** [s.repeat(n)] *)
Fixpoint repeat (s : string) (n : nat) : string :=
  match n with
  | O => ""
  | S n' => s ++ repeat s n'
  end.

(** The value of a decimal digit. *)
Definition digitVal (c : ascii) : Z := Z.of_nat (nat_of_ascii c - 48).

End JS.

(* ================================================================== *)
(** * Regular expressions *)

Module RegExp.

(** The fragment of the pattern language that ParseUtil.ts uses. *)
Inductive regex : Type :=
| Empty                        (* the empty pattern *)
| Char (p : ascii -> bool)     (* one character: literal, class or escape *)
| Seq (r1 r2 : regex)          (* r1 r2 *)
| Alt (r1 r2 : regex)          (* r1|r2, r1 is tried first *)
| Star (r : regex)             (* r*, greedy *)
| Group (n : nat) (r : regex)  (* (r), the n-th capturing group *)
| Bol                          (* ^ *)
| Eol.                         (* $ *)

(** r? (greedy) *)
Definition Opt (r : regex) : regex := Alt r Empty.
(** r+ (greedy) *)
Definition Plus (r : regex) : regex := Seq r (Star r).
(** A literal character. *)
Definition Lit (c : ascii) : regex := Char (Ascii.eqb c).
(** A literal word. *)
Fixpoint Word (s : string) : regex :=
  match s with
  | EmptyString => Empty
  | String c EmptyString => Lit c
  | String c s' => Seq (Lit c) (Word s')
  end.
(** A character class [[...]] given by the string of its members. *)
Fixpoint mem (c : ascii) (s : string) : bool :=
  match s with
  | EmptyString => false
  | String d s' => Ascii.eqb c d || mem c s'
  end.
Definition OneOf (s : string) : regex := Char (fun c => mem c s).
(** A negated class [[^...]]. *)
Definition NoneOf (s : string) : regex := Char (fun c => negb (mem c s)).

(** The state of a match in progress: the index reached, the input that
    remains from there, and the captures made, latest first, each as
    (group, (start index, end index)). *)
Record mstate : Type := MState {
  pos : nat;
  rest : string;
  caps : list (nat * (nat * nat))
}.

Definition cont : Type := mstate -> option mstate.

(** Greedy iteration: another round of [mr] is tried first, and must
    consume input (an empty round is rejected, as in ECMAScript); failing
    that, the continuation. [fuel] bounds the number of rounds by the
    length of the remaining input. The captures of groups inside the
    iteration are not cleared at each round; no pattern of the source
    reads such a capture. *)
Fixpoint star_loop (mr : cont -> cont) (k : cont) (fuel : nat) (st : mstate)
  : option mstate :=
  match fuel with
  | 0 => k st
  | S f =>
    match mr (fun st' => if pos st <? pos st' then star_loop mr k f st'
                         else None) st with
    | Some x => Some x
    | None => k st
    end
  end.

(** The backtracking matcher, in continuation-passing style: [m r k st]
    matches [r] at [st] and hands the state reached to [k]; when [k] fails
    the next choice of [r] is tried. *)
Fixpoint m (r : regex) (k : cont) (st : mstate) : option mstate :=
  match r with
  | Empty => k st
  | Char p =>
    match rest st with
    | String c s' =>
      if p c then k (MState (S (pos st)) s' (caps st)) else None
    | EmptyString => None
    end
  | Seq r1 r2 => m r1 (fun st' => m r2 k st') st
  | Alt r1 r2 =>
    match m r1 k st with
    | Some x => Some x
    | None => m r2 k st
    end
  | Star r' => star_loop (m r') k (S (String.length (rest st))) st
  | Group n r' =>
    m r' (fun st' => k (MState (pos st') (rest st')
                               ((n, (pos st, pos st')) :: caps st'))) st
  | Bol => if pos st =? 0 then k st else None
  | Eol => match rest st with EmptyString => k st | _ => None end
  end.

(** The result of a successful match: where it starts and ends, and the
    captures. *)
Record match_result : Type := MatchResult {
  m_start : nat;
  m_end : nat;
  m_caps : list (nat * (nat * nat))
}.

(** The search of [RegExp.prototype.exec] without the global flag: the
    start indices are tried from left to right. *)
Fixpoint exec_from (r : regex) (start : nat) (s : string)
  : option match_result :=
  match m r Some (MState start s []) with
  | Some st => Some (MatchResult start (pos st) (caps st))
  | None =>
    match s with
    | String _ s' => exec_from r (S start) s'
    | EmptyString => None
    end
  end.

Definition exec (r : regex) (s : string) : option match_result :=
  exec_from r 0 s.

(** [r.test(s)], and the truth value of [s.match(r)]. *)
Definition test (r : regex) (s : string) : bool :=
  match exec r s with Some _ => true | None => false end.

(** [match[0]]: the matched substring. *)
Definition matched (s : string) (mr : match_result) : string :=
  substring (m_start mr) (m_end mr - m_start mr) s.

(** [match[n]]: what the n-th group captured, [None] for [undefined]. *)
Fixpoint lookup (n : nat) (l : list (nat * (nat * nat)))
  : option (nat * nat) :=
  match l with
  | [] => None
  | (g, se) :: l' => if g =? n then Some se else lookup n l'
  end.

Definition group (s : string) (mr : match_result) (n : nat) : option string :=
  match lookup n (m_caps mr) with
  | Some (a, b) => Some (substring a (b - a) s)
  | None => None
  end.

(** [s.replace(r, by)] without the global flag, for a replacement string
    that contains no [$]: the first match is replaced. *)
Definition replace (r : regex) (by_ : string) (s : string) : string :=
  match exec r s with
  | Some mr =>
    substring 0 (m_start mr) s ++ by_
      ++ substring (m_end mr) (String.length s - m_end mr) s
  | None => s
  end.

(** [s.replace(r, by)] with the global flag, for a replacement string
    that contains no [$]. The search starts again at [lastIndex], the end
    of the match before, or one further after an empty match; [next] is
    where the text that is kept starts. Each round moves [lastIndex]
    forward, so that [fuel] rounds are enough from [length s + 2]. *)
Fixpoint replaceAll_loop (r : regex) (by_ : string) (s : string)
  (fuel lastIndex next : nat) : string :=
  match fuel with
  | O => substring next (String.length s - next) s
  | S fuel' =>
    if String.length s <? lastIndex
    then substring next (String.length s - next) s
    else
      match exec_from r lastIndex
              (substring lastIndex (String.length s - lastIndex) s) with
      | None => substring next (String.length s - next) s
      | Some mr =>
        substring next (m_start mr - next) s ++ by_
          ++ replaceAll_loop r by_ s fuel'
               (if m_end mr =? m_start mr then S (m_end mr) else m_end mr)
               (m_end mr)
      end
  end.

Definition replaceAll (r : regex) (by_ : string) (s : string) : string :=
  replaceAll_loop r by_ s (S (S (String.length s))) 0 0.

(** [\s] and [\d] *)
Definition ws : regex := Char JS.isSpace.
Definition digit : regex := Char JS.isDigit.

End RegExp.

(* ================================================================== *)
(** * JavaScript numbers *)

Module JSNumber.

Local Open Scope Z_scope.

(** The Number value of the decimal numeral [(-1)^neg * M * 10^E]: the
    nearest binary64 value, ties to even. *)
Definition ofDecimal (neg : bool) (M E : Z) : float :=
  if M =? 0 then (if neg then (-0)%float else 0%float)
  else if 0 <=? E
  then SF2Prim (binary_normalize prec emax
                  (if neg then - (M * 10 ^ E) else M * 10 ^ E) 0 false)
  else SF2Prim (SFdiv prec emax
                  (S754_finite neg (Z.to_pos M) 0)
                  (S754_finite false (Z.to_pos (10 ^ (- E))) 0)).

(** Leading white space is skipped. *)
Fixpoint trimStart (s : string) : string :=
  match s with
  | String c s' => if JS.isSpace c then trimStart s' else s
  | EmptyString => s
  end.

(** The longest run of decimal digits at the head of [s]: its value after
    [acc], the number of digits read, and what follows. *)
Fixpoint digits (s : string) (acc : Z) (n : nat) : Z * nat * string :=
  match s with
  | String c s' =>
    if JS.isDigit c then digits s' (10 * acc + JS.digitVal c) (S n)
    else (acc, n, s)
  | EmptyString => (acc, n, s)
  end.

(** The exponent part [e[+-]ddd], 0 when there is none. *)
Definition exponent (s : string) : Z :=
  match s with
  | String c s' =>
    if (Ascii.eqb c "e" || Ascii.eqb c "E")%bool then
      let '(neg, s'') :=
        match s' with
        | String "-" t => (true, t)
        | String "+" t => (false, t)
        | _ => (false, s')
        end in
      let '(v, _, _) := digits s'' 0 0%nat in
      if neg then - v else v
    else 0
  | EmptyString => 0
  end.

(** The global [parseFloat]: the longest prefix of the trimmed string that
    is a decimal literal, [NaN] when there is none. *)
Definition parseFloat (s : string) : float :=
  let s1 := trimStart s in
  let '(neg, s2) :=
    match s1 with
    | String "-" t => (true, t)
    | String "+" t => (false, t)
    | _ => (false, s1)
    end in
  if prefix "Infinity" s2 then (if neg then neg_infinity else infinity)
  else
    let '(ip, ni, s3) := digits s2 0 0%nat in
    let '(M, nf, s4) :=
      match s3 with
      | String "." t => digits t ip 0%nat
      | _ => (ip, 0%nat, s3)
      end in
    if (ni + nf =? 0)%nat then nan
    else ofDecimal neg M (exponent s4 - Z.of_nat nf).

(** The decimal digits of a natural number. *)
Definition decimal (n : Z) : string :=
  NilZero.string_of_uint (N.to_uint (Z.to_N n)).

(** The integer [n] for which [n / 10^f - x] is as close to zero as
    possible, the larger one when there are two; [x] is finite and not
    negative. *)
Definition scaled (x : float) (f : nat) : Z :=
  match Prim2SF x with
  | S754_finite _ mant e =>
    let a := Z.pos mant * 10 ^ Z.of_nat f in
    if 0 <=? e then a * 2 ^ e
    else (2 * a + 2 ^ (- e)) / 2 ^ (1 - e)
  | _ => 0
  end.

(** Zeros on the left up to a given length. *)
Fixpoint zeros (n : nat) : string :=
  match n with
  | O => ""
  | S n' => String "0" (zeros n')
  end.

Definition padStart (len : nat) (s : string) : string :=
  zeros (len - String.length s) ++ s.

(** A positive finite [x] as a fraction of two integers. *)
Definition ratio (x : float) : Z * Z :=
  match Prim2SF x with
  | S754_finite _ mant e =>
    if 0 <=? e then (Z.pos mant * 2 ^ e, 1) else (Z.pos mant, 2 ^ (- e))
  | _ => (0, 1)
  end.

(** The [n] for which [10^(n-1) <= num/den < 10^n]; [num/den] is the
    ratio of a positive binary64 value, which is above [10^-324]. *)
Definition decade (num den : Z) : Z :=
  Z.of_nat (String.length (decimal (num * 10 ^ 400 / den))) - 400.

(** The integer [s] for which [s * 10^(n-k)] is the Number value [x], if
    there is one: of the two integers around [x / 10^(n-k)], where [x] is
    [num/den], the closer one first, the even one when they are as
    close. *)
Definition digitsAt (x : float) (num den n k : Z) : option Z :=
  let '(a, b) := if n <=? k then (num * 10 ^ (k - n), den)
                 else (num, den * 10 ^ (n - k)) in
  let lo := a / b in
  let hi := lo + 1 in
  let back s := PrimFloat.eqb (ofDecimal false s (n - k)) x in
  let '(s1, s2) :=
    match 2 * (a mod b) ?= b with
    | Lt => (lo, hi)
    | Gt => (hi, lo)
    | Eq => if Z.even lo then (lo, hi) else (hi, lo)
    end in
  if back s1 then Some s1 else if back s2 then Some s2 else None.

(** The least number [k] of digits that gives the Number value [x]
    back, with the digits; 17 digits always do. *)
Fixpoint shortest (x : float) (num den n k : Z) (fuel : nat) : Z * Z :=
  match fuel with
  | O => (0, k)
  | S fuel' =>
    match digitsAt x num den n k with
    | Some s => (s, k)
    | None => shortest x num den n (k + 1) fuel'
    end
  end.

(** A string without the zeros at its end. *)
Fixpoint dropZeros (s : string) : string :=
  match s with
  | String c s' =>
    let r := dropZeros s' in
    if ((r =? "")%string && Ascii.eqb c "0")%bool then "" else String c r
  | EmptyString => ""
  end.

(** [Number::toString(x)] in radix 10: the digits [ds] are the shortest
    that give [x] back, and [x] is about [0.ds * 10^n]. *)
Definition toString (x : float) : string :=
  if negb (PrimFloat.eqb x x) then "NaN"
  else if PrimFloat.eqb x 0 then "0"
  else
    let sign := if PrimFloat.ltb x 0 then "-" else "" in
    let x := PrimFloat.abs x in
    if PrimFloat.eqb x infinity then sign ++ "Infinity"
    else
      let '(num, den) := ratio x in
      let n0 := decade num den in
      let '(s, k0) := shortest x num den n0 1 17 in
      let n := n0 + Z.of_nat (String.length (decimal s)) - k0 in
      let ds := dropZeros (decimal s) in
      let k := Z.of_nat (String.length ds) in
      sign ++
      (if ((k <=? n) && (n <=? 21))%bool then ds ++ zeros (Z.to_nat (n - k))
       else if ((0 <? n) && (n <=? 21))%bool then
         substring 0 (Z.to_nat n) ds ++ "."
         ++ substring (Z.to_nat n) (Z.to_nat (k - n)) ds
       else if ((-6 <? n) && (n <=? 0))%bool then
         "0." ++ zeros (Z.to_nat (- n)) ++ ds
       else
         let e := n - 1 in
         let ex := (if e <? 0 then "-" else "+") ++ decimal (Z.abs e) in
         if k =? 1 then ds ++ "e" ++ ex
         else substring 0 1 ds ++ "." ++ substring 1 (Z.to_nat (k - 1)) ds
              ++ "e" ++ ex).

(** [x.toFixed(f)] for [f > 0]; [toString] is the Number-to-string
    conversion, which [toFixed] falls back on from 1e21 on. *)
Definition toFixed (toString : float -> string) (x : float) (f : nat)
  : string :=
  if negb (PrimFloat.eqb x x) then "NaN"
  else
    let '(s, x) := if PrimFloat.ltb x 0 then ("-", PrimFloat.opp x)
                   else ("", x) in
    if PrimFloat.leb 1e21 x then s ++ toString x
    else
      let d := padStart (S f) (decimal (scaled x f)) in
      let k := String.length d in
      s ++ substring 0 (k - f) d ++ "." ++ substring (k - f) f d.

End JSNumber.

(* ================================================================== *)
(** * The document tree *)

(** The value of an attribute or property of a node. *)
Inductive AttrValue : Type :=
| AString (s : string)
| ABool (b : bool)
| ANumber (n : Z).

(** A definition list such as [{displaystyle: false, scriptlevel: level}]. *)
Definition EnvList : Type := list (string * AttrValue).

(** The nodes TreeHelper builds: [createText(text)] and
    [createNode(kind, children, def, text?)]. The tree is free: a node is
    what it was built from. *)
Inductive MmlNode : Type :=
| createText (text : string)
| createNode (kind : string) (children : list MmlNode) (def : EnvList)
             (text : option MmlNode).

(** [new TexError([id, message])] *)
Inductive TexError : Type :=
| TexErr (id : string) (message : string).

(** The outcome of a call that may throw. *)
Inductive result (A : Type) : Type :=
| Ok (a : A)
| Throw (e : TexError).
Arguments Ok {A} a.
Arguments Throw {A} e.

Definition bind {A B : Type} (r : result A) (f : A -> result B) : result B :=
  match r with
  | Ok a => f a
  | Throw e => Throw e
  end.

Notation "x <- r ;; k" := (bind r (fun x => k))
  (at level 61, r at next level, right associativity).

(* ================================================================== *)
(** * namespace ParseUtil *)

Module ParseUtil.

Import RegExp.

(** ** Dimensions *)

Local Open Scope float_scope.

Definition emPerInch : float := 7.2.
Definition pxPerInch : float := 72.

(** The table of unit conversions, in the order of the source. *)
Definition UNIT_CASES : list (string * (float -> float)) :=
  [ ("em", fun m => m);
    ("ex", fun m => m * 0.43);
    ("pt", fun m => m / 10);
    ("pc", fun m => m * 1.2);
    ("px", fun m => m * emPerInch / pxPerInch);
    ("in", fun m => m * emPerInch);
    ("cm", fun m => m * emPerInch / 2.54);
    ("mm", fun m => m * emPerInch / 25.4);
    ("mu", fun m => m / 18) ].

Local Open Scope nat_scope.

(** [UNIT_CASES[unit]]; [unit] is a captured unit name or [null], so that
    no inherited property is ever looked up. *)
Fixpoint UNIT_CASES_get (tbl : list (string * (float -> float)))
  (unit : option string) : option (float -> float) :=
  match unit, tbl with
  | Some u, (key, f) :: tbl' =>
    if (key =? u)%string then Some f else UNIT_CASES_get tbl' unit
  | _, _ => None
  end.

(** [num]: an optional sign [[-+]?], then either [[.,]\d+] or [\d+] with
    an optional [[.,]\d*]. Group 1 is the whole numeral, group 2 the
    alternative and group 3 the optional fraction. *)
Definition num : regex :=
  Group 1 (Seq (Opt (OneOf "-+"))
               (Group 2 (Alt (Seq (OneOf ".,") (Plus digit))
                             (Seq (Plus digit)
                                  (Opt (Group 3 (Seq (OneOf ".,")
                                                     (Star digit)))))))).

(** [unit]: group 4, [pt|em|ex|mu|px|mm|cm|in|pc]. *)
Definition unit : regex :=
  Group 4 (Alt (Word "pt") (Alt (Word "em") (Alt (Word "ex")
          (Alt (Word "mu") (Alt (Word "px") (Alt (Word "mm")
          (Alt (Word "cm") (Alt (Word "in") (Word "pc"))))))))).

(** [dimenEnd]: [^], [\s*], [num], [\s*], [unit], [\s*], [$]. *)
Definition dimenEnd : regex :=
  Seq Bol (Seq (Star ws) (Seq num (Seq (Star ws) (Seq unit
      (Seq (Star ws) Eol))))).

(** [dimenRest]: [^], [\s*], [num], [\s*], [unit], an optional space. *)
Definition dimenRest : regex :=
  Seq Bol (Seq (Star ws) (Seq num (Seq (Star ws) (Seq unit
      (Opt (Lit " ")))))).

(** Matches for a dimension argument: the value with its first comma
    turned into a point, the unit name and the length of the matched
    string; [[null, null, 0]] when there is no match. *)
Definition matchDimen (dim : string) (rest : bool)
  : option string * option string * nat :=
  match exec (if rest then dimenRest else dimenEnd) dim with
  | Some mr =>
    (match group dim mr 1 with
     | Some v => Some (replace (Lit ",") "." v)
     | None => None
     end,
     group dim mr 4,
     String.length (matched dim mr))
  | None => (None, None, 0)
  end.

(** Convert a dimension string into standard em dimension. *)
Definition dimen2em (dim : string) : float :=
  let '(value, unit, _) := matchDimen dim false in
  let m := JSNumber.parseFloat
             (match value with
              | Some v => if JS.truthy v then v else "1"
              | None => "1"
              end) in
  match UNIT_CASES_get UNIT_CASES unit with
  | Some func => func m
  | None => 0%float
  end.

(** [/\.?0+$/] *)
Definition trailingZeros : regex :=
  Seq (Opt (Lit ".")) (Seq (Plus (Lit "0")) Eol).

(** [Em(m)]; [toString] is the Number-to-string conversion behind
    [toFixed] for magnitudes from 1e21 on. *)
Definition Em (toString : float -> string) (m : float) : string :=
  if PrimFloat.ltb (PrimFloat.abs m) 0.0006%float then "0em"
  else replace trailingZeros "" (JSNumber.toFixed toString m 3) ++ "em".

(** ** Text and math blocks *)

Definition NBSP : string := String (ascii_of_nat 160) "".

(** [/^\s+/] and [/\s+$/] *)
Definition leadingSpace : regex := Seq Bol (Plus ws).
Definition trailingSpace : regex := Seq (Plus ws) Eol.

(** [internalText(text, def)] *)
Definition internalText (text : string) (def : EnvList) : MmlNode :=
  let text := replace trailingSpace NBSP (replace leadingSpace NBSP text) in
  let textNode := createText text in
  createNode "mtext" [] def (Some textNode).

(** The test that guards the scanning loop: a dollar, brace or backslash,
    each after an optional backslash; or a backslash and an opening
    parenthesis; or a backslash, an optional [eq], [ref], [\s*] and an
    opening brace. *)
Definition trigger : regex :=
  Alt (Seq (Opt (Lit "\")) (OneOf "${}\"))
 (Alt (Seq (Lit "\") (Lit "("))
      (Seq (Lit "\") (Seq (Opt (Group 1 (Word "eq")))
                     (Seq (Word "ref") (Seq (Star ws) (Lit "{")))))).

(** [^], an optional [eq], [ref], [\s*] and an opening brace. *)
Definition refOpen : regex :=
  Seq Bol (Seq (Opt (Group 1 (Word "eq")))
          (Seq (Word "ref") (Seq (Star ws) (Lit "{")))).

(** [/[${}\\]/] *)
Definition special : regex := OneOf "${}\".

Definition MathNotTerminated : TexError :=
  TexErr "MathNotTerminated" "Math not terminated in text box".

(** [mml.push(node)] *)
Definition push (mml : list MmlNode) (node : MmlNode) : list MmlNode :=
  (mml ++ [node])%list.

Module InternalMath.

(** The variables of the loop of [internalMath]. [match_] is the closing
    delimiter that is awaited: [''] in text, ['$'], [')'] or ['}'] in
    math. *)
Record state : Type := State {
  text : string;
  i : nat;
  k : nat;
  match_ : string;
  braces : nat;
  mml : list MmlNode
}.

Section Loop.

(** [(new TexParser(text, {})).mml()], which may throw. *)
Variable parse : string -> result MmlNode.
(** The definition list made from [parser.stack.env['font']]. *)
Variable def : EnvList.

(** [mml.push(internalText(text.slice(k, e), def))] when [k < e]. *)
Definition pushText (st : state) (e : nat) : list MmlNode :=
  if k st <? e
  then push (mml st) (internalText (JS.slice2 (text st) (k st) e) def)
  else mml st.

(** One turn of the [while] loop. *)
Definition step (st : state) : result state :=
  let c := JS.charAt (text st) (i st) in
  let i1 := S (i st) in
  if (c =? "$")%string then
    if ((match_ st =? "$")%string && (braces st =? 0))%bool then
      tree <- parse (JS.slice2 (text st) (k st) (i1 - 1)) ;;
      let node := createNode "TeXAtom" [tree] [] None in
      Ok (State (text st) i1 i1 "" (braces st) (push (mml st) node))
    else if (match_ st =? "")%string then
      Ok (State (text st) i1 i1 "$" (braces st) (pushText st (i1 - 1)))
    else
      Ok (State (text st) i1 (k st) (match_ st) (braces st) (mml st))
  else if ((c =? "{")%string && negb (match_ st =? "")%string)%bool then
    Ok (State (text st) i1 (k st) (match_ st) (S (braces st)) (mml st))
  else if (c =? "}")%string then
    if ((match_ st =? "}")%string && (braces st =? 0))%bool then
      tree <- parse (JS.slice2 (text st) (k st) i1) ;;
      let node := createNode "TeXAtom" [tree] def None in
      Ok (State (text st) i1 i1 "" (braces st) (push (mml st) node))
    else if negb (match_ st =? "")%string then
      Ok (State (text st) i1 (k st) (match_ st)
                (if negb (braces st =? 0) then braces st - 1 else braces st)
                (mml st))
    else
      Ok (State (text st) i1 (k st) (match_ st) (braces st) (mml st))
  else if (c =? "\")%string then
    match (if (match_ st =? "")%string
           then exec refOpen (JS.substr (text st) i1) else None) with
    | Some found =>
      let len := String.length (matched (JS.substr (text st) i1) found) in
      Ok (State (text st) (i1 + len) (i1 - 1) "}" (braces st)
                (pushText st (i1 - 1)))
    | None =>
      let c := JS.charAt (text st) i1 in
      let i2 := S i1 in
      if ((c =? "(")%string && (match_ st =? "")%string)%bool then
        Ok (State (text st) i2 i2 ")" (braces st) (pushText st (i2 - 2)))
      else if ((c =? ")")%string && (match_ st =? ")")%string
               && (braces st =? 0))%bool then
        tree <- parse (JS.slice2 (text st) (k st) (i2 - 2)) ;;
        let node := createNode "TeXAtom" [tree] [] None in
        Ok (State (text st) i2 i2 "" (braces st) (push (mml st) node))
      else if (test special c && (match_ st =? "")%string)%bool then
        let i3 := i2 - 1 in
        Ok (State (JS.substr2 (text st) 0 (i3 - 1) ++ JS.substr (text st) i3)
                  i3 (k st) (match_ st) (braces st) (mml st))
      else
        Ok (State (text st) i2 (k st) (match_ st) (braces st) (mml st))
    end
  else
    Ok (State (text st) i1 (k st) (match_ st) (braces st) (mml st)).

(** [while (i < text.length) { ... }]; every turn brings [i] closer to the
    end of [text], so that [fuel] turns are enough from a state with
    [length text - i <= fuel]. *)
Fixpoint loop (fuel : nat) (st : state) : result state :=
  if i st <? JS.length (text st) then
    match fuel with
    | O => Ok st
    | S fuel' => st' <- step st ;; loop fuel' st'
    end
  else Ok st.

End Loop.

End InternalMath.

Import InternalMath.

(** [parser.stack.env['font'] ? {mathvariant: parser.stack.env['font']} : {}] *)
Definition fontDef (font : option string) : EnvList :=
  match font with
  | Some f => if JS.truthy f then [("mathvariant", AString f)] else []
  | None => []
  end.

(** The segments of [text], before they are wrapped up: the text after the
    loop, the start of the last segment, and the nodes pushed. The loop is
    only entered when [trigger] matches. *)
Definition scanText (parse : string -> result MmlNode) (def : EnvList)
  (text : string) : result state :=
  let init := State text 0 0 "" 0 [] in
  if test trigger text then
    st <- loop parse def (JS.length text) init ;;
    if negb (match_ st =? "")%string then Throw MathNotTerminated
    else Ok st
  else Ok init.

(** The nodes of [mml] once the remaining text is pushed. *)
Definition segments (parse : string -> result MmlNode) (def : EnvList)
  (text : string) : result (list MmlNode) :=
  st <- scanText parse def text ;;
  Ok (if InternalMath.k st <? JS.length (InternalMath.text st)
      then push (mml st) (internalText (JS.slice (InternalMath.text st)
                                                 (InternalMath.k st)) def)
      else mml st).

(** Break up a string into text and math blocks. [font] is
    [parser.stack.env['font']] and [parse] is the parser that is run on
    each math block. *)
Definition internalMath (parse : string -> result MmlNode)
  (font : option string) (text : string) (level : option AttrValue)
  : result (list MmlNode) :=
  let def := fontDef font in
  mml <- segments parse def text ;;
  Ok (match level with
      | Some l =>
        [createNode "mstyle" mml
           [("displaystyle", ABool false); ("scriptlevel", l)] None]
      | None =>
        if 1 <? List.length mml then [createNode "mrow" mml [] None]
        else mml
      end).

(** ** Trimming and array alignment *)

(** [/^\s+|\s+$/g] *)
Definition outerSpace : regex := Alt (Seq Bol (Plus ws)) (Seq (Plus ws) Eol).

(** A backslash at the end, and a space at the end. *)
Definition endsWithBackslash : regex := Seq (Lit "\") Eol.
Definition endsWithSpace : regex := Seq (Lit " ") Eol.

(** Trim spaces from a string; [text] is a string, as its type says. *)
Definition trimSpaces (text : string) : string :=
  let TEXT := replaceAll outerSpace "" text in
  if (test endsWithBackslash TEXT && test endsWithSpace text)%bool
  then TEXT ++ " " else TEXT.

(** [def[key] = value] on a definition list: the value of an entry that is
    there is replaced, a new entry comes last. *)
Fixpoint setProperty (def : EnvList) (key : string) (value : AttrValue)
  : EnvList :=
  match def with
  | [] => [(key, value)]
  | (name, v) :: def' =>
    if (name =? key)%string then (name, value) :: def'
    else (name, v) :: setProperty def' key value
  end.

(** [def[key]], [None] for [undefined]. *)
Fixpoint getProperty (def : EnvList) (key : string) : option AttrValue :=
  match def with
  | [] => None
  | (name, v) :: def' =>
    if (name =? key)%string then Some v else getProperty def' key
  end.

(** What [setArrayAlign] uses of an ArrayItem: its [arraydef]. *)
Record ArrayItem : Type := { arraydef : EnvList }.

(** [array.arraydef.align = value] *)
Definition setAlign (array : ArrayItem) (value : string) : ArrayItem :=
  {| arraydef := setProperty (arraydef array) "align" (AString value) |}.

(** Sets alignment in array definitions; [align] is [None] when it is
    not given. *)
Definition setArrayAlign (array : ArrayItem) (align : option string)
  : ArrayItem :=
  let align :=
    trimSpaces (match align with
                | Some a => if JS.truthy a then a else ""
                | None => ""
                end) in
  if (align =? "t")%string then setAlign array "baseline 1"
  else if (align =? "b")%string then setAlign array "baseline -1"
  else if (align =? "c")%string then setAlign array "center"
  else if JS.truthy align then setAlign array align
  else array.

(** ** Macro parameters *)

Definition MAXBUFFER : nat := 5 * 1024.

Definition letter : regex :=
  Char (fun c => let n := nat_of_ascii c in
                 ((97 <=? n) && (n <=? 122)) || ((65 <=? n) && (n <=? 90))).

(** [/^[a-z]/i] *)
Definition startsWithLetter : regex := Seq Bol letter.

(** The pattern of a trailing control word, case-insensitive: group 1 is
    [^] or a character other than a backslash, then any number of double
    backslashes (group 2), a backslash, letters [[a-z]+] and [$]. *)
Definition endsWithMacro : regex :=
  Seq (Group 1 (Alt Bol (NoneOf "\")))
 (Seq (Star (Group 2 (Word "\\")))
 (Seq (Lit "\") (Seq (Plus letter) Eol))).

Definition MaxBufferSize : TexError :=
  TexErr "MaxBufferSize"
    "MathJax internal buffer size exceeded; is there a recursive macro call?".

Definition IllegalMacroParam : TexError :=
  TexErr "IllegalMacroParam" "Illegal macro parameter reference".

(** Make sure that macros are followed by a space if their names could
    accidentally be continued into the following text. *)
Definition addArgs (s1 s2 : string) : result string :=
  let s1 := if (test startsWithLetter s2 && test endsWithMacro s1)%bool
            then s1 ++ " " else s1 in
  if MAXBUFFER <? JS.length s1 + JS.length s2 then Throw MaxBufferSize
  else Ok (s1 ++ s2).

(** [/[1-9]/] *)
Definition digit19 : regex :=
  Char (fun c => let n := nat_of_ascii c in (49 <=? n) && (n <=? 57)).

(** [parseInt(c, 10)] for a string [c] that is one decimal digit. *)
Definition parseInt10 (c : string) : nat :=
  match c with
  | String d _ => nat_of_ascii d - 48
  | EmptyString => 0
  end.

Module SubstituteArgs.

(** The variables of the loop of [substituteArgs]. *)
Record state : Type := State {
  text : string;
  newstring : string;
  i : nat
}.

Section Loop.

Variable args : list string.
Variable str : string.

(** One turn of the [while] loop. *)
Definition step (st : state) : result state :=
  let c := JS.charAt str (i st) in
  let i1 := S (i st) in
  if (c =? "\")%string then
    Ok (State (text st ++ (c ++ JS.charAt str i1)) (newstring st) (S i1))
  else if (c =? "#")%string then
    let c := JS.charAt str i1 in
    let i2 := S i1 in
    if (c =? "#")%string then
      Ok (State (text st ++ c) (newstring st) i2)
    else
      if (negb (test digit19 c) || (List.length args <? parseInt10 c))%bool
      then Throw IllegalMacroParam
      else
        s <- addArgs (newstring st) (text st) ;;
        s' <- addArgs s (nth (parseInt10 c - 1) args "") ;;
        Ok (State "" s' i2)
  else
    Ok (State (text st ++ c) (newstring st) i1).

(** [while (i < str.length) { ... }]; every turn moves [i] forward. *)
Fixpoint loop (fuel : nat) (st : state) : result state :=
  if i st <? JS.length str then
    match fuel with
    | O => Ok st
    | S fuel' => st' <- step st ;; loop fuel' st'
    end
  else Ok st.

End Loop.

End SubstituteArgs.

(** Replace macro parameters with their values. *)
Definition substituteArgs (args : list string) (str : string)
  : result string :=
  st <- SubstituteArgs.loop args str (JS.length str)
          (SubstituteArgs.State "" "" 0) ;;
  addArgs (SubstituteArgs.newstring st) (SubstituteArgs.text st).

End ParseUtil.

(* ================================================================== *)
(** * Vocabulary of the specifications *)

(** Some character of [s] satisfies [p]. *)
Fixpoint anyOf (p : ascii -> bool) (s : string) : bool :=
  match s with
  | EmptyString => false
  | String c s' => p c || anyOf p s'
  end.

(** Every character of [s] satisfies [p]. *)
Fixpoint allOf (p : ascii -> bool) (s : string) : bool :=
  match s with
  | EmptyString => true
  | String c s' => p c && allOf p s'
  end.

(** The characters that make [internalMath] scan its text: dollar, braces
    and backslash. *)
Definition isSpecial (c : ascii) : bool := RegExp.mem c "${}\".

(** The first character of [s] satisfies [p]. *)
Definition startsWith (p : ascii -> bool) (s : string) : bool :=
  match s with
  | String c _ => p c
  | EmptyString => false
  end.

(** The last character of [s] satisfies [p]. *)
Fixpoint endsWith (p : ascii -> bool) (s : string) : bool :=
  match s with
  | EmptyString => false
  | String c EmptyString => p c
  | String _ s' => endsWith p s'
  end.

(** The names of the units of [UNIT_CASES]. *)
Definition unitNames : list string :=
  ["em"; "ex"; "pt"; "pc"; "px"; "in"; "cm"; "mm"; "mu"].

(** A numeral in four parts: an optional sign, digits, an optional
    decimal point or comma, and digits again. There is a digit before the
    separator or after it; without a separator there is no fraction. *)
Definition validNumeral (sign ip sep fp : string) : Prop :=
  In sign [""; "+"; "-"]
  /\ allOf JS.isDigit ip = true
  /\ allOf JS.isDigit fp = true
  /\ ((sep = "" /\ fp = "" /\ ip <> "")
      \/ (In sep ["."; ","] /\ (ip <> "" \/ fp <> ""))).

(** The numeral as [matchDimen] returns it: with a point for the comma. *)
Definition anglosaxon (sign ip sep fp : string) : string :=
  sign ++ ip ++ (if (sep =? ",")%string then "." else sep) ++ fp.

(** The conversion of a magnitude in a unit into em, unit by unit: ex is
    0.43 em, 10 pt or 18 mu are one em, a pc is 1.2 em, an inch is 7.2 em,
    72 px, 2.54 cm or 25.4 mm. Each product and quotient is the binary64
    operation, in the order written. *)
Definition emOf (u : string) (m : float) : float :=
  if (u =? "em")%string then m
  else if (u =? "ex")%string then (m * 0.43)%float
  else if (u =? "pt")%string then (m / 10)%float
  else if (u =? "pc")%string then (m * 1.2)%float
  else if (u =? "px")%string then (m * 7.2 / 72)%float
  else if (u =? "in")%string then (m * 7.2)%float
  else if (u =? "cm")%string then (m * 7.2 / 2.54)%float
  else if (u =? "mm")%string then (m * 7.2 / 25.4)%float
  else if (u =? "mu")%string then (m / 18)%float
  else 0%float.

(** Three decimals without their trailing zeros, after a point; nothing
    at all when the three of them are zeros. *)
Definition fraction (d1 d2 d3 : ascii) : string :=
  if negb (Ascii.eqb d3 "0") then
    String "." (String d1 (String d2 (String d3 "")))
  else if negb (Ascii.eqb d2 "0") then String "." (String d1 (String d2 ""))
  else if negb (Ascii.eqb d1 "0") then String "." (String d1 "")
  else "".



(** A character other than the digit zero. *)
Definition nonZero (c : ascii) : bool := negb (Ascii.eqb "0" c).

(** A macro body without parameters: characters other than [#] and
    backslash, and backslashes, each with the character after it,
    whatever it is. *)
Inductive verbatim : string -> Prop :=
| verbatim_nil : verbatim ""
| verbatim_char c s :
    Ascii.eqb c "\" = false -> Ascii.eqb c "#" = false ->
    verbatim s -> verbatim (String c s)
| verbatim_escape c s : verbatim s -> verbatim (String "\" (String c s))
| verbatim_last : verbatim "\".

(** The result is one text node and nothing else, with the given
    content. *)
Definition oneTextSegment (r : result (list MmlNode)) (content : string)
  : bool :=
  match r with
  | Ok [createNode kind [] _ (Some (createText s))] =>
    ((kind =? "mtext")%string && (s =? content)%string)%bool
  | _ => false
  end.

(** One non-breaking space for white space, nothing for none. *)
Definition nbspIf (ws : string) : string :=
  if JS.truthy ws then ParseUtil.NBSP else "".

(** The alignment that a letter stands for. *)
Definition alignment (a : string) : string :=
  if (a =? "t")%string then "baseline 1"
  else if (a =? "b")%string then "baseline -1"
  else if (a =? "c")%string then "center"
  else a.

(** Text that holds no math, [after] being what follows it in the whole
    text: it has no dollar but after a backslash, and each backslash in
    it is followed either by a dollar, a brace or a backslash, which it
    escapes, or by another character that is not an opening parenthesis
    and does not start [ref{] or [eqref{]. Braces that no backslash
    precedes are allowed. *)
Fixpoint passive (s after : string) : bool :=
  match s with
  | EmptyString => true
  | String c s' =>
    if Ascii.eqb c "$" then false
    else if Ascii.eqb c "\" then
      match s' with
      | EmptyString => false
      | String x s'' =>
        (isSpecial x
         || (negb (Ascii.eqb x "(")
             && negb (RegExp.test ParseUtil.refOpen (s' ++ after))))
        && passive s'' after
      end
    else passive s' after
  end.

(** The text without the backslash of each escaped dollar, brace and
    backslash; any other backslash stays, with the character after it. *)
Fixpoint unescape (s : string) : string :=
  match s with
  | EmptyString => EmptyString
  | String c s' =>
    if Ascii.eqb c "\" then
      match s' with
      | EmptyString => s
      | String x s'' =>
        if isSpecial x then String x (unescape s'')
        else String c (String x (unescape s''))
      end
    else String c (unescape s')
  end.

(** Math that is not closed yet: [mathBody close s depth] is the depth of
    the braces after [s], read from [depth], when the delimiter [close]
    that ends the math does not occur in [s]. A dollar closes dollar
    math and a brace closes a reference only outside braces, so as a
    backslash and a closing parenthesis do for the math they end; a
    backslash takes the character after it along, whatever it is, and an
    opening brace after a backslash is not counted. [None] when the math
    is closed inside [s], or when [s] ends with a backslash that would
    take the delimiter along. *)
Fixpoint mathBody (close : string) (s : string) (depth : nat)
  : option nat :=
  match s with
  | EmptyString => Some depth
  | String c s' =>
    if Ascii.eqb c "$" then
      if ((close =? "$")%string && (depth =? 0))%bool then None
      else mathBody close s' depth
    else if Ascii.eqb c "{" then mathBody close s' (S depth)
    else if Ascii.eqb c "}" then
      if ((close =? "}")%string && (depth =? 0))%bool then None
      else mathBody close s' (depth - 1)
    else if Ascii.eqb c "\" then
      match s' with
      | EmptyString => None
      | String x s'' =>
        if (Ascii.eqb x ")" && (close =? ")")%string && (depth =? 0))%bool
        then None
        else mathBody close s'' depth
      end
    else mathBody close s' depth
  end.

(** The state of the scanner on a text, as it is when the string [a]
    stands before the text and the nodes [l0] were pushed before. *)
Definition shifted (a : string) (l0 : list MmlNode)
  (st : ParseUtil.InternalMath.state) : ParseUtil.InternalMath.state :=
  ParseUtil.InternalMath.State
    (a ++ ParseUtil.InternalMath.text st)
    (String.length a + ParseUtil.InternalMath.i st)
    (String.length a + ParseUtil.InternalMath.k st)
    (ParseUtil.InternalMath.match_ st)
    (ParseUtil.InternalMath.braces st)
    (l0 ++ ParseUtil.InternalMath.mml st)%list.

(** The text node of a text, none for the empty text. *)
Definition textNodes (text : string) (def : EnvList) : list MmlNode :=
  if (text =? "")%string then [] else [ParseUtil.internalText text def].

(** The strings that open math in a text, each with the delimiter that
    the math then awaits: a dollar; a backslash and an opening
    parenthesis; a backslash and [ref] or [eqref], with white space, if
    any, and an opening brace. *)
Inductive opens : string -> string -> Prop :=
| opens_dollar : opens "$" "$"
| opens_paren : opens "\(" ")"
| opens_ref eq_ sp :
    eq_ = "" \/ eq_ = "eq" -> allOf JS.isSpace sp = true ->
    opens ("\" ++ eq_ ++ "ref" ++ sp ++ "{") "}".

(** A letter, of either case. *)
Definition isLetter (c : ascii) : bool :=
  let n := nat_of_ascii c in
  ((97 <=? n) && (n <=? 122)) || ((65 <=? n) && (n <=? 90)).

(** A control word and nothing else: backslashes in odd number, so that
    the last one is not escaped by the one before it, and then letters,
    one at least. *)
Fixpoint controlWord (t : string) : bool :=
  match t with
  | String c t' =>
    if Ascii.eqb c "\" then
      match t' with
      | String c' t'' =>
        if Ascii.eqb c' "\" then controlWord t'' else allOf isLetter t'
      | EmptyString => false
      end
    else false
  | EmptyString => false
  end.

(** A control word ends the string, from its start or after a character
    that is not a backslash: at index [n], or further on. *)
Fixpoint controlWordAtEnd (n : nat) (t : string) : bool :=
  ((n =? 0) && controlWord t)
  || match t with
     | String c t' =>
       (negb (RegExp.mem c "\") && controlWord t')
       || controlWordAtEnd (S n) t'
     | EmptyString => false
     end.

(** A match was found. *)
Definition succeeds {A : Type} (o : option A) : bool :=
  match o with Some _ => true | None => false end.

(** A piece of a macro body without parameters, which other pieces may
    follow: it has no [#] but after a backslash, and it does not end
    with a backslash that would take the next character along. *)
Fixpoint literal (s : string) : bool :=
  match s with
  | EmptyString => true
  | String c s' =>
    if Ascii.eqb c "#" then false
    else if Ascii.eqb c "\" then
      match s' with
      | EmptyString => false
      | String _ s'' => literal s''
      end
    else literal s'
  end.

(** The macro body made of pieces, each with the digit of the parameter
    that follows it, and of a last piece. *)
Fixpoint bodyOf (pieces : list (string * ascii)) (last : string) : string :=
  match pieces with
  | [] => last
  | (p, d) :: rest => p ++ String "#" (String d (bodyOf rest last))
  end.

(** A piece without parameters, before a parameter that has an
    argument. *)
Definition validPiece (args : list string) (pd : string * ascii) : bool :=
  literal (fst pd)
  && RegExp.test ParseUtil.digit19 (String (snd pd) "")
  && (ParseUtil.parseInt10 (String (snd pd) "") <=? List.length args).

(** The expansion of a macro body, piece by piece from the left: each
    piece is added to the string made so far, and then the argument of
    the parameter after it. *)
Fixpoint expansion (args : list string) (newstring : string)
  (pieces : list (string * ascii)) (last : string) : result string :=
  match pieces with
  | [] => ParseUtil.addArgs newstring last
  | (p, d) :: rest =>
    s <- ParseUtil.addArgs newstring p ;;
    s' <- ParseUtil.addArgs s
            (nth (ParseUtil.parseInt10 (String d "") - 1) args "") ;;
    expansion args s' rest last
  end.


(* ================================================================== *)
(** * Proofs *)

Import RegExp ParseUtil.

(** ** Strings *)

Lemma length_append (a b : string) :
  String.length (a ++ b) = String.length a + String.length b.
Proof. induction a as [|c a IH]; simpl; [reflexivity | now rewrite IH]. Qed.

Lemma append_nil_r (a : string) : a ++ "" = a.
Proof. induction a as [|c a IH]; simpl; [reflexivity | now rewrite IH]. Qed.

Lemma append_assoc (a b c : string) : (a ++ b) ++ c = a ++ (b ++ c).
Proof. induction a as [|x a IH]; simpl; [reflexivity | now rewrite IH]. Qed.

(** ** Results *)

Lemma bind_Ok {A B : Type} (r : result A) (f : A -> result B) (b : B) :
  bind r f = Ok b -> exists a, r = Ok a /\ f a = Ok b.
Proof. destruct r as [a|e]; simpl; [eauto | discriminate]. Qed.

(** ** substituteArgs *)

Section Substitute.
Variable args : list string.
Variable str : string.
Import SubstituteArgs.

Lemma step_escape st :
  JS.charAt str (i st) = "\" ->
  step args str st
  = Ok (State (text st ++ "\" ++ JS.charAt str (S (i st))) (newstring st)
              (S (S (i st)))).
Proof. intros H. unfold step. rewrite H. reflexivity. Qed.

Lemma step_hash_hash st :
  JS.charAt str (i st) = "#" -> JS.charAt str (S (i st)) = "#" ->
  step args str st = Ok (State (text st ++ "#") (newstring st) (S (S (i st)))).
Proof. intros H1 H2. unfold step. rewrite H1, H2. reflexivity. Qed.

Lemma step_illegal st :
  JS.charAt str (i st) = "#" ->
  (JS.charAt str (S (i st)) =? "#")%string = false ->
  (RegExp.test digit19 (JS.charAt str (S (i st))) = false
   \/ List.length args < parseInt10 (JS.charAt str (S (i st)))) ->
  step args str st = Throw IllegalMacroParam.
Proof.
  intros H1 H2 H3. unfold step. rewrite H1. simpl. rewrite H2.
  destruct H3 as [H3|H3].
  - rewrite H3. reflexivity.
  - apply Nat.ltb_lt in H3. rewrite H3, orb_true_r. reflexivity.
Qed.

Lemma step_param st c :
  JS.charAt str (i st) = "#" ->
  JS.charAt str (S (i st)) = c ->
  RegExp.test digit19 c = true ->
  parseInt10 c <= List.length args ->
  step args str st
  = (s <- addArgs (newstring st) (text st) ;;
     s' <- addArgs s (nth (parseInt10 c - 1) args "") ;;
     Ok (State "" s' (S (S (i st))))).
Proof.
  intros H1 H2 H3 H4. unfold step. rewrite H1. simpl. rewrite H2.
  assert (Hc : (c =? "#")%string = false).
  { destruct (String.eqb_spec c "#") as [->|]; [discriminate H3 | reflexivity]. }
  rewrite Hc, H3. simpl.
  apply Nat.nlt_ge, Nat.ltb_nlt in H4. rewrite H4. reflexivity.
Qed.

Lemma subst_step_plain st :
  (JS.charAt str (i st) =? "\")%string = false ->
  (JS.charAt str (i st) =? "#")%string = false ->
  step args str st
  = Ok (State (text st ++ JS.charAt str (i st)) (newstring st) (S (i st))).
Proof. intros H1 H2. unfold step. rewrite H1, H2. reflexivity. Qed.

Lemma step_advances st st' : step args str st = Ok st' -> i st < i st'.
Proof.
  unfold step.
  destruct (JS.charAt str (i st) =? "\")%string; [intros [= <-]; simpl; lia|].
  destruct (JS.charAt str (i st) =? "#")%string.
  - destruct (JS.charAt str (S (i st)) =? "#")%string; [intros [= <-]; simpl; lia|].
    destruct (_ || _)%bool; [discriminate|].
    destruct (addArgs _ _) as [s|]; [simpl|discriminate].
    destruct (addArgs _ _) as [s'|]; [simpl|discriminate].
    intros [= <-]; simpl; lia.
  - intros [= <-]; simpl; lia.
Qed.

Lemma subst_loop_app n k st :
  loop args str (n + k) st = (st' <- loop args str n st ;; loop args str k st').
Proof.
  revert st. induction n as [|n IH]; intros st; simpl.
  - destruct (i st <? JS.length str) eqn:E; simpl; [reflexivity|].
    destruct k; simpl; rewrite E; reflexivity.
  - destruct (i st <? JS.length str) eqn:E; simpl.
    + destruct (step args str st) as [st1|e]; simpl; [apply IH | reflexivity].
    + destruct k; simpl; rewrite E; reflexivity.
Qed.

Lemma loop_count n st st' :
  loop args str n st = Ok st' -> i st' < JS.length str -> i st + n <= i st'.
Proof.
  revert st. induction n as [|n IH]; intros st; simpl.
  - destruct (i st <? JS.length str); intros [= <-]; lia.
  - destruct (i st <? JS.length str) eqn:E.
    + destruct (step args str st) as [st1|e] eqn:Hs; simpl; [|discriminate].
      intros H Hlt. apply step_advances in Hs. specialize (IH _ H Hlt). lia.
    + intros [= <-] Hlt. apply Nat.ltb_ge in E. lia.
Qed.

(** The loop runs to the end of [str]: the fuel it is given is enough. *)
Lemma subst_loop_exits fuel st st' :
  JS.length str - i st <= fuel ->
  loop args str fuel st = Ok st' -> JS.length str <= i st'.
Proof.
  revert st. induction fuel as [|n IH]; intros st Hf; simpl.
  - destruct (i st <? JS.length str) eqn:E.
    + apply Nat.ltb_lt in E. lia.
    + intros [= <-]. now apply Nat.ltb_ge in E.
  - destruct (i st <? JS.length str) eqn:E.
    + destruct (step args str st) as [st1|e] eqn:Hs; simpl; [|discriminate].
      apply IH. apply step_advances in Hs. lia.
    + intros [= <-]. now apply Nat.ltb_ge in E.
Qed.

(** More turns than needed change nothing. *)
Lemma subst_loop_fuel fuel extra st :
  JS.length str - i st <= fuel ->
  loop args str (fuel + extra) st = loop args str fuel st.
Proof.
  intros H. rewrite subst_loop_app.
  destruct (loop args str fuel st) as [st'|e] eqn:E; [|reflexivity].
  cbn [bind]. pose proof (subst_loop_exits _ _ _ H E) as Hx.
  apply Nat.ltb_ge in Hx. destruct extra; cbn [loop]; rewrite Hx; reflexivity.
Qed.

(** A turn that throws, at a state the loop reaches, makes
    [substituteArgs] throw. *)
Lemma reach_throw n st e :
  loop args str n (State "" "" 0) = Ok st ->
  i st < JS.length str ->
  step args str st = Throw e ->
  substituteArgs args str = Throw e.
Proof.
  intros Hn Hlt He.
  pose proof (loop_count _ _ _ Hn Hlt) as Hc. simpl in Hc.
  unfold substituteArgs.
  replace (JS.length str) with (n + S (JS.length str - n - 1)) by lia.
  rewrite subst_loop_app, Hn. simpl.
  apply Nat.ltb_lt in Hlt. rewrite Hlt, He. reflexivity.
Qed.

End Substitute.

Lemma addArgs_bound s1 s2 s :
  addArgs s1 s2 = Ok s -> JS.length s <= MAXBUFFER.
Proof.
  unfold addArgs.
  set (s1' := if (_ && _)%bool then _ else _).
  destruct (MAXBUFFER <? _) eqn:E; [discriminate|].
  intros [= <-]. apply Nat.ltb_ge in E. unfold JS.length in *.
  rewrite length_append. exact E.
Qed.

Lemma addArgs_overflow s1 s2 :
  MAXBUFFER < JS.length s1 + JS.length s2 ->
  addArgs s1 s2 = Throw MaxBufferSize.
Proof.
  intros H. unfold addArgs.
  set (s1' := if (_ && _)%bool then _ else _).
  assert (Hl : JS.length s1 <= JS.length s1').
  { subst s1'. destruct (_ && _)%bool; [|lia].
    unfold JS.length. rewrite length_append. lia. }
  assert (E : (MAXBUFFER <? JS.length s1' + JS.length s2) = true)
    by (apply Nat.ltb_lt; lia).
  rewrite E. reflexivity.
Qed.

Lemma substituteArgs_bound args str s :
  substituteArgs args str = Ok s -> JS.length s <= MAXBUFFER.
Proof.
  unfold substituteArgs. intros H.
  apply bind_Ok in H. destruct H as (st & _ & H).
  eapply addArgs_bound; eauto.
Qed.

(** ** The matcher *)

Lemma m_Seq r1 r2 k st : m (Seq r1 r2) k st = m r1 (fun st' => m r2 k st') st.
Proof. reflexivity. Qed.

Lemma m_Alt r1 r2 k st :
  m (Alt r1 r2) k st
  = match m r1 k st with Some x => Some x | None => m r2 k st end.
Proof. reflexivity. Qed.

Lemma m_Char_cons p k n c s cs :
  m (Char p) k (MState n (String c s) cs)
  = if p c then k (MState (S n) s cs) else None.
Proof. reflexivity. Qed.

Lemma m_Char_nil p k n cs : m (Char p) k (MState n "" cs) = None.
Proof. reflexivity. Qed.

Lemma m_Star r k st :
  m (Star r) k st = star_loop (m r) k (S (String.length (rest st))) st.
Proof. reflexivity. Qed.

(** A start index other than 0 never matches an anchored pattern. *)
Lemma exec_from_Bol r s start :
  0 < start -> exec_from (Seq Bol r) start s = None.
Proof.
  revert start. induction s as [|c s IH]; intros start H; simpl.
  - destruct start; [lia | reflexivity].
  - destruct start; [lia|]. simpl. apply IH. lia.
Qed.

Lemma exec_Bol r s :
  exec (Seq Bol r) s
  = match m r Some (MState 0 s []) with
    | Some st => Some (MatchResult 0 (pos st) (caps st))
    | None => None
    end.
Proof.
  unfold exec. destruct s as [|c s]; simpl.
  - destruct (m r Some _); reflexivity.
  - destruct (m r Some _); [reflexivity|]. apply exec_from_Bol. lia.
Qed.

(** A greedy run over a character class: when the input starts with
    characters of the class, followed by one that is not in it (or by
    the end), and the continuation accepts what follows the whole run,
    that is the match. *)
Lemma star_class_greedy p k x ds b fuel n cs :
  allOf p ds = true -> startsWith p b = false ->
  String.length ds <= fuel ->
  k (MState (n + String.length ds) b cs) = Some x ->
  star_loop (m (Char p)) k fuel (MState n (ds ++ b) cs) = Some x.
Proof.
  revert fuel n. induction ds as [|d ds IH]; intros fuel n Hall Hb Hf Hk.
  - simpl in *. rewrite Nat.add_0_r in Hk.
    destruct fuel; simpl; [exact Hk|].
    destruct b as [|c b]; simpl in *; [exact Hk|]. rewrite Hb. exact Hk.
  - simpl in Hall. apply andb_prop in Hall. destruct Hall as [Hd Hall].
    destruct fuel; simpl in Hf; [lia|].
    cbn [star_loop append]. rewrite m_Char_cons, Hd. cbn [pos].
    assert (E : (n <? S n) = true) by (apply Nat.ltb_lt; lia). rewrite E.
    rewrite (IH fuel (S n)); auto; [lia|].
    simpl in Hk. now rewrite <- Nat.add_succ_comm in Hk.
Qed.

Lemma m_star_class p k x ds b n cs :
  allOf p ds = true -> startsWith p b = false ->
  k (MState (n + String.length ds) b cs) = Some x ->
  m (Star (Char p)) k (MState n (ds ++ b) cs) = Some x.
Proof.
  intros. rewrite m_Star. apply star_class_greedy; auto.
  simpl. rewrite length_append. lia.
Qed.

(** A greedy run over a character class fails when the continuation
    fails wherever the run may stop. *)
Lemma star_class_none p k ds c b fuel n cs :
  allOf p ds = true -> p c = false ->
  (forall st, rest st <> "" -> k st = None) ->
  star_loop (m (Char p)) k fuel (MState n (ds ++ String c b) cs) = None.
Proof.
  intros Hall Hc Hk. revert fuel n.
  induction ds as [|d ds IH]; intros fuel n.
  - destruct fuel; cbn [star_loop append].
    + apply Hk. simpl. discriminate.
    + rewrite m_Char_cons, Hc. apply Hk. simpl. discriminate.
  - simpl in Hall. apply andb_prop in Hall. destruct Hall as [Hd Hall].
    destruct fuel; cbn [star_loop append].
    + apply Hk. simpl. discriminate.
    + rewrite m_Char_cons, Hd. cbn [pos].
      assert (E : (n <? S n) = true) by (apply Nat.ltb_lt; lia). rewrite E.
      rewrite (IH Hall). apply Hk. simpl. discriminate.
Qed.

(** The longest prefix in a class. *)
Lemma span_class p s c r :
  p c = false ->
  exists ds x b,
    s ++ String c r = ds ++ String x b /\ allOf p ds = true /\ p x = false.
Proof.
  intros Hc. induction s as [|d s IH]; simpl.
  - exists "", c, r. auto.
  - destruct (p d) eqn:Hd.
    + destruct IH as (ds & x & b & E & Hall & Hx).
      exists (String d ds), x, b. simpl. rewrite E, Hd, Hall. auto.
    + exists "", d, (s ++ String c r). auto.
Qed.

(** ** Trigger *)

Lemma special_cases c :
  isSpecial c = false ->
  Ascii.eqb "\" c = false /\ Ascii.eqb "$" c = false
  /\ Ascii.eqb "{" c = false /\ Ascii.eqb "}" c = false.
Proof.
  unfold isSpecial. simpl. rewrite !orb_false_iff.
  rewrite !(Ascii.eqb_sym c). tauto.
Qed.

Lemma trigger_at_special c s n :
  isSpecial c = true ->
  exists st, m ParseUtil.trigger Some (MState n (String c s) []) = Some st.
Proof.
  intros H. unfold ParseUtil.trigger. rewrite m_Alt, m_Seq.
  unfold Opt at 1. rewrite m_Alt.
  destruct (m (Lit "\") _ _) as [x|]; [eauto|].
  change (m Empty ?k ?st) with (k st). cbv beta.
  unfold OneOf. rewrite m_Char_cons. fold (isSpecial c). rewrite H. eauto.
Qed.

Lemma trigger_at_plain c s n :
  isSpecial c = false ->
  m ParseUtil.trigger Some (MState n (String c s) []) = None.
Proof.
  intros H. pose proof (special_cases c H) as (Hb & _).
  unfold ParseUtil.trigger, Opt, OneOf, Lit. cbn [m rest].
  fold (isSpecial c). rewrite Hb, H. reflexivity.
Qed.

Lemma exec_from_trigger s n :
  match exec_from ParseUtil.trigger n s with Some _ => true | None => false end
  = anyOf isSpecial s.
Proof.
  revert n. induction s as [|c s IH]; intros n.
  - reflexivity.
  - cbn [exec_from anyOf]. destruct (isSpecial c) eqn:H.
    + destruct (trigger_at_special c s n H) as [st ->]. reflexivity.
    + rewrite trigger_at_plain by exact H. simpl. apply IH.
Qed.

(** The loop of [internalMath] is entered exactly when the text contains a
    dollar, a brace or a backslash. *)
Lemma test_trigger s : test ParseUtil.trigger s = anyOf isSpecial s.
Proof. unfold test, exec. apply exec_from_trigger. Qed.

(** ** Substrings *)

Lemma substring_length n l s :
  String.length (substring n l s) = Nat.min l (String.length s - n).
Proof.
  revert n l. induction s as [|c s IH]; intros n l.
  - destruct n, l; reflexivity.
  - destruct n as [|n].
    + destruct l as [|l]; [reflexivity|]. simpl. now rewrite IH, Nat.sub_0_r.
    + simpl. apply IH.
Qed.

Lemma substring_all s : substring 0 (String.length s) s = s.
Proof. induction s as [|c s IH]; simpl; [reflexivity | now rewrite IH]. Qed.

Lemma substring_0_0 s : substring 0 0 s = "".
Proof. destruct s; reflexivity. Qed.

Lemma substring_skip a b l :
  substring (String.length a) l (a ++ b) = substring 0 l b.
Proof. induction a as [|c a IH]; simpl; [reflexivity | exact IH]. Qed.

Lemma substring_take a b :
  substring 0 (String.length a) (a ++ b) = a.
Proof.
  induction a as [|c a IH]; simpl; [apply substring_0_0 | now rewrite IH].
Qed.

Lemma slice_0 s : JS.slice s 0 = s.
Proof. unfold JS.slice. rewrite Nat.sub_0_r. apply substring_all. Qed.

(** The character at an index heads the rest of the string from there. *)
Lemma charAt_substr s n c :
  JS.charAt s n = String c "" ->
  exists r, JS.substr s n = String c r.
Proof.
  unfold JS.charAt, JS.substr. revert n.
  induction s as [|d s IH]; intros n H.
  - destruct n; discriminate.
  - destruct n as [|n]; simpl in *.
    + injection H as -> _. eauto.
    + apply IH. exact H.
Qed.

Lemma charAt_lt s n c : JS.charAt s n = String c "" -> n < String.length s.
Proof.
  unfold JS.charAt. revert n. induction s as [|d s IH]; intros n H.
  - destruct n; discriminate.
  - destruct n as [|n]; simpl in *; [lia|]. apply IH in H. lia.
Qed.

Lemma substring_after_take s t n l :
  n <= String.length s ->
  substring n l (substring 0 n s ++ t) = substring 0 l t.
Proof.
  revert s. induction n as [|n IH]; intros s H.
  - now rewrite substring_0_0.
  - destruct s as [|c s]; simpl in H; [lia|]. simpl. apply IH. lia.
Qed.

Lemma substring_of_substr s n l :
  substring 0 l (JS.substr s n) = substring n l s.
Proof.
  unfold JS.substr. revert n. induction s as [|c s IH]; intros n.
  - destruct n, l; reflexivity.
  - destruct n as [|n].
    + rewrite Nat.sub_0_r, substring_all. reflexivity.
    + simpl. apply IH.
Qed.

(** Removing the character at index [n] leaves the next one in its place. *)
Lemma charAt_removed s n :
  n < String.length s ->
  JS.charAt (JS.substr2 s 0 n ++ JS.substr s (S n)) n = JS.charAt s (S n).
Proof.
  intros H. unfold JS.charAt, JS.substr2.
  rewrite substring_after_take by lia. apply substring_of_substr.
Qed.

Lemma length_removed s n :
  n < String.length s ->
  String.length (JS.substr2 s 0 n ++ JS.substr s (S n)) = String.length s - 1.
Proof.
  intros H. unfold JS.substr2, JS.substr.
  rewrite length_append, !substring_length. lia.
Qed.

Lemma charAt_append pre c s :
  JS.charAt (pre ++ String c s) (String.length pre) = String c "".
Proof.
  unfold JS.charAt. rewrite substring_skip. simpl. now rewrite substring_0_0.
Qed.

Lemma charAt_end s n : String.length s <= n -> JS.charAt s n = "".
Proof.
  unfold JS.charAt. revert n. induction s as [|c s IH]; intros n H.
  - destruct n; reflexivity.
  - destruct n as [|n]; simpl in *; [lia|]. apply IH. lia.
Qed.

Lemma one_char_eqb c d :
  (String c "" =? String d "")%string = Ascii.eqb c d.
Proof. simpl. destruct (Ascii.eqb c d); reflexivity. Qed.

(** ** internalMath *)

Lemma special_inv c :
  isSpecial c = true -> c = "$"%char \/ c = "{"%char \/ c = "}"%char \/ c = "\"%char.
Proof.
  unfold isSpecial. cbn [mem]. rewrite orb_false_r.
  rewrite !orb_true_iff, !Ascii.eqb_eq. tauto.
Qed.

Lemma refOpen_special c r :
  isSpecial c = true -> exec refOpen (String c r) = None.
Proof.
  intros H. unfold refOpen. rewrite exec_Bol.
  apply special_inv in H. destruct H as [->|[->|[->| ->]]]; reflexivity.
Qed.

Lemma test_special c : test special (String c "") = isSpecial c.
Proof.
  unfold test, exec, special, OneOf. cbn [exec_from m rest].
  fold (isSpecial c). destruct (isSpecial c); reflexivity.
Qed.

Section Scanner.
Import InternalMath.
Variable parse : string -> result MmlNode.
Variable def : EnvList.

(** A dollar in dollar math, outside braces, ends the math: the text since
    the opening dollar is parsed and pushed as a TeXAtom, and the loop is
    back in text. *)
Lemma step_dollar_close st :
  JS.charAt (text st) (i st) = "$" ->
  match_ st = "$" -> braces st = 0 ->
  step parse def st
  = (tree <- parse (JS.slice2 (text st) (k st) (i st)) ;;
     Ok (State (text st) (S (i st)) (S (i st)) "" 0
               (push (mml st) (createNode "TeXAtom" [tree] [] None)))).
Proof.
  intros Hc Hm Hb. unfold step. rewrite Hc, Hm, Hb. simpl.
  rewrite Nat.sub_0_r. reflexivity.
Qed.

(** A backslash before a dollar, a brace or a backslash, in text: the
    backslash is removed from the text and the loop goes on after the
    character, which is left where the backslash was. *)
Lemma step_literal_escape st c :
  match_ st = "" ->
  JS.charAt (text st) (i st) = "\" ->
  JS.charAt (text st) (S (i st)) = String c "" ->
  isSpecial c = true ->
  step parse def st
  = Ok (State (JS.substr2 (text st) 0 (i st) ++ JS.substr (text st) (S (i st)))
              (S (i st)) (k st) "" (braces st) (mml st)).
Proof.
  intros Hm Hc Hc' Hs. unfold step. rewrite Hc, Hm, Hc'.
  destruct (charAt_substr _ _ _ Hc') as [r Hr].
  cbn [String.eqb Ascii.eqb Bool.eqb andb negb].
  rewrite Hr, (refOpen_special c r Hs), test_special, Hs.
  apply special_inv in Hs. destruct Hs as [->|[->|[->| ->]]]; simpl;
    rewrite ?Nat.sub_0_r, ?Hr; reflexivity.
Qed.

Lemma scan_step_plain st :
  JS.charAt (text st) (i st) <> "$" -> JS.charAt (text st) (i st) <> "{" ->
  JS.charAt (text st) (i st) <> "}" -> JS.charAt (text st) (i st) <> "\" ->
  step parse def st
  = Ok (State (text st) (S (i st)) (k st) (match_ st) (braces st) (mml st)).
Proof.
  intros H1 H2 H3 H4. unfold step.
  apply String.eqb_neq in H1, H2, H3, H4. rewrite H1, H2, H3, H4.
  reflexivity.
Qed.

(** Every turn brings [i] closer to the end of the text. *)
Lemma step_measure st st' :
  step parse def st = Ok st' ->
  i st < JS.length (text st) ->
  JS.length (text st') - i st' < JS.length (text st) - i st.
Proof.
  unfold step, JS.length. intros H Hlt.
  repeat match type of H with
  | context [if ?b then _ else _] => destruct b eqn:?
  | context [match ?x with Some _ => _ | None => _ end] => destruct x eqn:?
  | context [bind ?r _] => destruct r; cbn [bind] in H
  end; try discriminate; injection H as <-; cbn [text i]; try lia.
  rewrite Nat.sub_0_r, length_removed by lia. lia.
Qed.

(** The loop runs to the end of the text: the fuel it is given is enough. *)
Lemma scan_loop_exits fuel st st' :
  JS.length (text st) - i st <= fuel ->
  loop parse def fuel st = Ok st' -> JS.length (text st') <= i st'.
Proof.
  revert st. induction fuel as [|n IH]; intros st Hf; simpl.
  - destruct (i st <? JS.length (text st)) eqn:E.
    + apply Nat.ltb_lt in E. lia.
    + intros [= <-]. now apply Nat.ltb_ge in E.
  - destruct (i st <? JS.length (text st)) eqn:E.
    + destruct (step parse def st) as [st1|e] eqn:Hs; simpl; [|discriminate].
      apply IH. apply Nat.ltb_lt in E. apply step_measure in Hs; lia.
    + intros [= <-]. now apply Nat.ltb_ge in E.
Qed.

Lemma scan_loop_app n j st :
  loop parse def (n + j) st
  = (st' <- loop parse def n st ;; loop parse def j st').
Proof.
  revert st. induction n as [|n IH]; intros st; simpl.
  - destruct (i st <? JS.length (text st)) eqn:E; simpl; [reflexivity|].
    destruct j; simpl; rewrite E; reflexivity.
  - destruct (i st <? JS.length (text st)) eqn:E; simpl.
    + destruct (step parse def st) as [st1|e]; simpl; [apply IH | reflexivity].
    + destruct j; simpl; rewrite E; reflexivity.
Qed.

(** More turns than needed change nothing. *)
Lemma scan_loop_fuel fuel extra st :
  JS.length (text st) - i st <= fuel ->
  loop parse def (fuel + extra) st = loop parse def fuel st.
Proof.
  intros H. rewrite scan_loop_app.
  destruct (loop parse def fuel st) as [st'|e] eqn:E; [|reflexivity].
  cbn [bind]. pose proof (scan_loop_exits _ _ _ H E) as Hx.
  apply Nat.ltb_ge in Hx. destruct extra; cbn [loop]; rewrite Hx; reflexivity.
Qed.

Lemma charAt_plain s n :
  anyOf isSpecial s = false ->
  JS.charAt s n <> "$" /\ JS.charAt s n <> "{"
  /\ JS.charAt s n <> "}" /\ JS.charAt s n <> "\".
Proof.
  unfold JS.charAt. revert n. induction s as [|c s IH]; intros n H.
  - destruct n; simpl; repeat split; discriminate.
  - simpl in H. apply orb_false_iff in H. destruct H as [Hc H].
    destruct n as [|n]; simpl; [|apply IH; exact H].
    rewrite substring_0_0.
    repeat split; intros [= ->]; discriminate Hc.
Qed.

(** Without a dollar, brace or backslash the loop only moves [i]. *)
Lemma loop_plain fuel st :
  anyOf isSpecial (text st) = false ->
  exists j, loop parse def fuel st
            = Ok (State (text st) j (k st) (match_ st) (braces st) (mml st)).
Proof.
  intros H. revert st H. induction fuel as [|n IH]; intros st H; simpl.
  - destruct st; simpl; destruct (_ <? _); eauto.
  - destruct (i st <? JS.length (text st)); [|destruct st; eauto].
    destruct (charAt_plain (text st) (i st) H) as (H1 & H2 & H3 & H4).
    rewrite scan_step_plain by assumption. simpl.
    destruct (IH (State (text st) (S (i st)) (k st) (match_ st) (braces st)
                        (mml st)) H) as [j Hj].
    exists j. exact Hj.
Qed.

End Scanner.

(** The end of the text in math: the error, whatever was pushed. *)
(** The segments of [a $b$ c]. *)
Lemma segments_interspersed parse def :
  segments parse def "a $b$ c"
  = (tree <- parse "b" ;;
     Ok [ internalText "a " def;
          createNode "TeXAtom" [tree] [] None;
          internalText " c" def ]).
Proof.
  unfold segments, scanText.
  replace (test trigger "a $b$ c") with true by reflexivity.
  change (JS.length "a $b$ c") with (4 + 3).
  rewrite scan_loop_app.
  replace (InternalMath.loop parse def 4 _)
    with (Ok (InternalMath.State "a $b$ c" 4 3 "$" 0 [internalText "a " def]))
    by reflexivity.
  cbn [bind].
  change (InternalMath.loop parse def 3 ?st)
    with (st' <- InternalMath.step parse def st ;;
          InternalMath.loop parse def 2 st').
  rewrite step_dollar_close by reflexivity.
  change (parse (JS.slice2 _ _ _)) with (parse "b").
  destruct (parse "b") as [tree|e]; reflexivity.
Qed.

Lemma unterminated parse font text level st :
  InternalMath.loop parse (fontDef font) (JS.length text)
    (InternalMath.State text 0 0 "" 0 []) = Ok st ->
  InternalMath.match_ st <> "" ->
  internalMath parse font text level = Throw MathNotTerminated.
Proof.
  intros Hl Hm. unfold internalMath, segments, scanText.
  destruct (test trigger text) eqn:T.
  - rewrite Hl. simpl. apply String.eqb_neq in Hm. rewrite Hm. reflexivity.
  - rewrite test_trigger in T.
    destruct (loop_plain parse (fontDef font) (JS.length text) (InternalMath.State text 0 0 "" 0 []) T) as [j Hj].
    simpl in Hj. rewrite Hj in Hl. injection Hl as <-. now elim Hm.
Qed.

(** ** Dimensions *)

Lemma m_Group g r k st :
  m (Group g r) k st
  = m r (fun st' => k (MState (pos st') (rest st')
                              ((g, (pos st, pos st')) :: caps st'))) st.
Proof. reflexivity. Qed.

Lemma m_Empty k st : m Empty k st = k st.
Proof. reflexivity. Qed.

Lemma m_Opt_skip r k st : m r k st = None -> m (Opt r) k st = k st.
Proof. intros H. unfold Opt. rewrite m_Alt, H. reflexivity. Qed.

Lemma m_Opt_take r k st x : m r k st = Some x -> m (Opt r) k st = Some x.
Proof. intros H. unfold Opt. rewrite m_Alt, H. reflexivity. Qed.

Lemma m_Alt_right r1 r2 k st :
  m r1 k st = None -> m (Alt r1 r2) k st = m r2 k st.
Proof. intros H. rewrite m_Alt, H. reflexivity. Qed.

Lemma m_Alt_left r1 r2 k st x :
  m r1 k st = Some x -> m (Alt r1 r2) k st = Some x.
Proof. intros H. rewrite m_Alt, H. reflexivity. Qed.

Lemma m_Char_fail p k n s cs :
  startsWith p s = false -> m (Char p) k (MState n s cs) = None.
Proof.
  intros H. destruct s as [|c s]; [reflexivity|].
  rewrite m_Char_cons. simpl in H. rewrite H. reflexivity.
Qed.

(** One or more characters of a class, greedily. *)
Lemma m_plus_class p k x d ds b n cs :
  p d = true -> allOf p ds = true -> startsWith p b = false ->
  k (MState (n + S (String.length ds)) b cs) = Some x ->
  m (Plus (Char p)) k (MState n (String d ds ++ b) cs) = Some x.
Proof.
  intros Hd Hds Hb Hk. unfold Plus. rewrite m_Seq.
  cbn [append]. rewrite m_Char_cons, Hd.
  apply m_star_class; auto.
  now rewrite Nat.add_succ_comm.
Qed.

Lemma space_not_digit c : JS.isSpace c = true -> JS.isDigit c = false.
Proof.
  unfold JS.isSpace, JS.isDigit. intros H.
  destruct ((48 <=? nat_of_ascii c) && (nat_of_ascii c <=? 57)) eqn:E;
    [|reflexivity].
  apply andb_prop in E. destruct E as [E1 E2].
  apply Nat.leb_le in E1, E2.
  rewrite !orb_true_iff, andb_true_iff, !Nat.eqb_eq, !Nat.leb_le in H. lia.
Qed.

Lemma space_not_sep c s :
  JS.isSpace c = true -> In s [".,"; "-+"] -> mem c s = false.
Proof.
  intros H Hs.
  destruct Hs as [<-|[<-|[]]]; cbn [mem]; rewrite orb_false_r;
    apply orb_false_iff; split; apply Ascii.eqb_neq; intros ->;
    vm_compute in H; discriminate.
Qed.

Lemma digit_not_sep c s :
  JS.isDigit c = true -> In s [".,"; "-+"] -> mem c s = false.
Proof.
  intros H Hs.
  destruct Hs as [<-|[<-|[]]]; cbn [mem]; rewrite orb_false_r;
    apply orb_false_iff; split; apply Ascii.eqb_neq; intros ->;
    vm_compute in H; discriminate.
Qed.

Lemma digit_not_space c : JS.isDigit c = true -> JS.isSpace c = false.
Proof.
  intros H. destruct (JS.isSpace c) eqn:E; [|reflexivity].
  apply space_not_digit in E. congruence.
Qed.

(** What follows the unit does not change how it starts. *)
Lemma unit_tail_start p u ws3 :
  (forall v, In v unitNames -> startsWith p v = false) ->
  In u unitNames ->
  startsWith p (u ++ ws3) = false.
Proof.
  intros Hun Hu. specialize (Hun u Hu).
  destruct u; [|exact Hun].
  exfalso. unfold unitNames in Hu. simpl in Hu.
  repeat (destruct Hu as [Hu|Hu]; [discriminate Hu|]). exact Hu.
Qed.

(** What follows the numeral: white space, the unit, white space. *)
Lemma tail_start p ws2 u ws3 :
  (forall c, JS.isSpace c = true -> p c = false) ->
  (forall v, In v unitNames -> startsWith p v = false) ->
  allOf JS.isSpace ws2 = true -> In u unitNames ->
  startsWith p (ws2 ++ u ++ ws3) = false.
Proof.
  intros Hsp Hun Hws Hu. destruct ws2 as [|c ws2].
  - cbn [append]. apply unit_tail_start; assumption.
  - simpl in *. apply andb_prop in Hws. apply Hsp. tauto.
Qed.

Lemma unit_start p :
  p "e"%char = false -> p "p"%char = false -> p "i"%char = false ->
  p "c"%char = false -> p "m"%char = false ->
  forall v, In v unitNames -> startsWith p v = false.
Proof.
  intros He Hp Hi Hc Hm v Hv. unfold unitNames in Hv. simpl in Hv.
  repeat (destruct Hv as [<-|Hv]; [assumption|]). destruct Hv.
Qed.

(** The unit. *)
Lemma m_unit u b k n cs x :
  In u unitNames ->
  k (MState (n + String.length u) b
            ((4, (n, n + String.length u)) :: cs)) = Some x ->
  m unit k (MState n (u ++ b) cs) = Some x.
Proof.
  intros Hu Hk. unfold unitNames in Hu. simpl in Hu.
  repeat (destruct Hu as [<-|Hu];
          [ simpl in Hk; rewrite <- !plus_n_Sm, <- plus_n_O in Hk;
            unfold unit; cbn; rewrite Hk; reflexivity |]).
  destruct Hu.
Qed.

Lemma sep_cases sep :
  In sep ["."; ","] ->
  exists c, sep = String c "" /\ mem c ".," = true /\ JS.isDigit c = false
            /\ mem c "-+" = false.
Proof.
  intros [<-|[<-|[]]]; eexists; repeat split; reflexivity.
Qed.

(** The digits and the fraction of a numeral, which is group 2: the state
    reached is handed on with the captures of groups 2 and, if there is a
    fraction after digits, 3. *)
Lemma m_num_body ip sep fp b n e cs :
  allOf JS.isDigit ip = true ->
  allOf JS.isDigit fp = true ->
  (sep = "" /\ fp = "" /\ ip <> "")
  \/ (In sep ["."; ","] /\ (ip <> "" \/ fp <> "")) ->
  startsWith JS.isDigit b = false ->
  startsWith (fun c => mem c ".,") b = false ->
  e = n + String.length (ip ++ sep ++ fp) ->
  exists cs',
    forall k x,
      k (MState e b ((2, (n, e)) :: cs')) = Some x ->
      m (Group 2 (Alt (Seq (OneOf ".,") (Plus digit))
                      (Seq (Plus digit)
                           (Opt (Group 3 (Seq (OneOf ".,") (Star digit)))))))
        k (MState n ((ip ++ sep ++ fp) ++ b) cs) = Some x.
Proof.
  intros Hip Hfp Hform Hb1 Hb2 He.
  destruct ip as [|d ip].
  - (* no digit before the separator *)
    destruct Hform as [(_ & _ & H)|(Hsep & [H|H])]; try now elim H.
    destruct fp as [|f fp]; [now elim H|]. clear H.
    destruct (sep_cases sep Hsep) as (c & -> & Hc & _).
    simpl in Hfp. apply andb_prop in Hfp. destruct Hfp as [Hf Hfp].
    exists cs. intros k x Hk.
    rewrite m_Group. apply m_Alt_left. rewrite m_Seq.
    cbn [append]. unfold OneOf. rewrite m_Char_cons, Hc.
    change (String f (fp ++ b)) with (String f fp ++ b).
    apply m_plus_class; auto. cbn [pos rest caps].
    simpl in He. replace (S n + S (String.length fp)) with e by lia.
    exact Hk.
  - simpl in Hip. apply andb_prop in Hip. destruct Hip as [Hd Hip].
    assert (HA : forall k s, m (Seq (OneOf ".,") (Plus digit)) k
                               (MState n (String d s) cs) = None).
    { intros k s. rewrite m_Seq. unfold OneOf. rewrite m_Char_cons.
      rewrite (digit_not_sep d ".,"); simpl; auto. }
    destruct Hform as [(-> & -> & _)|(Hsep & _)].
    + (* digits only *)
      exists cs. intros k x Hk.
      rewrite m_Group. cbn [append]. rewrite m_Alt_right by apply HA.
      rewrite m_Seq.
      change (String d ((ip ++ "") ++ b)) with (String d (ip ++ "") ++ b).
      rewrite !append_nil_r in *.
      apply m_plus_class; auto.
      rewrite m_Opt_skip.
      * cbn [pos rest caps]. simpl in He.
        replace (n + S (String.length ip)) with e by lia. exact Hk.
      * rewrite m_Group, m_Seq. apply m_Char_fail. exact Hb2.
    + (* digits and a fraction *)
      destruct (sep_cases sep Hsep) as (c & -> & Hc & Hcd & _).
      exists ((3, (n + S (String.length ip), e)) :: cs). intros k x Hk.
      rewrite m_Group. cbn [append]. rewrite m_Alt_right by apply HA.
      rewrite m_Seq. rewrite append_assoc. cbn [append].
      change (String d (ip ++ String c (fp ++ b)))
        with (String d ip ++ String c (fp ++ b)).
      apply m_plus_class; auto.
      apply m_Opt_take. rewrite m_Group, m_Seq. unfold OneOf.
      rewrite m_Char_cons, Hc. cbn [pos rest caps].
      apply m_star_class; auto. cbn [pos rest caps].
      simpl in He. rewrite !length_append in He. simpl in He.
      replace (S (n + S (String.length ip)) + String.length fp) with e by lia.
      exact Hk.
Qed.

(** The numeral, which is group 1. *)
Lemma m_num sign ip sep fp b n e cs :
  validNumeral sign ip sep fp ->
  startsWith JS.isDigit b = false ->
  startsWith (fun c => mem c ".,") b = false ->
  e = n + String.length (sign ++ ip ++ sep ++ fp) ->
  exists cs',
    forall k x,
      k (MState e b ((1, (n, e)) :: cs')) = Some x ->
      m num k (MState n ((sign ++ ip ++ sep ++ fp) ++ b) cs) = Some x.
Proof.
  intros (Hsign & Hip & Hfp & Hform) Hb1 Hb2 He.
  rewrite length_append in He.
  destruct (m_num_body ip sep fp b (n + String.length sign) e cs
              Hip Hfp Hform Hb1 Hb2) as [cs' Hbody]; [lia|].
  exists ((2, (n + String.length sign, e)) :: cs'). intros k x Hk.
  unfold num. rewrite m_Group, m_Seq.
  specialize (Hbody
    (fun st' => k (MState (pos st') (rest st')
                          ((1, (n, pos st')) :: caps st'))) x Hk).
  rewrite append_assoc.
  destruct Hsign as [<-|[<-|[<-|[]]]].
  - (* no sign *)
    cbn [append String.length] in *. rewrite Nat.add_0_r in Hbody.
    rewrite m_Opt_skip; [exact Hbody|].
    unfold OneOf. apply m_Char_fail.
    destruct ip as [|d ip].
    + destruct Hform as [(_ & _ & H)|(Hsep & _)]; [now elim H|].
      destruct (sep_cases sep Hsep) as (c & -> & _ & _ & Hc). exact Hc.
    + simpl in Hip. apply andb_prop in Hip. destruct Hip as [Hd _].
      simpl. apply (digit_not_sep d "-+"); simpl; auto.
  - apply m_Opt_take. unfold OneOf. cbn [append]. rewrite m_Char_cons.
    cbn [mem Ascii.eqb Bool.eqb orb andb pos rest caps].
    simpl in Hbody. rewrite Nat.add_1_r in Hbody. exact Hbody.
  - apply m_Opt_take. unfold OneOf. cbn [append]. rewrite m_Char_cons.
    cbn [mem Ascii.eqb Bool.eqb orb andb pos rest caps].
    simpl in Hbody. rewrite Nat.add_1_r in Hbody. exact Hbody.
Qed.

Lemma numeral_start sign ip sep fp b :
  validNumeral sign ip sep fp ->
  startsWith JS.isSpace ((sign ++ ip ++ sep ++ fp) ++ b) = false.
Proof.
  intros (Hsign & Hip & _ & Hform).
  destruct Hsign as [<-|[<-|[<-|[]]]]; try reflexivity.
  cbn [append]. destruct ip as [|d ip].
  - destruct Hform as [(_ & _ & H)|(Hsep & _)]; [now elim H|].
    destruct Hsep as [<-|[<-|[]]]; reflexivity.
  - simpl in Hip. apply andb_prop in Hip. destruct Hip as [Hd _].
    simpl. now apply digit_not_space.
Qed.

Lemma substring_mid a s c :
  substring (String.length a) (String.length s) (a ++ s ++ c) = s.
Proof. rewrite substring_skip. apply substring_take. Qed.

(** The match of [dimenEnd] on a numeral and a unit, with white space
    before, between and after them: the whole string, the numeral in
    group 1 and the unit in group 4. *)
Lemma exec_dimenEnd ws1 sign ip sep fp ws2 u ws3 :
  allOf JS.isSpace ws1 = true -> allOf JS.isSpace ws2 = true ->
  allOf JS.isSpace ws3 = true ->
  validNumeral sign ip sep fp -> In u unitNames ->
  let N := sign ++ ip ++ sep ++ fp in
  let dim := ws1 ++ N ++ ws2 ++ u ++ ws3 in
  exists mr,
    exec dimenEnd dim = Some mr
    /\ matched dim mr = dim
    /\ group dim mr 1 = Some N
    /\ group dim mr 4 = Some u.
Proof.
  intros H1 H2 H3 HN Hu N dim.
  set (tail := ws2 ++ u ++ ws3).
  assert (Ht1 : startsWith JS.isDigit tail = false).
  { apply tail_start; auto using space_not_digit.
    apply unit_start; reflexivity. }
  assert (Ht2 : startsWith (fun c => mem c ".,") tail = false).
  { apply tail_start; auto.
    - intros c Hc. apply (space_not_sep c ".,"); simpl; auto.
    - apply unit_start; reflexivity. }
  destruct (m_num sign ip sep fp tail (String.length ws1)
              (String.length ws1 + String.length N) [] HN Ht1 Ht2 eq_refl)
    as [cs' Hnum].
  set (a1 := String.length ws1) in *.
  set (b1 := a1 + String.length N) in *.
  set (a4 := b1 + String.length ws2).
  set (b4 := a4 + String.length u).
  set (L := b4 + String.length ws3).
  assert (Hm : m (Seq (Star ws) (Seq num (Seq (Star ws) (Seq unit
                 (Seq (Star ws) Eol))))) Some (MState 0 dim [])
               = Some (MState L "" ((4, (a4, b4)) :: (1, (a1, b1)) :: cs'))).
  { rewrite m_Seq. unfold ws at 1. subst dim.
    apply m_star_class; auto; [now apply numeral_start|].
    cbv beta. rewrite m_Seq. apply Hnum.
    cbv beta. rewrite m_Seq. unfold ws at 1. subst tail.
    apply m_star_class; auto.
    { apply unit_tail_start; auto. apply unit_start; reflexivity. }
    cbv beta. rewrite m_Seq. apply m_unit; auto.
    cbv beta. rewrite m_Seq. unfold ws.
    rewrite <- (append_nil_r ws3) at 1.
    apply m_star_class; auto. }
  assert (HL : L = String.length dim).
  { subst L b4 a4 b1 a1 dim. rewrite !length_append. lia. }
  exists (MatchResult 0 L ((4, (a4, b4)) :: (1, (a1, b1)) :: cs')).
  split; [|split; [|split]].
  - unfold dimenEnd. rewrite exec_Bol, Hm. reflexivity.
  - unfold matched. cbn [m_start m_end]. rewrite Nat.sub_0_r, HL.
    apply substring_all.
  - unfold group. cbn [m_caps lookup Nat.eqb].
    replace (b1 - a1) with (String.length N) by (subst b1; lia).
    subst a1 dim. now rewrite substring_mid.
  - unfold group. cbn [m_caps lookup Nat.eqb].
    replace (b4 - a4) with (String.length u) by (subst b4; lia).
    replace a4 with (String.length (ws1 ++ N ++ ws2))
      by (subst a4 b1 a1; rewrite !length_append; lia).
    subst dim.
    replace (ws1 ++ N ++ ws2 ++ u ++ ws3) with ((ws1 ++ N ++ ws2) ++ u ++ ws3)
      by (now rewrite !append_assoc).
    now rewrite substring_mid.
Qed.

(** ** The first comma *)

Lemma anyOf_append p a b : anyOf p (a ++ b) = (anyOf p a || anyOf p b)%bool.
Proof.
  induction a as [|c a IH]; simpl; [reflexivity|].
  now rewrite IH, orb_assoc.
Qed.

Lemma exec_from_Lit_none c s n :
  anyOf (Ascii.eqb c) s = false -> exec_from (Lit c) n s = None.
Proof.
  revert n. induction s as [|d s IH]; intros n H; [reflexivity|].
  simpl in H. apply orb_false_iff in H. destruct H as [Hd H].
  cbn [exec_from]. unfold Lit at 1. rewrite m_Char_cons, Hd.
  apply IH. exact H.
Qed.

Lemma exec_from_Lit_first c p q n :
  anyOf (Ascii.eqb c) p = false ->
  exec_from (Lit c) n (p ++ String c q)
  = Some (MatchResult (n + String.length p) (S (n + String.length p)) []).
Proof.
  revert n. induction p as [|d p IH]; intros n H.
  - cbn [append exec_from]. unfold Lit. rewrite m_Char_cons, Ascii.eqb_refl.
    simpl. now rewrite Nat.add_0_r.
  - simpl in H. apply orb_false_iff in H. destruct H as [Hd H].
    cbn [append exec_from]. unfold Lit at 1. rewrite m_Char_cons, Hd.
    rewrite IH by exact H. simpl. now rewrite Nat.add_succ_r.
Qed.

Lemma digits_no_comma s :
  allOf JS.isDigit s = true -> anyOf (Ascii.eqb ",") s = false.
Proof.
  induction s as [|c s IH]; intros H; [reflexivity|].
  cbn [allOf] in H. apply andb_prop in H. destruct H as [Hc H].
  cbn [anyOf]. rewrite IH by exact H. rewrite orb_false_r.
  apply Ascii.eqb_neq. intros <-. discriminate Hc.
Qed.

(** The first comma of a numeral is its separator. *)
Lemma replace_comma sign ip sep fp :
  validNumeral sign ip sep fp ->
  replace (Lit ",") "." (sign ++ ip ++ sep ++ fp) = anglosaxon sign ip sep fp.
Proof.
  intros (Hsign & Hip & Hfp & Hform). unfold replace, exec, anglosaxon.
  assert (Hs : anyOf (Ascii.eqb ",") sign = false).
  { destruct Hsign as [<-|[<-|[<-|[]]]]; reflexivity. }
  pose proof (digits_no_comma ip Hip) as Hi.
  pose proof (digits_no_comma fp Hfp) as Hf.
  destruct (String.eqb_spec sep ",") as [->|Hsep].
  - replace (sign ++ ip ++ "," ++ fp) with ((sign ++ ip) ++ String "," fp)
      by (now rewrite append_assoc).
    rewrite exec_from_Lit_first by (now rewrite anyOf_append, Hs, Hi).
    cbn [m_start m_end]. rewrite Nat.add_0_l.
    rewrite substring_take.
    change (String "," fp) with ("," ++ fp).
    replace (String.length ((sign ++ ip) ++ "," ++ fp)
             - S (String.length (sign ++ ip)))
      with (String.length fp) by (rewrite !length_append; simpl; lia).
    replace (S (String.length (sign ++ ip)))
      with (String.length ((sign ++ ip) ++ ","))
      by (rewrite !length_append; simpl; lia).
    rewrite <- (append_assoc (sign ++ ip) "," fp).
    rewrite <- (append_nil_r fp) at 2.
    rewrite substring_mid. now rewrite append_assoc.
  - rewrite exec_from_Lit_none; [reflexivity|].
    rewrite !anyOf_append, Hs, Hi, Hf.
    destruct Hform as [(-> & _)|([<-|[<-|[]]] & _)];
      [reflexivity | reflexivity | now elim Hsep].
Qed.

(** [matchDimen] on a numeral and a unit. *)
Lemma matchDimen_valid ws1 sign ip sep fp ws2 u ws3 :
  allOf JS.isSpace ws1 = true -> allOf JS.isSpace ws2 = true ->
  allOf JS.isSpace ws3 = true ->
  validNumeral sign ip sep fp -> In u unitNames ->
  matchDimen (ws1 ++ (sign ++ ip ++ sep ++ fp) ++ ws2 ++ u ++ ws3) false
  = (Some (anglosaxon sign ip sep fp), Some u,
     String.length (ws1 ++ (sign ++ ip ++ sep ++ fp) ++ ws2 ++ u ++ ws3)).
Proof.
  intros H1 H2 H3 HN Hu.
  destruct (exec_dimenEnd ws1 sign ip sep fp ws2 u ws3 H1 H2 H3 HN Hu)
    as (mr & He & Hm & Hg1 & Hg4).
  cbv zeta in *. unfold matchDimen. rewrite He, Hm, Hg1, Hg4.
  now rewrite replace_comma.
Qed.

(** ** What a match of the patterns of dimensions tells *)

Lemma star_class_inv p k fuel n s cs x :
  star_loop (m (Char p)) k fuel (MState n s cs) = Some x ->
  exists ds b,
    s = ds ++ b /\ allOf p ds = true
    /\ k (MState (n + String.length ds) b cs) = Some x.
Proof.
  revert n s. induction fuel as [|f IH]; intros n s H.
  - exists "", s. cbn [star_loop] in H. now rewrite Nat.add_0_r.
  - cbn [star_loop] in H.
    destruct s as [|c s].
    + rewrite m_Char_nil in H. exists "", "". now rewrite Nat.add_0_r.
    + rewrite m_Char_cons in H. destruct (p c) eqn:Hc.
      * cbn [pos] in H.
        replace (n <? S n) with true in H
          by (symmetry; apply Nat.ltb_lt; lia).
        destruct (star_loop (m (Char p)) k f (MState (S n) s cs)) eqn:E.
        -- injection H as <-.
           destruct (IH _ _ E) as (ds & b & -> & Hds & Hk).
           exists (String c ds), b. cbn [append allOf String.length].
           rewrite Hc, Hds. repeat split.
           now rewrite Nat.add_succ_r.
        -- exists "", (String c s). now rewrite Nat.add_0_r.
      * exists "", (String c s). now rewrite Nat.add_0_r.
Qed.

Lemma m_star_class_inv p k n s cs x :
  m (Star (Char p)) k (MState n s cs) = Some x ->
  exists ds b,
    s = ds ++ b /\ allOf p ds = true
    /\ k (MState (n + String.length ds) b cs) = Some x.
Proof. rewrite m_Star. apply star_class_inv. Qed.

Lemma m_plus_class_inv p k n s cs x :
  m (Plus (Char p)) k (MState n s cs) = Some x ->
  exists d ds b,
    s = String d ds ++ b /\ p d = true /\ allOf p ds = true
    /\ k (MState (n + S (String.length ds)) b cs) = Some x.
Proof.
  unfold Plus. rewrite m_Seq. intros H.
  destruct s as [|d s]; [now rewrite m_Char_nil in H|].
  rewrite m_Char_cons in H. destruct (p d) eqn:Hd; [|discriminate].
  apply m_star_class_inv in H. destruct H as (ds & b & -> & Hds & Hk).
  exists d, ds, b. cbn [pos rest caps] in Hk.
  repeat split; auto. now rewrite Nat.add_succ_r.
Qed.

Lemma m_class_inv p k n s cs x :
  m (Char p) k (MState n s cs) = Some x ->
  exists c b, s = String c b /\ p c = true /\ k (MState (S n) b cs) = Some x.
Proof.
  intros H. destruct s as [|c s]; [now rewrite m_Char_nil in H|].
  rewrite m_Char_cons in H. destruct (p c) eqn:Hc; [|discriminate].
  exists c, s. auto.
Qed.

Lemma m_Alt_inv r1 r2 k st x :
  m (Alt r1 r2) k st = Some x -> m r1 k st = Some x \/ m r2 k st = Some x.
Proof.
  rewrite m_Alt. destruct (m r1 k st); [intros [= <-]; now left | now right].
Qed.

Lemma m_Opt_inv r k st x :
  m (Opt r) k st = Some x -> m r k st = Some x \/ k st = Some x.
Proof. unfold Opt. intros H. apply m_Alt_inv in H. exact H. Qed.

(** Two literal characters. *)
Lemma m_word2_inv a b k n s cs x :
  m (Seq (Lit a) (Lit b)) k (MState n s cs) = Some x ->
  exists t,
    s = String a (String b t) /\ k (MState (S (S n)) t cs) = Some x.
Proof.
  rewrite m_Seq. unfold Lit. intros H.
  apply m_class_inv in H. destruct H as (c & s1 & -> & Hc & H).
  apply m_class_inv in H. destruct H as (c' & s2 & -> & Hc' & H).
  apply Ascii.eqb_eq in Hc, Hc'. subst. eauto.
Qed.

(** The unit. *)
Lemma m_unit_inv k n s cs x :
  m unit k (MState n s cs) = Some x ->
  exists u b,
    In u unitNames /\ s = u ++ b
    /\ k (MState (n + 2) b ((4, (n, n + 2)) :: cs)) = Some x.
Proof.
  unfold unit. rewrite m_Group. cbn [pos rest caps]. unfold Word. intros H.
  repeat (apply m_Alt_inv in H; destruct H as [H|H]);
    apply m_word2_inv in H; destruct H as (t & -> & H);
    cbn [pos rest caps] in H;
    replace (S (S n)) with (n + 2) in H by lia;
    match goal with
    | |- context [String ?a (String ?b t)] =>
      exists (String a (String b "")), t
    end;
    (split; [unfold unitNames; simpl; tauto | split; [reflexivity | exact H]]).
Qed.

Lemma sep_in c : mem c ".," = true -> In (String c "") ["."; ","].
Proof.
  cbn [mem]. rewrite orb_false_r, orb_true_iff, !Ascii.eqb_eq.
  intros [-> | ->]; simpl; auto.
Qed.

Lemma sign_in c : mem c "-+" = true -> In (String c "") [""; "+"; "-"].
Proof.
  cbn [mem]. rewrite orb_false_r, orb_true_iff, !Ascii.eqb_eq.
  intros [-> | ->]; simpl; auto.
Qed.

(** The digits and the fraction of a numeral. *)
Lemma m_num_body_inv k n s cs x :
  m (Group 2 (Alt (Seq (OneOf ".,") (Plus digit))
                  (Seq (Plus digit)
                       (Opt (Group 3 (Seq (OneOf ".,") (Star digit)))))))
    k (MState n s cs) = Some x ->
  exists ip sep fp b cs',
    allOf JS.isDigit ip = true /\ allOf JS.isDigit fp = true
    /\ ((sep = "" /\ fp = "" /\ ip <> "")
        \/ (In sep ["."; ","] /\ (ip <> "" \/ fp <> "")))
    /\ s = (ip ++ sep ++ fp) ++ b
    /\ k (MState (n + String.length (ip ++ sep ++ fp)) b cs') = Some x.
Proof.
  rewrite m_Group. cbn [pos rest caps]. intros H.
  apply m_Alt_inv in H. destruct H as [H|H].
  - (* a separator and digits *)
    rewrite m_Seq in H. unfold OneOf in H.
    apply m_class_inv in H. destruct H as (c & s1 & -> & Hc & H).
    unfold digit in H.
    apply m_plus_class_inv in H.
    destruct H as (d & ds & b & -> & Hd & Hds & H).
    cbn [pos rest caps] in H.
    exists "", (String c ""), (String d ds), b. eexists.
    split; [reflexivity|]. split; [cbn [allOf]; now rewrite Hd, Hds|].
    split; [right; split; [now apply sep_in | right; discriminate]|].
    split; [reflexivity|].
    cbn [append String.length].
    replace (n + S (S (String.length ds)))
      with (S n + S (String.length ds)) by lia.
    exact H.
  - (* digits, and a fraction or none *)
    rewrite m_Seq in H. unfold digit in H.
    apply m_plus_class_inv in H.
    destruct H as (d & ds & b1 & -> & Hd & Hds & H).
    apply m_Opt_inv in H. destruct H as [H|H].
    + rewrite m_Group, m_Seq in H. cbn [pos rest caps] in H.
      unfold OneOf in H.
      apply m_class_inv in H. destruct H as (c & s1 & -> & Hc & H).
      apply m_star_class_inv in H.
      destruct H as (fs & b & -> & Hfs & H).
      cbn [pos rest caps] in H.
      exists (String d ds), (String c ""), fs, b. eexists.
      split; [cbn [allOf]; now rewrite Hd, Hds|]. split; [exact Hfs|].
      split; [right; split; [now apply sep_in | left; discriminate]|].
      split; [now rewrite !append_assoc|].
      rewrite !length_append. cbn [String.length].
      replace (n + (S (String.length ds) + (1 + String.length fs)))
        with (S (n + S (String.length ds)) + String.length fs) by lia.
      exact H.
    + cbn [pos rest caps] in H.
      exists (String d ds), "", "", b1. eexists.
      split; [cbn [allOf]; now rewrite Hd, Hds|]. split; [reflexivity|].
      split; [left; repeat split; discriminate|].
      split; [now rewrite !append_nil_r|].
      rewrite !append_nil_r. cbn [String.length]. exact H.
Qed.

(** The numeral. *)
Lemma m_num_inv k n s cs x :
  m num k (MState n s cs) = Some x ->
  exists sign ip sep fp b cs',
    validNumeral sign ip sep fp
    /\ s = (sign ++ ip ++ sep ++ fp) ++ b
    /\ k (MState (n + String.length (sign ++ ip ++ sep ++ fp)) b cs')
       = Some x.
Proof.
  unfold num. rewrite m_Group, m_Seq. cbn [pos rest caps]. intros H.
  apply m_Opt_inv in H. destruct H as [H|H].
  - unfold OneOf in H at 1.
    apply m_class_inv in H. destruct H as (c & s1 & -> & Hc & H).
    apply m_num_body_inv in H.
    destruct H as (ip & sep & fp & b & cs' & Hip & Hfp & Hform & -> & H).
    cbn [pos rest caps] in H.
    exists (String c ""), ip, sep, fp, b. eexists.
    split; [|split].
    + unfold validNumeral. repeat split; auto. now apply sign_in.
    + reflexivity.
    + cbn [append String.length].
      replace (n + S (String.length (ip ++ sep ++ fp)))
        with (S n + String.length (ip ++ sep ++ fp)) by lia.
      exact H.
  - apply m_num_body_inv in H.
    destruct H as (ip & sep & fp & b & cs' & Hip & Hfp & Hform & -> & H).
    cbn [pos rest caps] in H.
    exists "", ip, sep, fp, b. eexists.
    split; [|split].
    + unfold validNumeral. repeat split; auto. simpl. auto.
    + reflexivity.
    + exact H.
Qed.

(** What [dimenEnd] matches is a numeral and a unit, with white space
    around them at most. *)
Lemma exec_dimenEnd_inv dim mr :
  exec dimenEnd dim = Some mr ->
  exists ws1 sign ip sep fp ws2 u ws3,
    allOf JS.isSpace ws1 = true /\ allOf JS.isSpace ws2 = true
    /\ allOf JS.isSpace ws3 = true
    /\ validNumeral sign ip sep fp /\ In u unitNames
    /\ dim = ws1 ++ (sign ++ ip ++ sep ++ fp) ++ ws2 ++ u ++ ws3.
Proof.
  unfold dimenEnd. rewrite exec_Bol.
  destruct (m _ Some (MState 0 dim [])) as [st|] eqn:H; [|discriminate].
  intros _. rewrite m_Seq in H. unfold ws in H at 1.
  apply m_star_class_inv in H. destruct H as (ws1 & b1 & -> & H1 & H).
  rewrite m_Seq in H. apply m_num_inv in H.
  destruct H as (sign & ip & sep & fp & b2 & cs' & HN & -> & H).
  rewrite m_Seq in H. unfold ws in H at 1.
  apply m_star_class_inv in H. destruct H as (ws2 & b3 & -> & H2 & H).
  rewrite m_Seq in H. apply m_unit_inv in H.
  destruct H as (u & b4 & Hu & -> & H).
  rewrite m_Seq in H. unfold ws in H.
  apply m_star_class_inv in H. destruct H as (ws3 & b5 & -> & H3 & H).
  cbn [m rest] in H. destruct b5; [|discriminate].
  exists ws1, sign, ip, sep, fp, ws2, u, ws3.
  rewrite append_nil_r. tauto.
Qed.

(** What [dimenRest] matches starts with a numeral and a unit. *)
Lemma exec_dimenRest_inv dim mr :
  exec dimenRest dim = Some mr ->
  exists ws1 sign ip sep fp ws2 u tail,
    allOf JS.isSpace ws1 = true /\ allOf JS.isSpace ws2 = true
    /\ validNumeral sign ip sep fp /\ In u unitNames
    /\ dim = ws1 ++ (sign ++ ip ++ sep ++ fp) ++ ws2 ++ u ++ tail.
Proof.
  unfold dimenRest. rewrite exec_Bol.
  destruct (m _ Some (MState 0 dim [])) as [st|] eqn:H; [|discriminate].
  intros _. rewrite m_Seq in H. unfold ws in H at 1.
  apply m_star_class_inv in H. destruct H as (ws1 & b1 & -> & H1 & H).
  rewrite m_Seq in H. apply m_num_inv in H.
  destruct H as (sign & ip & sep & fp & b2 & cs' & HN & -> & H).
  rewrite m_Seq in H. unfold ws in H at 1.
  apply m_star_class_inv in H. destruct H as (ws2 & b3 & -> & H2 & H).
  rewrite m_Seq in H. apply m_unit_inv in H.
  destruct H as (u & b4 & Hu & -> & H).
  exists ws1, sign, ip, sep, fp, ws2, u, b4. tauto.
Qed.

(** ** dimen2em *)

Lemma anglosaxon_truthy sign ip sep fp :
  validNumeral sign ip sep fp -> JS.truthy (anglosaxon sign ip sep fp) = true.
Proof.
  intros (_ & _ & _ & Hform). unfold JS.truthy, anglosaxon.
  apply negb_true_iff, String.eqb_neq. intros H.
  apply (f_equal String.length) in H. rewrite !length_append in H. simpl in H.
  assert (Hz : forall s, String.length s = 0 -> s = "")
    by (intros [|c s]; [reflexivity | discriminate]).
  destruct Hform as [(_ & _ & Hip)|([<-|[<-|[]]] & _)].
  - apply Hip, Hz. lia.
  - simpl in H. lia.
  - simpl in H. lia.
Qed.

Lemma dimen2em_valid ws1 sign ip sep fp ws2 u ws3 :
  allOf JS.isSpace ws1 = true -> allOf JS.isSpace ws2 = true ->
  allOf JS.isSpace ws3 = true ->
  validNumeral sign ip sep fp -> In u unitNames ->
  dimen2em (ws1 ++ (sign ++ ip ++ sep ++ fp) ++ ws2 ++ u ++ ws3)
  = emOf u (JSNumber.parseFloat (anglosaxon sign ip sep fp)).
Proof.
  intros H1 H2 H3 HN Hu. unfold dimen2em.
  rewrite matchDimen_valid by assumption.
  rewrite anglosaxon_truthy by assumption.
  unfold unitNames in Hu. simpl in Hu.
  repeat (destruct Hu as [<-|Hu]; [reflexivity|]). destruct Hu.
Qed.

Lemma dimen2em_no_match dim :
  matchDimen dim false = (None, None, 0) -> dimen2em dim = 0%float.
Proof. intros H. unfold dimen2em. rewrite H. reflexivity. Qed.

(** ** The claims about dimensions *)

(** C7. For a numeral (an optional sign, digits, an optional point or
    comma, and digits after it; with a digit on one side at least of the
    separator) followed by one of the units em, ex, pt, pc, px, in, cm,
    mm, mu, [matchDimen] with [rest = false] returns the numeral with its
    comma turned into a point, the unit, and the length of the whole
    string; this also with white space before the numeral, before the
    unit and after it. When the pattern does not match, [matchDimen]
    returns [[null, null, 0]]; it is a total function, there is nothing
    it could throw. *)
Theorem C7_matchDimen :
  (forall sign ip sep fp u,
     validNumeral sign ip sep fp -> In u unitNames ->
     matchDimen ((sign ++ ip ++ sep ++ fp) ++ u) false
     = (Some (anglosaxon sign ip sep fp), Some u,
        String.length ((sign ++ ip ++ sep ++ fp) ++ u)))
  /\ (forall ws1 sign ip sep fp ws2 u ws3,
        allOf JS.isSpace ws1 = true -> allOf JS.isSpace ws2 = true ->
        allOf JS.isSpace ws3 = true ->
        validNumeral sign ip sep fp -> In u unitNames ->
        matchDimen (ws1 ++ (sign ++ ip ++ sep ++ fp) ++ ws2 ++ u ++ ws3) false
        = (Some (anglosaxon sign ip sep fp), Some u,
           String.length
             (ws1 ++ (sign ++ ip ++ sep ++ fp) ++ ws2 ++ u ++ ws3)))
  /\ (forall (dim : string) (rest : bool),
        exec (if rest then dimenRest else dimenEnd) dim = None ->
        matchDimen dim rest = (None, None, 0))
  /\ matchDimen "-1,5em" false = (Some "-1.5", Some "em", 6)
  /\ matchDimen "3xyz" false = (None, None, 0)
  /\ matchDimen "pt" false = (None, None, 0)
  /\ matchDimen "1.2.3pt" false = (None, None, 0)
  /\ matchDimen "2pt;" false = (None, None, 0).
Proof.
  split; [|split; [|split; [|repeat split]]].
  - intros sign ip sep fp u HN Hu.
    pose proof (matchDimen_valid "" sign ip sep fp "" u "" eq_refl eq_refl
                  eq_refl HN Hu) as H.
    cbn [append] in H. rewrite append_nil_r in H. exact H.
  - intros. now apply matchDimen_valid.
  - intros dim rest H. unfold matchDimen. rewrite H. reflexivity.
Qed.

Lemma C7_matchDimen_witness :
  validNumeral "-" "1" "," "5"
  /\ In "em" unitNames
  /\ matchDimen "-1,5em" false = (Some "-1.5", Some "em", 6).
Proof.
  assert (HN : validNumeral "-" "1" "," "5").
  { unfold validNumeral. simpl. repeat split; auto.
    right. split; [auto|]. left. discriminate. }
  assert (Hu : In "em" unitNames) by (simpl; auto).
  split; [exact HN|]. split; [exact Hu|].
  exact (proj1 C7_matchDimen "-" "1" "," "5" "em" HN Hu).
Defined.

(** The numeral of a match is never empty: the default of [dimen2em],
    [value || '1'], is taken only when nothing matched, and then there
    is no unit either. *)
Lemma matchDimen_numeral dim :
  (matchDimen dim false = (None, None, 0) /\ dimen2em dim = 0%float)
  \/ (exists value unit n,
        matchDimen dim false = (Some value, Some unit, n)
        /\ JS.truthy value = true /\ In unit unitNames
        /\ dimen2em dim = emOf unit (JSNumber.parseFloat value)).
Proof.
  destruct (exec dimenEnd dim) as [mr|] eqn:E.
  - right. destruct (exec_dimenEnd_inv dim mr E)
      as (ws1 & sign & ip & sep & fp & ws2 & u & ws3
          & H1 & H2 & H3 & HN & Hu & ->).
    exists (anglosaxon sign ip sep fp), u,
      (String.length (ws1 ++ (sign ++ ip ++ sep ++ fp) ++ ws2 ++ u ++ ws3)).
    split; [now apply matchDimen_valid|].
    split; [now apply anglosaxon_truthy|].
    split; [exact Hu | now apply dimen2em_valid].
  - left.
    assert (Hm : matchDimen dim false = (None, None, 0))
      by (unfold matchDimen; now rewrite E).
    split; [exact Hm | now apply dimen2em_no_match].
Qed.

(** C8. [dimen2em] reads its argument with [matchDimen] and
    [rest = false]. For a numeral followed by a unit it is the magnitude
    the numeral denotes, converted by the entry of the unit in
    [UNIT_CASES]: as it is for em, times 0.43 for ex, divided by 10 for
    pt, times 1.2 for pc, times 7.2 and divided by 72 for px, times 7.2
    for in, times 7.2 and divided by 2.54 for cm or by 25.4 for mm,
    divided by 18 for mu. So 2pt is 0.2 and 1in is 7.2, and an unknown
    unit as in 3xyz gives 0. The magnitude 1 for a missing numeral is
    written in [dimen2em], as [value || '1'], but nothing reaches it with
    a unit: the pattern of [matchDimen] requires a numeral, so that every
    argument either is refused, without a unit and with the result 0, or
    has a numeral that is not empty. For em alone the code so gives 0,
    where the magnitude 1 gives 1, as for 1em. *)
Theorem C8_dimen2em :
  (forall ws1 sign ip sep fp ws2 u ws3,
     allOf JS.isSpace ws1 = true -> allOf JS.isSpace ws2 = true ->
     allOf JS.isSpace ws3 = true ->
     validNumeral sign ip sep fp -> In u unitNames ->
     dimen2em (ws1 ++ (sign ++ ip ++ sep ++ fp) ++ ws2 ++ u ++ ws3)
     = emOf u (JSNumber.parseFloat (anglosaxon sign ip sep fp)))
  /\ (forall dim,
        matchDimen dim false = (None, None, 0) -> dimen2em dim = 0%float)
  /\ (forall dim,
        (matchDimen dim false = (None, None, 0) /\ dimen2em dim = 0%float)
        \/ (exists value unit n,
              matchDimen dim false = (Some value, Some unit, n)
              /\ JS.truthy value = true /\ In unit unitNames
              /\ dimen2em dim = emOf unit (JSNumber.parseFloat value)))
  /\ dimen2em "2pt" = 0.2%float
  /\ dimen2em "1in" = 7.2%float
  /\ dimen2em "3xyz" = 0%float
  /\ matchDimen "em" false = (None, None, 0)
  /\ dimen2em "em" = 0%float
  /\ PrimFloat.eqb (dimen2em "em") 1%float = false
  /\ emOf "em" (JSNumber.parseFloat "1") = 1%float
  /\ dimen2em "1em" = 1%float.
Proof.
  split; [|split; [|split; [|repeat split]]].
  - intros. now apply dimen2em_valid.
  - apply dimen2em_no_match.
  - apply matchDimen_numeral.
Qed.

Lemma C8_dimen2em_witness :
  validNumeral "" "2" "" ""
  /\ In "pt" unitNames
  /\ dimen2em "2pt" = emOf "pt" (JSNumber.parseFloat "2").
Proof.
  assert (HN : validNumeral "" "2" "" "").
  { unfold validNumeral. simpl. repeat split; auto.
    left. repeat split. discriminate. }
  assert (Hu : In "pt" unitNames) by (simpl; auto).
  split; [exact HN|]. split; [exact Hu|].
  exact (proj1 C8_dimen2em "" "" "2" "" "" "" "pt" "" eq_refl eq_refl eq_refl
           HN Hu).
Defined.

(** ** Text without dollars, braces or backslashes *)

Lemma exec_leadingSpace s :
  startsWith JS.isSpace s = false -> exec leadingSpace s = None.
Proof.
  intros H. unfold leadingSpace. rewrite exec_Bol.
  unfold Plus, ws. rewrite m_Seq, m_Char_fail by exact H. reflexivity.
Qed.

Lemma exec_from_trailingSpace pre c n :
  JS.isSpace c = false ->
  exec_from trailingSpace n (pre ++ String c "") = None.
Proof.
  intros Hc. revert n. induction pre as [|d pre IH]; intros n.
  - cbn [append exec_from]. unfold trailingSpace, Plus, ws.
    rewrite !m_Seq, m_Char_cons, Hc. reflexivity.
  - cbn [append exec_from].
    replace (m trailingSpace Some (MState n (String d (pre ++ String c "")) []))
      with (@None mstate); [apply IH|].
    unfold trailingSpace, Plus, ws. rewrite !m_Seq, m_Char_cons.
    destruct (JS.isSpace d); [|reflexivity].
    rewrite m_Star. cbn [rest].
    destruct (span_class JS.isSpace pre c "" Hc) as (ds & x & b & -> & Hds & Hx).
    symmetry. apply star_class_none; auto.
    intros st Hst. cbn [m]. destruct (rest st); [now elim Hst | reflexivity].
Qed.

Lemma endsWith_inv p s :
  endsWith p s = false ->
  s = "" \/ exists pre c, s = pre ++ String c "" /\ p c = false.
Proof.
  induction s as [|d s IH]; intros H; [now left|]. right.
  destruct s as [|e s].
  - exists "", d. auto.
  - destruct (IH H) as [E|(pre & c & E & Hc)]; [discriminate|].
    exists (String d pre), c. simpl. now rewrite E.
Qed.

Lemma exec_trailingSpace s :
  endsWith JS.isSpace s = false -> exec trailingSpace s = None.
Proof.
  intros H. destruct (endsWith_inv _ _ H) as [->|(pre & c & -> & Hc)].
  - reflexivity.
  - now apply exec_from_trailingSpace.
Qed.

(** A text that neither starts nor ends with white space is the content
    of its text node. *)
Lemma internalText_trimmed text def :
  startsWith JS.isSpace text = false -> endsWith JS.isSpace text = false ->
  internalText text def = createNode "mtext" [] def (Some (createText text)).
Proof.
  intros H1 H2. unfold internalText, replace.
  rewrite exec_leadingSpace by exact H1.
  rewrite exec_trailingSpace by exact H2. reflexivity.
Qed.

Lemma segments_plain parse def text :
  anyOf isSpecial text = false ->
  segments parse def text
  = Ok (if (text =? "")%string then [] else [internalText text def]).
Proof.
  intros H. unfold segments, scanText. rewrite test_trigger, H.
  cbn [bind InternalMath.k InternalMath.text InternalMath.mml].
  rewrite slice_0. destruct text; reflexivity.
Qed.

(** ** Trailing zeros *)

Lemma Eol_fails st : rest st <> "" -> m Eol Some st = None.
Proof. intros H. cbn [m]. destruct (rest st); [now elim H | reflexivity]. Qed.

(** Zeros that do not reach the end of the string do not match. *)
Lemma zeros_fail s n cs :
  anyOf nonZero s = true ->
  m (Seq (Plus (Lit "0")) Eol) Some (MState n s cs) = None.
Proof.
  intros H. rewrite m_Seq. unfold Plus. rewrite m_Seq.
  destruct s as [|c s]; [discriminate|].
  unfold Lit at 1. rewrite m_Char_cons.
  destruct (Ascii.eqb "0" c) eqn:E; [|reflexivity].
  cbn [anyOf] in H. unfold nonZero at 1 in H. rewrite E in H. simpl in H.
  assert (Hs : exists ds x b, s = ds ++ String x b
                 /\ allOf (Ascii.eqb "0") ds = true /\ Ascii.eqb "0" x = false).
  { clear -H. induction s as [|d s IH]; [discriminate|].
    cbn [anyOf] in H. destruct (Ascii.eqb "0" d) eqn:Ed.
    - unfold nonZero at 1 in H. rewrite Ed in H.
      destruct (IH H) as (ds & x & b & -> & Hds & Hx).
      exists (String d ds), x, b. cbn [append allOf]. rewrite Ed, Hds. auto.
    - exists "", d, s. auto. }
  destruct Hs as (ds & x & b & -> & Hds & Hx).
  rewrite m_Star. unfold Lit. apply star_class_none; auto.
  intros st Hst. now apply Eol_fails.
Qed.

(** No match starts before a character other than zero, if it is not
    the last one, or, if it is, at that character. *)
Lemma tz_fail c s n :
  anyOf nonZero s = true \/ (s = "" /\ nonZero c = true) ->
  m trailingZeros Some (MState n (String c s) []) = None.
Proof.
  intros H. unfold trailingZeros. rewrite m_Seq.
  assert (Hskip : m (Seq (Plus (Lit "0")) Eol) Some (MState n (String c s) [])
                  = None).
  { destruct H as [H|(-> & H)].
    - apply zeros_fail. cbn [anyOf]. rewrite H. apply orb_true_r.
    - apply zeros_fail. cbn [anyOf]. rewrite H. reflexivity. }
  unfold Opt. rewrite m_Alt. unfold Lit at 1. rewrite m_Char_cons.
  destruct (Ascii.eqb "." c); [|exact Hskip].
  replace (m (Seq (Plus (Lit "0")) Eol) Some (MState (S n) s []))
    with (@None mstate); [exact Hskip|].
  symmetry. destruct H as [H|(-> & H)]; [now apply zeros_fail|reflexivity].
Qed.

Lemma tz_empty n : m trailingZeros Some (MState n "" []) = None.
Proof. reflexivity. Qed.

Lemma anyOf_last p s x : p x = true -> anyOf p (s ++ String x "") = true.
Proof.
  intros H. rewrite anyOf_append. simpl. rewrite H.
  now rewrite orb_true_r.
Qed.

(** A string that does not end with a zero is left as it is. *)
Lemma exec_tz_none s :
  endsWith (Ascii.eqb "0") s = false -> exec trailingZeros s = None.
Proof.
  intros H. unfold exec.
  destruct (endsWith_inv _ _ H) as [->|(pre & x & -> & Hx)]; [reflexivity|].
  clear H. generalize 0. induction pre as [|c pre IH]; intros n.
  - cbn [append exec_from]. rewrite tz_fail; [reflexivity|].
    right. unfold nonZero. now rewrite Hx.
  - cbn [append exec_from]. rewrite tz_fail; [apply IH|].
    left. apply anyOf_last. unfold nonZero. now rewrite Hx.
Qed.

Lemma tz_fail_other c s n :
  Ascii.eqb "." c = false -> Ascii.eqb "0" c = false ->
  m trailingZeros Some (MState n (String c s) []) = None.
Proof.
  intros H1 H2. unfold trailingZeros. rewrite m_Seq.
  rewrite m_Opt_skip by (unfold Lit; now rewrite m_Char_cons, H1).
  rewrite m_Seq. unfold Plus. rewrite m_Seq. unfold Lit at 1.
  now rewrite m_Char_cons, H2.
Qed.

(** Zeros up to the end of the string match. *)
Lemma zeros_match z zs n :
  Ascii.eqb "0" z = true -> allOf (Ascii.eqb "0") zs = true ->
  m (Seq (Plus (Lit "0")) Eol) Some (MState n (String z zs) [])
  = Some (MState (n + S (String.length zs)) "" []).
Proof.
  intros Hz Hzs. rewrite m_Seq. unfold Lit.
  rewrite <- (append_nil_r (String z zs)).
  apply m_plus_class; auto.
Qed.

Lemma tz_at_zeros z zs n :
  Ascii.eqb "0" z = true -> allOf (Ascii.eqb "0") zs = true ->
  m trailingZeros Some (MState n (String z zs) [])
  = Some (MState (n + S (String.length zs)) "" []).
Proof.
  intros Hz Hzs. unfold trailingZeros. rewrite m_Seq.
  rewrite m_Opt_skip.
  - now apply zeros_match.
  - unfold Lit. rewrite m_Char_cons.
    apply Ascii.eqb_eq in Hz. subst z. reflexivity.
Qed.

Lemma tz_at_point z zs n :
  Ascii.eqb "0" z = true -> allOf (Ascii.eqb "0") zs = true ->
  m trailingZeros Some (MState n (String "." (String z zs)) [])
  = Some (MState (S n + S (String.length zs)) "" []).
Proof.
  intros Hz Hzs. unfold trailingZeros. rewrite m_Seq.
  apply m_Opt_take. unfold Lit at 1. rewrite m_Char_cons.
  cbn [Ascii.eqb Bool.eqb]. now apply zeros_match.
Qed.

(** The zeros at the end of a string are the match, when what is before
    them ends with a character that is neither a point nor a zero. *)
Lemma exec_tz_zeros pre x z zs :
  Ascii.eqb "." x = false -> Ascii.eqb "0" x = false ->
  Ascii.eqb "0" z = true -> allOf (Ascii.eqb "0") zs = true ->
  exec trailingZeros ((pre ++ String x "") ++ String z zs)
  = Some (MatchResult (String.length (pre ++ String x ""))
            (String.length ((pre ++ String x "") ++ String z zs)) []).
Proof.
  intros Hx1 Hx2 Hz Hzs. unfold exec.
  assert (G : forall n,
    exec_from trailingZeros n ((pre ++ String x "") ++ String z zs)
    = Some (MatchResult (n + String.length (pre ++ String x ""))
              (n + String.length ((pre ++ String x "") ++ String z zs)) [])).
  { induction pre as [|c pre IH]; intros n.
    - cbn [append exec_from]. rewrite tz_fail_other by assumption.
      rewrite tz_at_zeros by assumption. cbn [pos caps String.length].
      f_equal. f_equal; lia.
    - cbn [append exec_from]. rewrite tz_fail.
      + rewrite IH. cbn [String.length]. f_equal. f_equal; lia.
      + left. rewrite anyOf_append. rewrite anyOf_last; [reflexivity|].
        unfold nonZero. now rewrite Hx2. }
  apply G.
Qed.

(** A point and the zeros at the end of a string are the match. *)
Lemma exec_tz_point pre z zs :
  Ascii.eqb "0" z = true -> allOf (Ascii.eqb "0") zs = true ->
  exec trailingZeros (pre ++ String "." (String z zs))
  = Some (MatchResult (String.length pre)
            (String.length (pre ++ String "." (String z zs))) []).
Proof.
  intros Hz Hzs. unfold exec.
  assert (G : forall n,
    exec_from trailingZeros n (pre ++ String "." (String z zs))
    = Some (MatchResult (n + String.length pre)
              (n + String.length (pre ++ String "." (String z zs))) [])).
  { induction pre as [|c pre IH]; intros n.
    - cbn [append exec_from]. rewrite tz_at_point by assumption.
      cbn [pos caps String.length]. f_equal. f_equal; lia.
    - cbn [append exec_from]. rewrite tz_fail.
      + rewrite IH. cbn [String.length]. f_equal. f_equal; lia.
      + left. rewrite anyOf_append. cbn [anyOf].
        replace (nonZero ".") with true by reflexivity.
        now rewrite orb_true_r. }
  apply G.
Qed.

Lemma substring_end s : substring (String.length s) 0 s = "".
Proof. induction s as [|c s IH]; [reflexivity | exact IH]. Qed.

(** What [Em] does to the digits of [toFixed]: zeros at the end are
    removed, and a point before them as well. *)
Lemma replace_tz_none s :
  endsWith (Ascii.eqb "0") s = false -> replace trailingZeros "" s = s.
Proof. intros H. unfold replace. now rewrite exec_tz_none. Qed.

Lemma replace_tz_zeros pre x z zs :
  Ascii.eqb "." x = false -> Ascii.eqb "0" x = false ->
  Ascii.eqb "0" z = true -> allOf (Ascii.eqb "0") zs = true ->
  replace trailingZeros "" ((pre ++ String x "") ++ String z zs)
  = pre ++ String x "".
Proof.
  intros. unfold replace. rewrite exec_tz_zeros by assumption.
  cbn [m_start m_end]. rewrite Nat.sub_diag, substring_end, substring_take.
  now rewrite append_nil_r.
Qed.

Lemma replace_tz_point pre z zs :
  Ascii.eqb "0" z = true -> allOf (Ascii.eqb "0") zs = true ->
  replace trailingZeros "" (pre ++ String "." (String z zs)) = pre.
Proof.
  intros. unfold replace. rewrite exec_tz_point by assumption.
  cbn [m_start m_end]. rewrite Nat.sub_diag, substring_end, substring_take.
  now rewrite append_nil_r.
Qed.

Lemma digit_not_point d : JS.isDigit d = true -> Ascii.eqb "." d = false.
Proof.
  intros H. apply Ascii.eqb_neq. intros <-. discriminate H.
Qed.

Lemma endsWith_append p a c b :
  endsWith p (a ++ String c b) = endsWith p (String c b).
Proof.
  induction a as [|x a IH]; [reflexivity|].
  cbn [append endsWith]. destruct (a ++ String c b) eqn:E; [|exact IH].
  destruct a; discriminate.
Qed.

(** Three decimals. *)
Lemma replace_tz_decimals ip d1 d2 d3 :
  JS.isDigit d1 = true -> JS.isDigit d2 = true -> JS.isDigit d3 = true ->
  replace trailingZeros ""
    (ip ++ String "." (String d1 (String d2 (String d3 ""))))
  = ip ++ fraction d1 d2 d3.
Proof.
  intros H1 H2 H3. unfold fraction.
  rewrite !(Ascii.eqb_sym _ "0").
  destruct (Ascii.eqb "0" d3) eqn:E3; cbn [negb].
  2:{ apply replace_tz_none. rewrite endsWith_append.
      cbn [endsWith]. exact E3. }
  destruct (Ascii.eqb "0" d2) eqn:E2; cbn [negb].
  2:{ replace (ip ++ String "." (String d1 (String d2 (String d3 ""))))
        with (((ip ++ String "." (String d1 "")) ++ String d2 "")
              ++ String d3 "") by (now rewrite !append_assoc).
      rewrite replace_tz_zeros; auto using digit_not_point.
      now rewrite !append_assoc. }
  destruct (Ascii.eqb "0" d1) eqn:E1; cbn [negb].
  2:{ replace (ip ++ String "." (String d1 (String d2 (String d3 ""))))
        with (((ip ++ ".") ++ String d1 "") ++ String d2 (String d3 ""))
        by (now rewrite !append_assoc).
      rewrite replace_tz_zeros; auto using digit_not_point.
      - now rewrite !append_assoc.
      - cbn [allOf]. now rewrite E3. }
  rewrite replace_tz_point; auto using append_nil_r.
  cbn [allOf]. now rewrite E2, E3.
Qed.

(** ** toFixed *)

Lemma allOf_append p a b : allOf p (a ++ b) = (allOf p a && allOf p b)%bool.
Proof.
  induction a as [|c a IH]; simpl; [reflexivity|].
  now rewrite IH, andb_assoc.
Qed.

Lemma string_of_uint_digits d :
  allOf JS.isDigit (NilEmpty.string_of_uint d) = true.
Proof. induction d; simpl; auto. Qed.

Lemma decimal_digits n : allOf JS.isDigit (JSNumber.decimal n) = true.
Proof.
  unfold JSNumber.decimal, NilZero.string_of_uint.
  destruct (N.to_uint (Z.to_N n)); try apply string_of_uint_digits.
  reflexivity.
Qed.

Lemma zeros_digits n : allOf JS.isDigit (JSNumber.zeros n) = true.
Proof. induction n as [|n IH]; simpl; auto. Qed.

Lemma zeros_length n : String.length (JSNumber.zeros n) = n.
Proof. induction n as [|n IH]; simpl; auto. Qed.

Lemma padStart_digits len s :
  allOf JS.isDigit s = true -> allOf JS.isDigit (JSNumber.padStart len s) = true.
Proof.
  intros H. unfold JSNumber.padStart.
  now rewrite allOf_append, zeros_digits, H.
Qed.

Lemma padStart_length len s : len <= String.length (JSNumber.padStart len s).
Proof.
  unfold JSNumber.padStart. rewrite length_append, zeros_length. lia.
Qed.

(** The last three of four digits or more. *)
Lemma last_three D :
  4 <= String.length D -> allOf JS.isDigit D = true ->
  exists ip d1 d2 d3,
    D = ip ++ String d1 (String d2 (String d3 ""))
    /\ ip <> "" /\ allOf JS.isDigit ip = true
    /\ JS.isDigit d1 = true /\ JS.isDigit d2 = true /\ JS.isDigit d3 = true
    /\ substring 0 (String.length D - 3) D = ip
    /\ substring (String.length D - 3) 3 D
       = String d1 (String d2 (String d3 "")).
Proof.
  induction D as [|c D IH]; intros Hl Hd; [simpl in Hl; lia|].
  cbn [allOf] in Hd. apply andb_prop in Hd. destruct Hd as [Hc Hd].
  destruct (Nat.eq_dec (String.length D) 3) as [E|E].
  - destruct D as [|d1 [|d2 [|d3 [|? ?]]]]; try discriminate E.
    cbn [allOf] in Hd.
    apply andb_prop in Hd. destruct Hd as [H1 Hd].
    apply andb_prop in Hd. destruct Hd as [H2 Hd].
    apply andb_prop in Hd. destruct Hd as [H3 _].
    exists (String c ""), d1, d2, d3. repeat split; auto.
    + discriminate.
    + cbn [allOf]. now rewrite Hc.
  - simpl in Hl.
    destruct IH as (ip & d1 & d2 & d3 & HD & _ & Hip & H1 & H2 & H3 & Ha & Hb);
      [lia | exact Hd |].
    exists (String c ip), d1, d2, d3.
    assert (El : String.length D = String.length ip + 3).
    { rewrite HD at 1. rewrite length_append. reflexivity. }
    repeat split; auto.
    + cbn [append]. now rewrite <- HD.
    + discriminate.
    + cbn [allOf]. now rewrite Hc, Hip.
    + cbn [String.length].
      replace (S (String.length D) - 3) with (S (String.length D - 3)) by lia.
      cbn [substring]. now rewrite Ha.
    + cbn [String.length].
      replace (S (String.length D) - 3) with (S (String.length D - 3)) by lia.
      cbn [substring]. exact Hb.
Qed.

(** [Em] on a magnitude that is a number, not under 0.0006 and under
    1e21: the digits of the magnitude in thousandths, rounded to the
    nearest, with the last three after a point, zeros at the end left
    out, and the point as well when nothing is left after it. *)
Lemma Em_decimals toString v :
  PrimFloat.eqb v v = true ->
  PrimFloat.ltb (PrimFloat.abs v) 0.0006%float = false ->
  PrimFloat.leb 1e21%float
    (if PrimFloat.ltb v 0%float then PrimFloat.opp v else v) = false ->
  exists ip d1 d2 d3,
    JSNumber.padStart 4
      (JSNumber.decimal
         (JSNumber.scaled
            (if PrimFloat.ltb v 0%float then PrimFloat.opp v else v) 3))
    = ip ++ String d1 (String d2 (String d3 ""))
    /\ ip <> "" /\ allOf JS.isDigit ip = true
    /\ JS.isDigit d1 = true /\ JS.isDigit d2 = true /\ JS.isDigit d3 = true
    /\ Em toString v
       = (if PrimFloat.ltb v 0%float then "-" else "")
         ++ ip ++ fraction d1 d2 d3 ++ "em".
Proof.
  intros Hnan Hbig Hsmall.
  set (x := if PrimFloat.ltb v 0%float then PrimFloat.opp v else v) in *.
  set (D := JSNumber.padStart 4 (JSNumber.decimal (JSNumber.scaled x 3))).
  destruct (last_three D) as (ip & d1 & d2 & d3 & HD & Hne & Hip & H1 & H2 & H3
                               & Ha & Hb).
  { apply padStart_length. }
  { apply padStart_digits, decimal_digits. }
  exists ip, d1, d2, d3. repeat split; auto.
  unfold Em. rewrite Hbig. unfold JSNumber.toFixed. rewrite Hnan. cbn [negb].
  assert (E : (if PrimFloat.ltb v 0%float then ("-", PrimFloat.opp v)
               else ("", v))
              = (if PrimFloat.ltb v 0%float then "-" else "", x)).
  { subst x. destruct (PrimFloat.ltb v 0%float); reflexivity. }
  rewrite E, Hsmall. fold D. rewrite Ha, Hb.
  change ("." ++ String d1 (String d2 (String d3 "")))
    with (String "." (String d1 (String d2 (String d3 "")))).
  rewrite <- append_assoc, replace_tz_decimals by assumption.
  now rewrite !append_assoc.
Qed.

(** ** Three decimal places *)












(** ** Bodies without parameters *)

(** The loop copies a body without parameters to [text]. *)
Lemma loop_verbatim args s :
  verbatim s ->
  forall pre fuel,
    String.length s <= fuel ->
    exists j,
      SubstituteArgs.loop args (pre ++ s) fuel
        (SubstituteArgs.State pre "" (String.length pre))
      = Ok (SubstituteArgs.State (pre ++ s) "" j).
Proof.
  induction 1 as [|c s Hc1 Hc2 Hv IH|c s Hv IH|]; intros pre fuel Hf.
  - rewrite append_nil_r. exists (String.length pre).
    destruct fuel; simpl; unfold JS.length; rewrite Nat.ltb_irrefl;
      reflexivity.
  - destruct fuel as [|fuel]; [simpl in Hf; lia|].
    cbn [SubstituteArgs.loop SubstituteArgs.i]. unfold JS.length.
    assert (E : (String.length pre <? String.length (pre ++ String c s)) = true).
    { apply Nat.ltb_lt. rewrite length_append. simpl. lia. }
    rewrite E, subst_step_plain;
      cbn [SubstituteArgs.i SubstituteArgs.text SubstituteArgs.newstring];
      rewrite charAt_append.
    + cbn [bind].
      destruct (IH (pre ++ String c "") fuel) as [j Hj]; [simpl in Hf; lia|].
      rewrite append_assoc in Hj. cbn [append] in Hj.
      rewrite length_append in Hj. cbn [String.length] in Hj.
      rewrite Nat.add_1_r in Hj. exists j. exact Hj.
    + now rewrite one_char_eqb.
    + now rewrite one_char_eqb.
  - destruct fuel as [|fuel]; [simpl in Hf; lia|].
    cbn [SubstituteArgs.loop SubstituteArgs.i]. unfold JS.length.
    assert (E : (String.length pre
                 <? String.length (pre ++ String "\" (String c s))) = true).
    { apply Nat.ltb_lt. rewrite length_append. simpl. lia. }
    rewrite E, step_escape;
      cbn [SubstituteArgs.i SubstituteArgs.text SubstituteArgs.newstring];
      [|apply charAt_append].
    cbn [bind].
    replace (JS.charAt (pre ++ String "\" (String c s)) (S (String.length pre)))
      with (String c "").
    2:{ replace (pre ++ String "\" (String c s))
          with ((pre ++ "\") ++ String c s) by (now rewrite append_assoc).
        replace (S (String.length pre)) with (String.length (pre ++ "\"))
          by (rewrite length_append; simpl; lia).
        now rewrite charAt_append. }
    destruct (IH (pre ++ String "\" (String c "")) fuel) as [j Hj];
      [simpl in Hf; lia|].
    rewrite append_assoc in Hj. cbn [append] in Hj.
    rewrite length_append in Hj. cbn [String.length] in Hj.
    replace (String.length pre + 2) with (S (S (String.length pre))) in Hj
      by lia.
    exists j. exact Hj.
  - destruct fuel as [|fuel]; [simpl in Hf; lia|].
    cbn [SubstituteArgs.loop SubstituteArgs.i]. unfold JS.length.
    assert (E : (String.length pre <? String.length (pre ++ "\")) = true).
    { apply Nat.ltb_lt. rewrite length_append. simpl. lia. }
    rewrite E, step_escape;
      cbn [SubstituteArgs.i SubstituteArgs.text SubstituteArgs.newstring];
      [|apply charAt_append].
    cbn [bind].
    rewrite charAt_end by (rewrite length_append; simpl; lia).
    exists (S (S (String.length pre))).
    assert (E' : (S (S (String.length pre)) <? String.length (pre ++ "\"))
                 = false).
    { apply Nat.ltb_ge. rewrite length_append. simpl. lia. }
    destruct fuel; cbn [SubstituteArgs.loop SubstituteArgs.i];
      unfold JS.length; rewrite E'; reflexivity.
Qed.

(** A body without parameters is returned as it is, if it is not too
    long. *)
Lemma substituteArgs_verbatim args s :
  verbatim s ->
  substituteArgs args s
  = if MAXBUFFER <? JS.length s then Throw MaxBufferSize else Ok s.
Proof.
  intros Hv. unfold substituteArgs.
  destruct (loop_verbatim args s Hv "" (JS.length s) (le_n _)) as [j Hj].
  cbn [append String.length] in Hj. rewrite Hj.
  cbn [bind SubstituteArgs.newstring SubstituteArgs.text].
  unfold addArgs.
  replace (test endsWithMacro "") with false by reflexivity.
  rewrite andb_false_r. reflexivity.
Qed.

(** A body that is one parameter is the argument, if it is not too
    long. *)
Lemma substituteArgs_parameter args x :
  test digit19 (String x "") = true ->
  parseInt10 (String x "") <= List.length args ->
  JS.length (nth (parseInt10 (String x "") - 1) args "") <= MAXBUFFER ->
  substituteArgs args (String "#" (String x ""))
  = Ok (nth (parseInt10 (String x "") - 1) args "").
Proof.
  intros Hd Hn Hl. unfold substituteArgs.
  set (arg := nth (parseInt10 (String x "") - 1) args "") in *.
  assert (Hs : SubstituteArgs.step args (String "#" (String x ""))
                 (SubstituteArgs.State "" "" 0)
               = Ok (SubstituteArgs.State "" arg 2)).
  { rewrite (step_param args _ _ (String x "")); auto.
    cbn [SubstituteArgs.newstring SubstituteArgs.text].
    replace (addArgs "" "") with (@Ok string "") by reflexivity.
    cbn [bind]. fold arg. unfold addArgs.
    replace (test endsWithMacro "") with false by reflexivity.
    rewrite andb_false_r.
    apply Nat.nlt_ge, Nat.ltb_nlt in Hl.
    change (JS.length "") with 0. rewrite Nat.add_0_l, Hl. reflexivity. }
  change (JS.length (String "#" (String x ""))) with 2.
  cbn [SubstituteArgs.loop SubstituteArgs.i JS.length String.length Nat.ltb
       Nat.leb].
  rewrite Hs. cbn [bind SubstituteArgs.i Nat.ltb Nat.leb
                   SubstituteArgs.newstring SubstituteArgs.text].
  unfold addArgs.
  replace (test startsWithLetter "") with false by reflexivity.
  cbn [andb]. change (JS.length "") with 0. rewrite Nat.add_0_r.
  apply Nat.nlt_ge, Nat.ltb_nlt in Hl. rewrite Hl.
  now rewrite append_nil_r.
Qed.

(** ** Math between plain texts *)

Section Islands.
Import InternalMath.
Variable parse : string -> result MmlNode.
Variable def : EnvList.

Lemma plain_char c :
  isSpecial c = false ->
  String c "" <> "$" /\ String c "" <> "{" /\ String c "" <> "}"
  /\ String c "" <> "\".
Proof.
  intros H. repeat split; intros [= ->]; discriminate H.
Qed.

(** The loop goes over plain text without any effect but on [i]. *)
Lemma loop_over_plain p a b j m n l :
  anyOf isSpecial p = false ->
  loop parse def (String.length p)
    (State (a ++ p ++ b) (String.length a) j m n l)
  = Ok (State (a ++ p ++ b) (String.length a + String.length p) j m n l).
Proof.
  revert a. induction p as [|c p IH]; intros a H.
  - cbn [String.length loop]. rewrite Nat.add_0_r.
    destruct (_ <? _); reflexivity.
  - cbn [anyOf] in H. apply orb_false_iff in H. destruct H as [Hc H].
    cbn [String.length loop i text]. unfold JS.length.
    assert (E : (String.length a <? String.length (a ++ String c p ++ b))
                = true).
    { apply Nat.ltb_lt. rewrite length_append. simpl. lia. }
    rewrite E. destruct (plain_char c Hc) as (H1 & H2 & H3 & H4).
    rewrite scan_step_plain; cbn [i text k match_ braces mml];
      cbn [append]; rewrite ?charAt_append; auto.
    cbn [bind].
    specialize (IH (a ++ String c "") H).
    rewrite append_assoc, length_append in IH. cbn [append String.length] in IH.
    rewrite Nat.add_1_r in IH. rewrite IH. f_equal. f_equal. lia.
Qed.

Lemma loop_over t p a b ia j m n l :
  t = a ++ p ++ b -> ia = String.length a ->
  anyOf isSpecial p = false ->
  loop parse def (String.length p) (State t ia j m n l)
  = Ok (State t (ia + String.length p) j m n l).
Proof. intros -> -> H. now apply loop_over_plain. Qed.

(** One turn, at an index before the end of the text. *)
Lemma loop_one st :
  i st < JS.length (text st) ->
  loop parse def 1 st = step parse def st.
Proof.
  intros H. cbn [loop]. apply Nat.ltb_lt in H. rewrite H. clear H.
  destruct (step parse def st) as [st'|e]; [|reflexivity].
  cbn [bind loop]. destruct (i st' <? JS.length (text st')); reflexivity.
Qed.

(** No turn at the end of the text. *)
Lemma loop_done t ia j m n l fuel :
  JS.length t <= ia ->
  loop parse def fuel (State t ia j m n l) = Ok (State t ia j m n l).
Proof.
  intros H. apply Nat.ltb_ge in H.
  destruct fuel; cbn [loop i text]; rewrite H; reflexivity.
Qed.

(** A dollar in text opens dollar math, after the text before it, if any,
    is pushed. *)
Lemma step_dollar_open st :
  JS.charAt (text st) (i st) = "$" -> match_ st = "" ->
  step parse def st
  = Ok (State (text st) (S (i st)) (S (i st)) "$" (braces st)
              (pushText def st (i st))).
Proof.
  intros Hc Hm. unfold step. rewrite Hc, Hm. cbn.
  now rewrite Nat.sub_0_r.
Qed.

(** Dollar math between plain texts: the text before it, if any, the
    TeXAtom of what the parser makes of the math, the text after it, if
    any. *)
Lemma segments_dollar pre body post :
  anyOf isSpecial pre = false -> anyOf isSpecial body = false ->
  anyOf isSpecial post = false ->
  segments parse def (pre ++ "$" ++ body ++ "$" ++ post)
  = (tree <- parse body ;;
     Ok ((if (pre =? "")%string then [] else [internalText pre def])
         ++ createNode "TeXAtom" [tree] [] None
            :: (if (post =? "")%string then []
                else [internalText post def]))%list).
Proof.
  intros Hpre Hbody Hpost.
  set (t := pre ++ "$" ++ body ++ "$" ++ post).
  assert (L : JS.length t
              = String.length pre
                + (1 + (String.length body + (1 + String.length post)))).
  { unfold JS.length. subst t. rewrite !length_append. reflexivity. }
  assert (T1 : t = "" ++ pre ++ "$" ++ body ++ "$" ++ post) by reflexivity.
  assert (T2 : t = (pre ++ "$") ++ body ++ "$" ++ post).
  { subst t. now rewrite !append_assoc. }
  assert (T3 : t = (pre ++ "$" ++ body ++ "$") ++ post ++ "").
  { subst t. now rewrite !append_assoc, append_nil_r. }
  assert (C1 : JS.charAt t (String.length pre) = "$").
  { subst t. apply charAt_append. }
  assert (C2 : JS.charAt t (S (String.length pre) + String.length body) = "$").
  { replace (S (String.length pre) + String.length body)
      with (String.length (pre ++ "$" ++ body))
      by (rewrite !length_append; simpl; lia).
    replace t with ((pre ++ "$" ++ body) ++ "$" ++ post)
      by (subst t; now rewrite !append_assoc).
    apply charAt_append. }
  unfold segments, scanText.
  assert (Tr : test trigger t = true).
  { rewrite test_trigger. subst t. rewrite anyOf_append. cbn [append anyOf].
    replace (isSpecial "$") with true by reflexivity.
    now rewrite orb_true_r. }
  rewrite Tr, L.
  (* the text before the math *)
  rewrite scan_loop_app.
  rewrite (loop_over t pre "" ("$" ++ body ++ "$" ++ post)) by auto.
  cbn [bind String.length]. rewrite Nat.add_0_l.
  (* the opening dollar *)
  rewrite scan_loop_app, loop_one
    by (cbn [i text]; rewrite L; lia).
  rewrite step_dollar_open by (cbn [i text match_]; auto).
  cbn [bind i text k match_ braces mml]. unfold pushText. cbn [k text mml].
  (* the math *)
  rewrite scan_loop_app.
  rewrite (loop_over t body (pre ++ "$") ("$" ++ post))
    by (auto; rewrite length_append; simpl; lia).
  cbn [bind].
  (* the closing dollar *)
  rewrite scan_loop_app, loop_one
    by (cbn [i text]; rewrite L; lia).
  rewrite step_dollar_close by (cbn [i text match_ braces]; auto).
  cbn [i text k match_ braces mml].
  replace (JS.slice2 t (S (String.length pre))
             (S (String.length pre) + String.length body)) with body.
  2:{ unfold JS.slice2.
      replace (S (String.length pre) + String.length body
               - S (String.length pre)) with (String.length body) by lia.
      replace (S (String.length pre)) with (String.length (pre ++ "$"))
        by (rewrite length_append; simpl; lia).
      rewrite T2. now rewrite substring_mid. }
  destruct (parse body) as [tree|e]; [|reflexivity]. cbn [bind].
  (* the text after the math *)
  rewrite (loop_over t post (pre ++ "$" ++ body ++ "$") "")
    by (auto; rewrite !length_append; simpl; lia).
  cbn [bind match_ String.eqb negb k text mml].
  (* what was pushed *)
  replace (JS.slice2 t 0 (String.length pre)) with pre.
  2:{ unfold JS.slice2. rewrite Nat.sub_0_r. subst t.
      now rewrite substring_take. }
  replace (JS.slice t (S (S (String.length pre) + String.length body)))
    with post.
  2:{ unfold JS.slice. fold (JS.length t). rewrite L.
      replace (String.length pre
               + (1 + (String.length body + (1 + String.length post)))
               - S (S (String.length pre) + String.length body))
        with (String.length post) by lia.
      replace (S (S (String.length pre) + String.length body))
        with (String.length (pre ++ "$" ++ body ++ "$"))
        by (rewrite !length_append; simpl; lia).
      rewrite T3. now rewrite substring_mid. }
  rewrite L. f_equal.
  destruct pre as [|c pre], post as [|d post]; cbn [String.length String.eqb];
    unfold push; cbn [app].
  - replace (S (S (0 + String.length body)) <? _) with false
      by (symmetry; apply Nat.ltb_ge; lia). reflexivity.
  - replace (S (S (0 + String.length body)) <? _) with true
      by (symmetry; apply Nat.ltb_lt; lia). reflexivity.
  - replace (S (S (S (String.length pre)) + String.length body) <? _)
      with false by (symmetry; apply Nat.ltb_ge; lia).
    reflexivity.
  - replace (S (S (S (String.length pre)) + String.length body) <? _)
      with true by (symmetry; apply Nat.ltb_lt; lia).
    reflexivity.
Qed.

(** A literal escape between plain texts: one text, without the
    backslash. *)
Lemma segments_escape pre c post :
  anyOf isSpecial pre = false -> isSpecial c = true ->
  anyOf isSpecial post = false ->
  segments parse def (pre ++ String "\" (String c post))
  = Ok [internalText (pre ++ String c post) def].
Proof.
  intros Hpre Hc Hpost.
  set (t := pre ++ String "\" (String c post)).
  set (t' := pre ++ String c post).
  assert (L : JS.length t
              = String.length pre + (1 + (String.length post + 1))).
  { unfold JS.length. subst t. rewrite !length_append. simpl. lia. }
  assert (L' : JS.length t' = String.length pre + S (String.length post)).
  { unfold JS.length. subst t'. rewrite !length_append. reflexivity. }
  assert (C1 : JS.charAt t (String.length pre) = "\").
  { subst t. apply charAt_append. }
  assert (C2 : JS.charAt t (S (String.length pre)) = String c "").
  { replace (S (String.length pre)) with (String.length (pre ++ "\"))
      by (rewrite length_append; simpl; lia).
    replace t with ((pre ++ "\") ++ String c post)
      by (subst t; now rewrite append_assoc).
    apply charAt_append. }
  assert (R : JS.substr2 t 0 (String.length pre)
              ++ JS.substr t (S (String.length pre)) = t').
  { unfold JS.substr2, JS.substr. fold (JS.length t). rewrite L.
    replace (String.length pre + (1 + (String.length post + 1))
             - S (String.length pre))
      with (String.length (String c post)) by (simpl; lia).
    replace (S (String.length pre)) with (String.length (pre ++ "\"))
      by (rewrite length_append; simpl; lia).
    subst t t'. rewrite substring_take. f_equal.
    replace (pre ++ String "\" (String c post))
      with ((pre ++ "\") ++ String c post ++ "")
      by (now rewrite append_assoc, append_nil_r).
    apply substring_mid. }
  unfold segments, scanText.
  assert (Tr : test trigger t = true).
  { rewrite test_trigger. subst t. rewrite anyOf_append. cbn [anyOf].
    replace (isSpecial "\") with true by reflexivity.
    now rewrite orb_true_r. }
  rewrite Tr, L.
  rewrite scan_loop_app.
  rewrite (loop_over t pre "" (String "\" (String c post))) by auto.
  cbn [bind String.length]. rewrite Nat.add_0_l.
  rewrite scan_loop_app, loop_one by (cbn [i text]; rewrite L; lia).
  rewrite (step_literal_escape parse def _ c)
    by (cbn [i text match_]; auto).
  cbn [bind i text k match_ braces mml]. rewrite R.
  rewrite scan_loop_app.
  rewrite (loop_over t' post (pre ++ String c "") "").
  - cbn [bind]. rewrite loop_done by (rewrite L'; lia).
    cbn [bind match_ String.eqb negb k text mml].
    rewrite slice_0, L'.
    replace (0 <? String.length pre + S (String.length post)) with true
      by (symmetry; apply Nat.ltb_lt; lia).
    reflexivity.
  - subst t'. now rewrite append_assoc, append_nil_r.
  - rewrite length_append. simpl. lia.
  - exact Hpost.
Qed.

End Islands.

(** ** White space at the ends of a string *)

(** Every string is white space, a core that neither starts nor ends
    with white space, and white space again. *)
Lemma split_trailing s :
  exists core ws2,
    s = core ++ ws2 /\ endsWith JS.isSpace core = false
    /\ allOf JS.isSpace ws2 = true.
Proof.
  induction s as [|c s (core & ws2 & E & Hc & Hw)].
  - exists "", "". auto.
  - destruct core as [|d core].
    + destruct (JS.isSpace c) eqn:Hs.
      * exists "", (String c ws2). simpl in *. rewrite Hs, Hw, E. auto.
      * exists (String c ""), ws2. simpl in *. rewrite Hs, E. auto.
    + exists (String c (String d core)), ws2. rewrite E. auto.
Qed.

Lemma split_leading s :
  exists ws1 r,
    s = ws1 ++ r /\ allOf JS.isSpace ws1 = true
    /\ startsWith JS.isSpace r = false.
Proof.
  induction s as [|c s (ws1 & r & E & Hw & Hr)].
  - exists "", "". auto.
  - destruct (JS.isSpace c) eqn:Hs.
    + exists (String c ws1), r. simpl. rewrite Hs, Hw, E. auto.
    + exists "", (String c s). simpl. auto.
Qed.

Lemma split_outer s :
  exists ws1 core ws2,
    s = ws1 ++ core ++ ws2
    /\ allOf JS.isSpace ws1 = true /\ allOf JS.isSpace ws2 = true
    /\ startsWith JS.isSpace core = false
    /\ endsWith JS.isSpace core = false.
Proof.
  destruct (split_leading s) as (ws1 & r & -> & H1 & Hr).
  destruct (split_trailing r) as (core & ws2 & -> & Hc & H2).
  destruct core as [|c core].
  - (* white space only: all of it goes before the empty core *)
    exists (ws1 ++ ws2), "", "". rewrite allOf_append, H1, H2.
    now rewrite !append_nil_r.
  - exists ws1, (String c core), ws2. auto.
Qed.

Lemma endsWith_cons p c s :
  endsWith p (String c s) = false -> endsWith p s = false.
Proof. destruct s; [reflexivity | auto]. Qed.

Lemma endsWith_after p a s :
  s <> "" -> endsWith p (a ++ s) = endsWith p s.
Proof.
  intros H. destruct s as [|c s]; [now elim H|]. apply endsWith_append.
Qed.

Lemma startsWith_append p s b :
  s <> "" -> startsWith p (s ++ b) = startsWith p s.
Proof. intros H. destruct s; [now elim H | reflexivity]. Qed.

(** White space that is followed by another character is not white space
    at the end. *)
Lemma trailingSpace_fails n s c b cs :
  JS.isSpace c = false ->
  m trailingSpace Some (MState n (s ++ String c b) cs) = None.
Proof.
  intros Hc.
  destruct (span_class JS.isSpace s c b Hc) as (ds & x & b' & -> & Hds & Hx).
  unfold trailingSpace, Plus, ws. rewrite !m_Seq.
  destruct ds as [|d ds]; cbn [append].
  - now rewrite m_Char_cons, Hx.
  - simpl in Hds. apply andb_prop in Hds. destruct Hds as [Hd Hds].
    rewrite m_Char_cons, Hd, m_Star. cbn [rest].
    apply star_class_none; auto.
    intros st Hst. cbn [m]. destruct (rest st); [now elim Hst | reflexivity].
Qed.

(** White space up to the end. *)
Lemma trailingSpace_at n d ds cs :
  JS.isSpace d = true -> allOf JS.isSpace ds = true ->
  m trailingSpace Some (MState n (String d ds) cs)
  = Some (MState (n + S (String.length ds)) "" cs).
Proof.
  intros Hd Hds. unfold trailingSpace, ws. rewrite m_Seq.
  rewrite <- (append_nil_r (String d ds)).
  apply m_plus_class; auto.
Qed.

(** The white space at the end is found after a core that does not end
    with white space. *)
Lemma exec_from_trailingSpace_some core ws2 n :
  endsWith JS.isSpace core = false ->
  allOf JS.isSpace ws2 = true -> ws2 <> "" ->
  exec_from trailingSpace n (core ++ ws2)
  = Some (MatchResult (n + String.length core)
            (n + String.length core + String.length ws2) []).
Proof.
  intros Hc Hw Hne. revert n. induction core as [|c core IH]; intros n.
  - destruct ws2 as [|d ds]; [now elim Hne|].
    simpl in Hw. apply andb_prop in Hw. destruct Hw as [Hd Hds].
    cbn [append exec_from]. rewrite trailingSpace_at by assumption.
    cbn [pos caps String.length]. f_equal. f_equal; lia.
  - cbn [append exec_from].
    replace (m trailingSpace Some (MState n (String c (core ++ ws2)) []))
      with (@None mstate).
    + rewrite IH by (eapply endsWith_cons; eauto).
      cbn [String.length]. f_equal. f_equal; lia.
    + symmetry.
      destruct (endsWith_inv _ _ Hc) as [E|(pre & x & E & Hx)];
        [discriminate|].
      change (String c (core ++ ws2)) with (String c core ++ ws2).
      rewrite E, append_assoc. cbn [append].
      now apply trailingSpace_fails.
Qed.

(** The white space at the start. *)
Lemma exec_leadingSpace_some ws1 b :
  allOf JS.isSpace ws1 = true -> ws1 <> "" ->
  startsWith JS.isSpace b = false ->
  exec leadingSpace (ws1 ++ b)
  = Some (MatchResult 0 (String.length ws1) []).
Proof.
  intros Hw Hne Hb. destruct ws1 as [|d ds]; [now elim Hne|].
  simpl in Hw. apply andb_prop in Hw. destruct Hw as [Hd Hds].
  unfold leadingSpace. rewrite exec_Bol. unfold ws.
  rewrite (m_plus_class JS.isSpace Some
             (MState (0 + S (String.length ds)) b []) d ds b 0 [])
    by auto.
  reflexivity.
Qed.

Lemma replace_leadingSpace by_ ws1 b :
  allOf JS.isSpace ws1 = true -> startsWith JS.isSpace b = false ->
  replace leadingSpace by_ (ws1 ++ b)
  = (if JS.truthy ws1 then by_ else "") ++ b.
Proof.
  intros Hw Hb. unfold replace. destruct ws1 as [|d ds].
  - cbn [append]. now rewrite exec_leadingSpace.
  - set (w := String d ds) in *.
    rewrite exec_leadingSpace_some by (auto; discriminate).
    cbn [m_start m_end]. rewrite substring_0_0.
    replace (JS.truthy w) with true by reflexivity.
    cbn [append]. f_equal.
    rewrite substring_skip, length_append.
    replace (String.length w + String.length b - String.length w)
      with (String.length b) by lia.
    apply substring_all.
Qed.

Lemma replace_trailingSpace by_ core ws2 :
  endsWith JS.isSpace core = false -> allOf JS.isSpace ws2 = true ->
  replace trailingSpace by_ (core ++ ws2)
  = core ++ (if JS.truthy ws2 then by_ else "").
Proof.
  intros Hc Hw. unfold replace, exec. destruct ws2 as [|d ds].
  - change (if JS.truthy "" then by_ else "") with "".
    rewrite !append_nil_r. fold (exec trailingSpace core).
    now rewrite exec_trailingSpace.
  - set (w := String d ds) in *.
    rewrite exec_from_trailingSpace_some by (auto; discriminate).
    cbn [m_start m_end]. rewrite !Nat.add_0_l.
    replace (JS.truthy w) with true by reflexivity.
    rewrite substring_take. f_equal.
    rewrite length_append, Nat.sub_diag.
    replace (String.length core + String.length w)
      with (String.length (core ++ w)) by apply length_append.
    rewrite substring_end. apply append_nil_r.
Qed.

(** What [internalText] makes of a text: the white space at each end
    becomes one non-breaking space, what is between stays; white space
    only becomes one non-breaking space. *)
Lemma internalText_outer ws1 core ws2 def :
  allOf JS.isSpace ws1 = true -> allOf JS.isSpace ws2 = true ->
  startsWith JS.isSpace core = false -> endsWith JS.isSpace core = false ->
  internalText (ws1 ++ core ++ ws2) def
  = createNode "mtext" [] def
      (Some (createText
               (if (core =? "")%string then nbspIf (ws1 ++ ws2)
                else nbspIf ws1 ++ core ++ nbspIf ws2))).
Proof.
  intros H1 H2 Hs He. unfold internalText. do 3 f_equal.
  destruct core as [|c core]; cbn [String.eqb].
  - cbn [append]. set (w := ws1 ++ ws2).
    assert (Hw : allOf JS.isSpace w = true)
      by (subst w; now rewrite allOf_append, H1, H2).
    rewrite <- (append_nil_r w) at 1.
    rewrite replace_leadingSpace by auto. rewrite append_nil_r.
    unfold nbspIf. destruct (JS.truthy w); [|reflexivity].
    change NBSP with ("" ++ NBSP).
    now rewrite replace_trailingSpace.
  - set (k := String c core) in *.
    rewrite replace_leadingSpace
      by (auto; rewrite startsWith_append; auto; discriminate).
    fold (nbspIf ws1). rewrite <- append_assoc.
    rewrite replace_trailingSpace
      by (auto; rewrite endsWith_after; auto; discriminate).
    fold (nbspIf ws2). apply append_assoc.
Qed.

(** ** The claims about the scanner *)

(** C1. Scanning [a $b$ c] without a level gives three segments in order,
    the text [a ], the TeXAtom of the parse of [b] and the text [ c]
    (each text with its outer white space turned into one NBSP), wrapped
    in one mrow as there are several; the error of the parser, if any, is
    passed on. In general a dollar met in dollar math outside braces
    closes the math: the text since the opening dollar goes to the parser,
    its tree is pushed as a TeXAtom and the loop is back in text. So for
    any math between dollars and between texts, all of them without
    dollars, braces and backslashes, the segments are the text before, if
    any, the TeXAtom of the parse of the math, and the text after, if
    any. *)
Theorem C1_dollar_math_island :
  (forall parse def,
     segments parse def "a $b$ c"
     = (tree <- parse "b" ;;
        Ok [ internalText "a " def;
             createNode "TeXAtom" [tree] [] None;
             internalText " c" def ]))
  /\ (forall def,
        internalText "a " def
        = createNode "mtext" [] def (Some (createText ("a" ++ NBSP)))
        /\ internalText " c" def
           = createNode "mtext" [] def (Some (createText (NBSP ++ "c"))))
  /\ (forall parse font,
        internalMath parse font "a $b$ c" None
        = (tree <- parse "b" ;;
           Ok [ createNode "mrow"
                  [ internalText "a " (fontDef font);
                    createNode "TeXAtom" [tree] [] None;
                    internalText " c" (fontDef font) ] [] None ]))
  /\ (forall parse def st,
        JS.charAt (InternalMath.text st) (InternalMath.i st) = "$" ->
        InternalMath.match_ st = "$" ->
        InternalMath.braces st = 0 ->
        InternalMath.step parse def st
        = (tree <- parse (JS.slice2 (InternalMath.text st) (InternalMath.k st)
                                    (InternalMath.i st)) ;;
           Ok (InternalMath.State (InternalMath.text st)
                 (S (InternalMath.i st)) (S (InternalMath.i st)) "" 0
                 (push (InternalMath.mml st)
                       (createNode "TeXAtom" [tree] [] None)))))
  /\ (forall parse def pre body post,
        anyOf isSpecial pre = false -> anyOf isSpecial body = false ->
        anyOf isSpecial post = false ->
        segments parse def (pre ++ "$" ++ body ++ "$" ++ post)
        = (tree <- parse body ;;
           Ok ((if (pre =? "")%string then [] else [internalText pre def])
               ++ createNode "TeXAtom" [tree] [] None
                  :: (if (post =? "")%string then []
                      else [internalText post def]))%list)).
Proof.
  split; [|split; [|split; [|split]]].
  - apply segments_interspersed.
  - intros def. split; reflexivity.
  - intros parse font. unfold internalMath.
    rewrite segments_interspersed.
    destruct (parse "b") as [tree|e]; reflexivity.
  - intros parse def st. apply step_dollar_close.
  - intros. now apply segments_dollar.
Qed.

Lemma C1_dollar_math_island_witness :
  JS.charAt "a $b$ c" 4 = "$"
  /\ InternalMath.step (fun s => Ok (createText s)) []
       (InternalMath.State "a $b$ c" 4 3 "$" 0 [internalText "a " []])
     = Ok (InternalMath.State "a $b$ c" 5 5 "" 0
             [internalText "a " [];
              createNode "TeXAtom" [createText "b"] [] None]).
Proof.
  split; [reflexivity|].
  exact (proj1 (proj2 (proj2 (proj2 C1_dollar_math_island)))
           (fun s => Ok (createText s)) []
           (InternalMath.State "a $b$ c" 4 3 "$" 0 [internalText "a " []])
           eq_refl eq_refl eq_refl).
Defined.

(** C2. When the loop comes to the end of the text while a closing
    delimiter is awaited, [internalMath] throws MathNotTerminated and
    returns nothing: the nodes pushed so far are lost with the state of
    the loop. So for [a $b], where the text [a ] was pushed before the
    end was met, and so for math opened by a backslash and a parenthesis
    or by [\ref] and a brace. The loop does come to the end of the text
    with the turns it is given. *)
Theorem C2_math_not_terminated :
  (forall parse font text level st,
     InternalMath.loop parse (fontDef font) (JS.length text)
       (InternalMath.State text 0 0 "" 0 []) = Ok st ->
     InternalMath.match_ st <> "" ->
     JS.length (InternalMath.text st) <= InternalMath.i st
     /\ internalMath parse font text level = Throw MathNotTerminated)
  /\ (forall parse font level,
        internalMath parse font "a $b" level = Throw MathNotTerminated
        /\ internalMath parse font "a \(b" level = Throw MathNotTerminated
        /\ internalMath parse font "a \ref{b" level
           = Throw MathNotTerminated)
  /\ (forall parse def,
        InternalMath.loop parse def (JS.length "a $b")
          (InternalMath.State "a $b" 0 0 "" 0 [])
        = Ok (InternalMath.State "a $b" 4 3 "$" 0 [internalText "a " def])).
Proof.
  split; [|split].
  - intros parse font text level st Hl Hm. split.
    + eapply scan_loop_exits; [|exact Hl]. simpl. lia.
    + eapply unterminated; eauto.
  - intros parse font level. unfold internalMath. generalize (fontDef font).
    intros def. repeat split.
  - intros parse def. reflexivity.
Qed.

Lemma C2_math_not_terminated_witness :
  InternalMath.loop (fun s => Ok (createText s)) (fontDef None)
    (JS.length "\(x") (InternalMath.State "\(x" 0 0 "" 0 [])
  = Ok (InternalMath.State "\(x" 3 2 ")" 0 [])
  /\ (")" =? "")%string = false
  /\ JS.length "\(x" <= 3
  /\ internalMath (fun s => Ok (createText s)) None "\(x" (Some (ANumber 0))
     = Throw MathNotTerminated.
Proof.
  split; [reflexivity|]. split; [reflexivity|].
  apply (proj1 C2_math_not_terminated (fun s => Ok (createText s)) None
           "\(x" (Some (ANumber 0)) (InternalMath.State "\(x" 3 2 ")" 0 []));
    [reflexivity | discriminate].
Defined.

(** C3. In text, a backslash before a dollar, a brace or a backslash is a
    literal escape: the turn of the loop removes the backslash from the
    text, leaves the character in its place, goes on after it, and
    changes neither the delimiter awaited (none) nor anything else. So
    a text with one such escape and no other dollar, brace or backslash
    is one text segment, without the backslash, and no math: [a \$ b]
    gives [a $ b]. *)
Theorem C3_literal_escape :
  (forall parse def st c,
     InternalMath.match_ st = "" ->
     JS.charAt (InternalMath.text st) (InternalMath.i st) = "\" ->
     JS.charAt (InternalMath.text st) (S (InternalMath.i st)) = String c "" ->
     isSpecial c = true ->
     let text' :=
       JS.substr2 (InternalMath.text st) 0 (InternalMath.i st)
       ++ JS.substr (InternalMath.text st) (S (InternalMath.i st)) in
     InternalMath.step parse def st
     = Ok (InternalMath.State text' (S (InternalMath.i st))
             (InternalMath.k st) "" (InternalMath.braces st)
             (InternalMath.mml st))
     /\ JS.charAt text' (InternalMath.i st) = String c ""
     /\ JS.length text' = JS.length (InternalMath.text st) - 1)
  /\ (forall parse def pre c post,
        anyOf isSpecial pre = false -> isSpecial c = true ->
        anyOf isSpecial post = false ->
        segments parse def (pre ++ String "\" (String c post))
        = Ok [internalText (pre ++ String c post) def])
  /\ (forall parse def,
        segments parse def "a \$ b"
        = Ok [createNode "mtext" [] def (Some (createText "a $ b"))])
  /\ (forall parse font,
        internalMath parse font "a \$ b" None
        = Ok [createNode "mtext" [] (fontDef font)
                (Some (createText "a $ b"))]).
Proof.
  split; [|split; [|split]].
  - intros parse def st c Hm Hc Hc' Hs text'.
    pose proof (charAt_lt _ _ _ Hc) as Hlt.
    split; [apply (step_literal_escape parse def st c); assumption|]. split.
    + subst text'. rewrite charAt_removed by exact Hlt. exact Hc'.
    + apply length_removed. exact Hlt.
  - intros. now apply segments_escape.
  - intros parse def. reflexivity.
  - intros parse font. unfold internalMath. generalize (fontDef font).
    intros def. reflexivity.
Qed.

Lemma C3_literal_escape_witness :
  JS.charAt "a \} b" 2 = "\"
  /\ JS.charAt "a \} b" 3 = "}"
  /\ isSpecial "}" = true
  /\ InternalMath.step (fun s => Ok (createText s)) []
       (InternalMath.State "a \} b" 2 0 "" 0 [])
     = Ok (InternalMath.State "a } b" 3 0 "" 0 []).
Proof.
  split; [reflexivity|]. split; [reflexivity|]. split; [reflexivity|].
  exact (proj1 (proj1 C3_literal_escape (fun s => Ok (createText s)) []
                  (InternalMath.State "a \} b" 2 0 "" 0 []) "}"%char
                  eq_refl eq_refl eq_refl eq_refl)).
Defined.

(** C4, as it was claimed, at the empty string, which has none of the
    characters and gives no segment, and at a text that starts with a
    space, which has none of them either and whose one text node starts
    with a non-breaking space. *)
Lemma C4_counterexample :
  anyOf isSpecial "" = false
  /\ internalMath (fun s => Ok (createText s)) None "" None = Ok []
  /\ oneTextSegment (internalMath (fun s => Ok (createText s)) None "" None) ""
     = false
  /\ anyOf isSpecial " a" = false
  /\ internalMath (fun s => Ok (createText s)) None " a" None
     = Ok [createNode "mtext" [] [] (Some (createText (NBSP ++ "a")))]
  /\ oneTextSegment
       (internalMath (fun s => Ok (createText s)) None " a" None) " a"
     = false.
Proof. repeat split. Qed.

(** C4. A text without a dollar, a brace or a backslash (and so without
    a backslash and a parenthesis, [\ref] or [\eqref]) is not scanned. If
    it is empty there is no segment. If it is not there is one, the text
    node that [internalText] makes of the whole text: its content is the
    text with the white space at its start, if any, replaced by one
    non-breaking space, and the white space at its end, if any, replaced
    by one non-breaking space; a text that is white space only gives one
    non-breaking space. So the content is the text itself when the text
    neither starts nor ends with white space, and also for a text such
    as a non-breaking space and a letter. With a level the result is
    wrapped in an mstyle. *)
Theorem C4_plain_text :
  (forall parse font text,
     anyOf isSpecial text = false ->
     segments parse (fontDef font) text
     = Ok (if (text =? "")%string then []
           else [internalText text (fontDef font)])
     /\ internalMath parse font text None
        = Ok (if (text =? "")%string then []
              else [internalText text (fontDef font)])
     /\ forall level,
          internalMath parse font text (Some level)
          = Ok [createNode "mstyle"
                  (if (text =? "")%string then []
                   else [internalText text (fontDef font)])
                  [("displaystyle", ABool false); ("scriptlevel", level)]
                  None])
  /\ (forall ws1 core ws2 def,
        allOf JS.isSpace ws1 = true -> allOf JS.isSpace ws2 = true ->
        startsWith JS.isSpace core = false ->
        endsWith JS.isSpace core = false ->
        internalText (ws1 ++ core ++ ws2) def
        = createNode "mtext" [] def
            (Some (createText
                     (if (core =? "")%string then nbspIf (ws1 ++ ws2)
                      else nbspIf ws1 ++ core ++ nbspIf ws2))))
  /\ (forall parse font ws1 core ws2,
        allOf JS.isSpace ws1 = true -> allOf JS.isSpace ws2 = true ->
        startsWith JS.isSpace core = false ->
        endsWith JS.isSpace core = false ->
        anyOf isSpecial (ws1 ++ core ++ ws2) = false ->
        ws1 ++ core ++ ws2 <> "" ->
        oneTextSegment
          (internalMath parse font (ws1 ++ core ++ ws2) None)
          (if (core =? "")%string then nbspIf (ws1 ++ ws2)
           else nbspIf ws1 ++ core ++ nbspIf ws2)
        = true)
  /\ (forall parse font text,
        anyOf isSpecial text = false -> text <> "" ->
        exists ws1 core ws2,
          text = ws1 ++ core ++ ws2
          /\ allOf JS.isSpace ws1 = true /\ allOf JS.isSpace ws2 = true
          /\ startsWith JS.isSpace core = false
          /\ endsWith JS.isSpace core = false
          /\ internalMath parse font text None
             = Ok [createNode "mtext" [] (fontDef font)
                     (Some (createText
                              (if (core =? "")%string then nbspIf (ws1 ++ ws2)
                               else nbspIf ws1 ++ core ++ nbspIf ws2)))])
  /\ (forall text def,
        startsWith JS.isSpace text = false ->
        endsWith JS.isSpace text = false ->
        internalText text def
        = createNode "mtext" [] def (Some (createText text)))
  /\ (forall parse font text,
        anyOf isSpecial text = false -> text <> "" ->
        startsWith JS.isSpace text = false ->
        endsWith JS.isSpace text = false ->
        oneTextSegment (internalMath parse font text None) text = true)
  /\ (forall text, test trigger text = anyOf isSpecial text)
  /\ (forall def,
        internalText "  a b  " def
        = createNode "mtext" [] def
            (Some (createText (NBSP ++ "a b" ++ NBSP)))
        /\ internalText (NBSP ++ "a") def
           = createNode "mtext" [] def (Some (createText (NBSP ++ "a")))
        /\ internalText (" " ++ NBSP) def
           = createNode "mtext" [] def (Some (createText NBSP))).
Proof.
  assert (G : forall parse font text,
    anyOf isSpecial text = false ->
    internalMath parse font text None
    = Ok (if (text =? "")%string then []
          else [internalText text (fontDef font)])).
  { intros parse font text H. unfold internalMath.
    rewrite segments_plain by exact H.
    destruct (text =? "")%string; reflexivity. }
  split; [|split; [|split; [|split; [|split; [|split; [|split]]]]]].
  - intros parse font text H. split; [now apply segments_plain|].
    split; [now apply G|].
    intros level. unfold internalMath. rewrite segments_plain by exact H.
    reflexivity.
  - apply internalText_outer.
  - intros parse font ws1 core ws2 H1 H2 Hs He H Hne. rewrite G by exact H.
    apply String.eqb_neq in Hne. rewrite Hne.
    rewrite internalText_outer by assumption.
    cbn [oneTextSegment String.eqb Ascii.eqb Bool.eqb andb].
    apply String.eqb_refl.
  - intros parse font text H Hne.
    destruct (split_outer text) as (ws1 & core & ws2 & E & H1 & H2 & Hs & He).
    exists ws1, core, ws2. repeat (split; [assumption|]).
    rewrite G by exact H. apply String.eqb_neq in Hne. rewrite Hne.
    rewrite E at 1. now rewrite internalText_outer by assumption.
  - apply internalText_trimmed.
  - intros parse font text H Hne H1 H2. rewrite G by exact H.
    apply String.eqb_neq in Hne. rewrite Hne.
    rewrite internalText_trimmed by assumption.
    cbn. apply String.eqb_refl.
  - apply test_trigger.
  - intros def. repeat split.
Qed.

Lemma C4_plain_text_witness :
  anyOf isSpecial "plain text" = false
  /\ internalMath (fun s => Ok (createText s)) (Some "bold") "plain text" None
     = Ok [createNode "mtext" [] [("mathvariant", AString "bold")]
             (Some (createText "plain text"))]
  /\ anyOf isSpecial "  a b " = false
  /\ oneTextSegment
       (internalMath (fun s => Ok (createText s)) None "  a b " None)
       (NBSP ++ "a b" ++ NBSP)
     = true.
Proof.
  split; [reflexivity|]. split.
  - exact (proj1 (proj2 (proj1 C4_plain_text (fun s => Ok (createText s))
                           (Some "bold") "plain text" eq_refl))).
  - split; [reflexivity|].
    refine (proj1 (proj2 (proj2 C4_plain_text)) (fun s => Ok (createText s))
              None "  " "a b" " " eq_refl eq_refl eq_refl eq_refl eq_refl _).
    discriminate.
Defined.

(** ** The claims about macro parameters *)

(** C5. [substituteArgs] reads the body from left to right. A backslash
    and the character after it are copied as they are, so that a
    parameter after a backslash is not replaced; [#d], for a digit [d]
    from 1 to 9 that is at most the number of arguments, adds the [d]-th
    argument (counted from 1) after the text read so far, both through
    [addArgs]; [##] gives one [#]. [addArgs] joins its two strings, with a
    space between them where a control word would run into a letter.
    So a body that is one parameter gives the argument, a body without
    parameters (where every [#] comes after a backslash) is returned as
    it is, and the body [#1-#2-##] with the arguments [X] and [Y] gives
    [X-Y-#]. *)
Theorem C5_substituteArgs :
  (forall args str st,
     JS.charAt str (SubstituteArgs.i st) = "\" ->
     SubstituteArgs.step args str st
     = Ok (SubstituteArgs.State
             (SubstituteArgs.text st
              ++ "\" ++ JS.charAt str (S (SubstituteArgs.i st)))
             (SubstituteArgs.newstring st)
             (S (S (SubstituteArgs.i st)))))
  /\ (forall args str st c,
        JS.charAt str (SubstituteArgs.i st) = "#" ->
        JS.charAt str (S (SubstituteArgs.i st)) = c ->
        test digit19 c = true ->
        parseInt10 c <= List.length args ->
        SubstituteArgs.step args str st
        = (s <- addArgs (SubstituteArgs.newstring st)
                        (SubstituteArgs.text st) ;;
           s' <- addArgs s (nth (parseInt10 c - 1) args "") ;;
           Ok (SubstituteArgs.State "" s' (S (S (SubstituteArgs.i st))))))
  /\ (forall args str st,
        JS.charAt str (SubstituteArgs.i st) = "#" ->
        JS.charAt str (S (SubstituteArgs.i st)) = "#" ->
        SubstituteArgs.step args str st
        = Ok (SubstituteArgs.State (SubstituteArgs.text st ++ "#")
                (SubstituteArgs.newstring st)
                (S (S (SubstituteArgs.i st)))))
  /\ (forall s1 s2,
        addArgs s1 s2 = Ok (s1 ++ s2)
        \/ addArgs s1 s2 = Ok ((s1 ++ " ") ++ s2)
        \/ addArgs s1 s2 = Throw MaxBufferSize)
  /\ (forall args x,
        test digit19 (String x "") = true ->
        parseInt10 (String x "") <= List.length args ->
        JS.length (nth (parseInt10 (String x "") - 1) args "") <= MAXBUFFER ->
        substituteArgs args (String "#" (String x ""))
        = Ok (nth (parseInt10 (String x "") - 1) args ""))
  /\ (forall args str,
        verbatim str -> JS.length str <= MAXBUFFER ->
        substituteArgs args str = Ok str)
  /\ substituteArgs ["X"; "Y"] "#1-#2-##" = Ok "X-Y-#"
  /\ substituteArgs ["X"] "\#1" = Ok "\#1"
  /\ substituteArgs ["x"] "\alpha#1+#1" = Ok "\alpha x+x".
Proof.
  split; [|split; [|split; [|split; [|split; [|split; [|repeat split]]]]]].
  - intros. now apply step_escape.
  - intros. now apply step_param.
  - intros. now apply step_hash_hash.
  - intros s1 s2. unfold addArgs.
    destruct (_ && _)%bool; destruct (_ <? _); auto.
  - apply substituteArgs_parameter.
  - intros args str Hv Hl. rewrite substituteArgs_verbatim by exact Hv.
    apply Nat.nlt_ge, Nat.ltb_nlt in Hl. now rewrite Hl.
Qed.

Lemma C5_substituteArgs_witness :
  JS.charAt "#1-#2-##" 3 = "#"
  /\ JS.charAt "#1-#2-##" 4 = "2"
  /\ test digit19 "2" = true
  /\ parseInt10 "2" <= List.length ["X"; "Y"]
  /\ SubstituteArgs.step ["X"; "Y"] "#1-#2-##" (SubstituteArgs.State "-" "X" 3)
     = Ok (SubstituteArgs.State "" "X-Y" 5).
Proof.
  split; [reflexivity|]. split; [reflexivity|]. split; [reflexivity|].
  split; [simpl; lia|].
  exact (proj1 (proj2 C5_substituteArgs) ["X"; "Y"] "#1-#2-##"
           (SubstituteArgs.State "-" "X" 3) "2" eq_refl eq_refl eq_refl
           (le_n 2)).
Defined.

(** C6. [substituteArgs] throws IllegalMacroParam when the loop comes to a
    [#] followed by a digit from 1 to 9 that is greater than the number of
    arguments, as in the body [#2] with one argument. [addArgs] throws
    MaxBufferSize when its two strings have more than 5 * 1024 = 5120
    characters together, and so does [substituteArgs] when what it has
    put together at the end of the body is longer than that; a string
    that [substituteArgs] returns has at most 5120 characters. Both are
    errors thrown, not values returned. *)
Theorem C6_substituteArgs_errors :
  (forall args str n st c,
     SubstituteArgs.loop args str n (SubstituteArgs.State "" "" 0) = Ok st ->
     JS.charAt str (SubstituteArgs.i st) = "#" ->
     JS.charAt str (S (SubstituteArgs.i st)) = c ->
     test digit19 c = true ->
     List.length args < parseInt10 c ->
     SubstituteArgs.step args str st = Throw IllegalMacroParam
     /\ substituteArgs args str = Throw IllegalMacroParam)
  /\ substituteArgs ["X"] "#2" = Throw IllegalMacroParam
  /\ MAXBUFFER = 5 * 1024
  /\ (forall s1 s2,
        MAXBUFFER < JS.length s1 + JS.length s2 ->
        addArgs s1 s2 = Throw MaxBufferSize)
  /\ (forall args str st,
        SubstituteArgs.loop args str (JS.length str)
          (SubstituteArgs.State "" "" 0) = Ok st ->
        MAXBUFFER < JS.length (SubstituteArgs.newstring st)
                    + JS.length (SubstituteArgs.text st) ->
        substituteArgs args str = Throw MaxBufferSize)
  /\ (forall args str s,
        substituteArgs args str = Ok s -> JS.length s <= MAXBUFFER)
  /\ substituteArgs [JS.repeat "a" MAXBUFFER] "#1" = Ok (JS.repeat "a" MAXBUFFER)
  /\ substituteArgs [JS.repeat "a" (S MAXBUFFER)] "#1" = Throw MaxBufferSize
  /\ substituteArgs [] (JS.repeat "a" (S MAXBUFFER)) = Throw MaxBufferSize.
Proof.
  split; [|split; [|split; [|split; [|split; [|split; [|split; [|split]]]]]]].
  - intros args str n st c Hl H1 H2 H3 H4.
    assert (Hs : SubstituteArgs.step args str st = Throw IllegalMacroParam).
    { apply step_illegal; [exact H1| |right; now rewrite H2].
      rewrite H2. destruct (String.eqb_spec c "#") as [->|]; [discriminate H3 | reflexivity]. }
    split; [exact Hs|].
    eapply reach_throw; eauto. eapply charAt_lt. exact H1.
  - reflexivity.
  - reflexivity.
  - apply addArgs_overflow.
  - intros args str st Hl H. unfold substituteArgs. rewrite Hl. simpl.
    now apply addArgs_overflow.
  - apply substituteArgs_bound.
  - vm_compute. reflexivity.
  - vm_compute. reflexivity.
  - vm_compute. reflexivity.
Qed.

Lemma C6_substituteArgs_errors_witness :
  SubstituteArgs.loop ["X"] "a#2" 1 (SubstituteArgs.State "" "" 0)
  = Ok (SubstituteArgs.State "a" "" 1)
  /\ JS.charAt "a#2" 1 = "#"
  /\ JS.charAt "a#2" 2 = "2"
  /\ test digit19 "2" = true
  /\ List.length ["X"] < parseInt10 "2"
  /\ SubstituteArgs.step ["X"] "a#2" (SubstituteArgs.State "a" "" 1)
     = Throw IllegalMacroParam
  /\ substituteArgs ["X"] "a#2" = Throw IllegalMacroParam.
Proof.
  split; [reflexivity|]. split; [reflexivity|]. split; [reflexivity|].
  split; [reflexivity|]. split; [simpl; lia|].
  exact (proj1 C6_substituteArgs_errors ["X"] "a#2" 1
           (SubstituteArgs.State "a" "" 1) "2" eq_refl eq_refl eq_refl
           eq_refl (le_n 2)).
Defined.

(** C10. In [substituteArgs], a [#] that the loop comes to and that is
    followed by anything but a digit from 1 to 9 or a second [#] makes it
    throw IllegalMacroParam: so for the digit 0, for a letter and for the
    end of the body. Nothing of the kind is copied to the result. *)
Theorem C10_illegal_parameter :
  (forall args str n st,
     SubstituteArgs.loop args str n (SubstituteArgs.State "" "" 0) = Ok st ->
     JS.charAt str (SubstituteArgs.i st) = "#" ->
     JS.charAt str (S (SubstituteArgs.i st)) <> "#" ->
     test digit19 (JS.charAt str (S (SubstituteArgs.i st))) = false ->
     SubstituteArgs.step args str st = Throw IllegalMacroParam
     /\ substituteArgs args str = Throw IllegalMacroParam)
  /\ test digit19 "" = false
  /\ (forall x,
        test digit19 (String x "")
        = ((49 <=? nat_of_ascii x) && (nat_of_ascii x <=? 57))%bool)
  /\ substituteArgs ["X"] "#0" = Throw IllegalMacroParam
  /\ substituteArgs ["X"] "#a" = Throw IllegalMacroParam
  /\ substituteArgs ["X"] "#" = Throw IllegalMacroParam
  /\ substituteArgs ["X"] "#1 ###" = Throw IllegalMacroParam.
Proof.
  split; [|split; [|split; [|repeat split]]].
  - intros args str n st Hl H1 H2 H3.
    assert (Hs : SubstituteArgs.step args str st = Throw IllegalMacroParam).
    { apply step_illegal; [exact H1| |left; exact H3].
      now apply String.eqb_neq. }
    split; [exact Hs|].
    eapply reach_throw; eauto. eapply charAt_lt. exact H1.
  - reflexivity.
  - intros x. unfold test, exec, digit19. cbn [exec_from m rest].
    destruct (_ && _)%bool; reflexivity.
Qed.

Lemma C10_illegal_parameter_witness :
  SubstituteArgs.loop ["X"] "x#0" 1 (SubstituteArgs.State "" "" 0)
  = Ok (SubstituteArgs.State "x" "" 1)
  /\ JS.charAt "x#0" 1 = "#"
  /\ (JS.charAt "x#0" 2 =? "#")%string = false
  /\ test digit19 (JS.charAt "x#0" 2) = false
  /\ SubstituteArgs.step ["X"] "x#0" (SubstituteArgs.State "x" "" 1)
     = Throw IllegalMacroParam
  /\ substituteArgs ["X"] "x#0" = Throw IllegalMacroParam.
Proof.
  split; [reflexivity|]. split; [reflexivity|]. split; [reflexivity|].
  split; [reflexivity|].
  apply (proj1 C10_illegal_parameter ["X"] "x#0" 1
           (SubstituteArgs.State "x" "" 1));
    [reflexivity | reflexivity | discriminate | reflexivity].
Defined.

(** * Beyond the claims *)

(** ** trimSpaces *)

(** Where a single character stands at the end. *)
Lemma exec_from_last c s n :
  match exec_from (Seq (Lit c) Eol) n s with
  | Some _ => true
  | None => false
  end = endsWith (Ascii.eqb c) s.
Proof.
  revert n. induction s as [|d s IH]; intros n; [reflexivity|].
  cbn [exec_from]. unfold Lit at 1. rewrite m_Seq, m_Char_cons.
  destruct s as [|e s].
  - cbn [endsWith m rest]. destruct (Ascii.eqb c d); reflexivity.
  - replace (if Ascii.eqb c d
             then m Eol Some (MState (S n) (String e s) []) else None)
      with (@None mstate) by (destruct (Ascii.eqb c d); reflexivity).
    rewrite IH. reflexivity.
Qed.

Lemma test_last c s : test (Seq (Lit c) Eol) s = endsWith (Ascii.eqb c) s.
Proof. unfold test, exec. apply exec_from_last. Qed.

Lemma m_Bol k st : m Bol k st = if pos st =? 0 then k st else None.
Proof. reflexivity. Qed.

Lemma plus_ws_fails k n s cs :
  startsWith JS.isSpace s = false ->
  m (Plus ws) k (MState n s cs) = None.
Proof. intros H. unfold Plus, ws. now rewrite m_Seq, m_Char_fail. Qed.

(** Neither alternative of [outerSpace] matches at a character that is
    not white space, nor at the end of the string. *)
Lemma outerSpace_fails_at n s cs :
  startsWith JS.isSpace s = false ->
  m outerSpace Some (MState n s cs) = None.
Proof.
  intros H. unfold outerSpace.
  rewrite m_Alt, !m_Seq, m_Bol, !plus_ws_fails by exact H.
  destruct (_ =? _); reflexivity.
Qed.

(** White space inside the string, after its start, is not matched. *)
Lemma outerSpace_fails_inside n s c b cs :
  0 < n -> JS.isSpace c = false ->
  m outerSpace Some (MState n (s ++ String c b) cs) = None.
Proof.
  intros Hn Hc. unfold outerSpace. rewrite m_Alt.
  fold trailingSpace. rewrite trailingSpace_fails by exact Hc.
  rewrite m_Seq, m_Bol. cbn [pos].
  destruct n; [lia | reflexivity].
Qed.

(** After the start of the string, or after a first character that is not
    white space, [outerSpace] finds the white space at the end. *)
Lemma exec_from_outerSpace_end core ws2 n :
  0 < n \/ (startsWith JS.isSpace core = false /\ core <> "") ->
  endsWith JS.isSpace core = false ->
  allOf JS.isSpace ws2 = true -> ws2 <> "" ->
  exec_from outerSpace n (core ++ ws2)
  = Some (MatchResult (n + String.length core)
            (n + String.length core + String.length ws2) []).
Proof.
  intros Hn Hc Hw Hne. revert n Hn.
  induction core as [|c core IH]; intros n Hn.
  - destruct Hn as [Hn|[_ Hn]]; [|now elim Hn].
    destruct ws2 as [|d ds]; [now elim Hne|].
    simpl in Hw. apply andb_prop in Hw. destruct Hw as [Hd Hds].
    cbn [append exec_from]. unfold outerSpace. rewrite m_Alt.
    replace (m (Seq Bol (Plus ws)) Some (MState n (String d ds) []))
      with (@None mstate)
      by (rewrite m_Seq, m_Bol; cbn [pos]; destruct n; [lia | reflexivity]).
    fold trailingSpace. rewrite trailingSpace_at by assumption.
    cbn [pos caps String.length]. f_equal. f_equal; lia.
  - cbn [append exec_from].
    replace (m outerSpace Some (MState n (String c (core ++ ws2)) []))
      with (@None mstate).
    + rewrite IH by (try (eapply endsWith_cons; eauto); left; lia).
      cbn [String.length]. f_equal. f_equal; lia.
    + symmetry. destruct Hn as [Hn|[Hs _]].
      * destruct (endsWith_inv _ _ Hc) as [E|(pre & x & E & Hx)];
          [discriminate|].
        change (String c (core ++ ws2)) with (String c core ++ ws2).
        rewrite E, append_assoc. cbn [append].
        now apply outerSpace_fails_inside.
      * now apply outerSpace_fails_at.
Qed.

(** Without white space at the end there is nothing to find. *)
Lemma exec_from_outerSpace_none core n :
  0 < n \/ startsWith JS.isSpace core = false ->
  endsWith JS.isSpace core = false ->
  exec_from outerSpace n core = None.
Proof.
  intros Hn Hc. revert n Hn. induction core as [|c core IH]; intros n Hn.
  - cbn [exec_from]. now rewrite outerSpace_fails_at.
  - cbn [exec_from].
    replace (m outerSpace Some (MState n (String c core) []))
      with (@None mstate).
    + apply IH; [eapply endsWith_cons; eauto | left; lia].
    + symmetry. destruct Hn as [Hn|Hs].
      * destruct (endsWith_inv _ _ Hc) as [E|(pre & x & E & Hx)];
          [discriminate|].
        rewrite E. now apply outerSpace_fails_inside.
      * now apply outerSpace_fails_at.
Qed.

Lemma substring_from_end s l : substring (String.length s) l s = "".
Proof. induction s as [|c s IH]; [destruct l; reflexivity | exact IH]. Qed.

(** The global replacement of [outerSpace], once any white space at the
    start is passed: white space at the end is removed, nothing else
    is. *)
Lemma replaceAll_loop_end a core ws2 fuel :
  0 < String.length a
  \/ (startsWith JS.isSpace core = false /\ (core <> "" \/ ws2 = "")) ->
  endsWith JS.isSpace core = false -> allOf JS.isSpace ws2 = true ->
  2 <= fuel ->
  replaceAll_loop outerSpace "" (a ++ core ++ ws2) fuel
    (String.length a) (String.length a)
  = core.
Proof.
  intros Ha Hc Hw Hf. set (s := a ++ core ++ ws2).
  assert (L : String.length s
              = String.length a + String.length core + String.length ws2).
  { subst s. rewrite !length_append. lia. }
  destruct fuel as [|[|fuel]]; try lia.
  cbn [replaceAll_loop].
  replace (String.length s <? String.length a) with false
    by (symmetry; apply Nat.ltb_ge; lia).
  replace (substring (String.length a) (String.length s - String.length a) s)
    with (core ++ ws2).
  2:{ subst s. rewrite substring_skip.
      replace (String.length (a ++ core ++ ws2) - String.length a)
        with (String.length (core ++ ws2))
        by (rewrite !length_append; lia).
      now rewrite substring_all. }
  destruct ws2 as [|d ds].
  - (* nothing at the end *)
    rewrite append_nil_r.
    rewrite exec_from_outerSpace_none
      by (auto; destruct Ha as [Ha|[Hs _]]; auto).
    reflexivity.
  - rewrite exec_from_outerSpace_end
      by (auto; try discriminate;
          destruct Ha as [Ha|[Hs [Hne|E]]]; auto; discriminate).
    cbn [m_start m_end].
    replace (String.length a + String.length core - String.length a)
      with (String.length core) by lia.
    replace (substring (String.length a) (String.length core) s)
      with core by (subst s; now rewrite substring_mid).
    cbn [append].
    replace (_ =? _) with false
      by (symmetry; apply Nat.eqb_neq; simpl; lia).
    replace (String.length a + String.length core
             + String.length (String d ds))
      with (String.length s) by lia.
    (* the search at the end of the string *)
    cbn [replaceAll_loop]. rewrite Nat.ltb_irrefl, Nat.sub_diag.
    rewrite substring_from_end. cbn [exec_from].
    rewrite outerSpace_fails_at by reflexivity.
    apply append_nil_r.
Qed.

Lemma replaceAll_loop_S r by_ s fuel lastIndex next :
  replaceAll_loop r by_ s (S fuel) lastIndex next
  = if String.length s <? lastIndex
    then substring next (String.length s - next) s
    else
      match exec_from r lastIndex
              (substring lastIndex (String.length s - lastIndex) s) with
      | None => substring next (String.length s - next) s
      | Some mr =>
        substring next (m_start mr - next) s ++ by_
          ++ replaceAll_loop r by_ s fuel
               (if m_end mr =? m_start mr then S (m_end mr) else m_end mr)
               (m_end mr)
      end.
Proof. reflexivity. Qed.

(** The white space at the start is the first match of [outerSpace]. *)
Lemma exec_outerSpace_start ws1 b :
  allOf JS.isSpace ws1 = true -> ws1 <> "" ->
  startsWith JS.isSpace b = false ->
  exec_from outerSpace 0 (ws1 ++ b)
  = Some (MatchResult 0 (String.length ws1) []).
Proof.
  intros Hw Hne Hb. destruct ws1 as [|d ds]; [now elim Hne|].
  simpl in Hw. apply andb_prop in Hw. destruct Hw as [Hd Hds].
  cbn [append exec_from].
  change (String d (ds ++ b)) with (String d ds ++ b).
  unfold outerSpace.
  rewrite (m_Alt_left _ _ Some _ (MState (0 + S (String.length ds)) b []));
    [reflexivity|].
  rewrite m_Seq, m_Bol. cbn [pos Nat.eqb]. unfold ws.
  apply m_plus_class; auto.
Qed.

(** [text.replace(/^\s+|\s+$/g, '')] is the core of the text. *)
Lemma replaceAll_outerSpace ws1 core ws2 :
  allOf JS.isSpace ws1 = true -> allOf JS.isSpace ws2 = true ->
  startsWith JS.isSpace core = false -> endsWith JS.isSpace core = false ->
  core <> "" \/ ws2 = "" ->
  replaceAll outerSpace "" (ws1 ++ core ++ ws2) = core.
Proof.
  intros H1 H2 Hs He Hne. unfold replaceAll.
  destruct ws1 as [|d ds].
  - apply (replaceAll_loop_end "" core ws2); auto. lia.
  - set (ws1 := String d ds) in *. set (s := ws1 ++ core ++ ws2).
    assert (L : String.length s = String.length ws1
                 + String.length core + String.length ws2).
    { subst s. rewrite !length_append. lia. }
    assert (L1 : 0 < String.length ws1) by (subst ws1; simpl; lia).
    rewrite replaceAll_loop_S. rewrite Nat.sub_0_r, substring_all.
    replace (String.length s <? 0) with false by reflexivity.
    subst s. rewrite exec_outerSpace_start; auto; try discriminate.
    2:{ destruct Hne as [Hne| ->].
        - now rewrite startsWith_append.
        - now rewrite append_nil_r. }
    cbn [m_start m_end]. rewrite substring_0_0. cbn [append].
    replace (String.length ws1 =? 0) with false
      by (symmetry; apply Nat.eqb_neq; lia).
    apply replaceAll_loop_end; auto.
    rewrite !length_append. lia.
Qed.

(** ** Definition lists *)

Lemma getProperty_set def key value :
  getProperty (setProperty def key value) key = Some value.
Proof.
  induction def as [|[name v] def IH]; simpl.
  - now rewrite String.eqb_refl.
  - destruct (name =? key)%string eqn:E; simpl; rewrite E; auto.
Qed.

Lemma getProperty_other def key value key' :
  key' <> key ->
  getProperty (setProperty def key value) key' = getProperty def key'.
Proof.
  intros H. induction def as [|[name v] def IH]; simpl.
  - apply String.eqb_neq in H. rewrite String.eqb_sym in H. now rewrite H.
  - destruct (name =? key)%string eqn:E; simpl.
    + apply String.eqb_eq in E. subst name.
      apply not_eq_sym, String.eqb_neq in H. now rewrite H.
    + now rewrite IH.
Qed.

Lemma endsWith_mono (p q : ascii -> bool) s :
  (forall c, p c = true -> q c = true) ->
  endsWith q s = false -> endsWith p s = false.
Proof.
  intros Hpq. induction s as [|c s IH]; [reflexivity|].
  destruct s as [|d s]; [|exact IH].
  cbn [endsWith]. intros Hq. destruct (p c) eqn:E; [|reflexivity].
  apply Hpq in E. congruence.
Qed.

Lemma space_isSpace c : Ascii.eqb " " c = true -> JS.isSpace c = true.
Proof. intros H. apply Ascii.eqb_eq in H. now subst c. Qed.

Lemma truthy_core a core b :
  core <> "" -> JS.truthy (a ++ core ++ b) = true.
Proof.
  intros H. unfold JS.truthy. apply negb_true_iff, String.eqb_neq.
  intros E. apply (f_equal String.length) in E.
  rewrite !length_append in E. destruct core; [now elim H|].
  simpl in E. lia.
Qed.

(** What [trimSpaces] leaves of a text: its core, and one space after a
    backslash that a space at the end followed. *)
Lemma trimSpaces_core ws1 core ws2 :
  allOf JS.isSpace ws1 = true -> allOf JS.isSpace ws2 = true ->
  startsWith JS.isSpace core = false -> endsWith JS.isSpace core = false ->
  trimSpaces (ws1 ++ core ++ ws2)
  = if (endsWith (Ascii.eqb "\") core && endsWith (Ascii.eqb " ") ws2)%bool
    then core ++ " " else core.
Proof.
  intros H1 H2 Hs He. unfold trimSpaces, endsWithBackslash, endsWithSpace.
  rewrite !test_last. destruct core as [|c core].
  - cbn [append].
    replace (ws1 ++ ws2) with ((ws1 ++ ws2) ++ "" ++ "")
      by (now rewrite !append_nil_r).
    rewrite replaceAll_outerSpace; auto.
    now rewrite allOf_append, H1, H2.
  - set (k := String c core) in *.
    rewrite replaceAll_outerSpace; auto; [|left; discriminate].
    destruct ws2 as [|d ds].
    + rewrite append_nil_r, endsWith_after by discriminate.
      rewrite (endsWith_mono (Ascii.eqb " ") JS.isSpace k space_isSpace He).
      reflexivity.
    + now rewrite !endsWith_after by discriminate.
Qed.

(** X1. [internalText] turns the white space at each end of a text into
    one non-breaking space and keeps everything between as it is, white
    space included; a text that is white space only becomes one
    non-breaking space, and the empty text stays empty. The text node is
    the content of an mtext node with the definitions given. *)
Theorem X1_internalText_outer_space ws1 core ws2 def :
  allOf JS.isSpace ws1 = true -> allOf JS.isSpace ws2 = true ->
  startsWith JS.isSpace core = false -> endsWith JS.isSpace core = false ->
  internalText (ws1 ++ core ++ ws2) def
  = createNode "mtext" [] def
      (Some (createText
               (if (core =? "")%string then nbspIf (ws1 ++ ws2)
                else nbspIf ws1 ++ core ++ nbspIf ws2))).
Proof. apply internalText_outer. Qed.

Lemma X1_internalText_outer_space_witness :
  internalText "  a b   " []
  = createNode "mtext" [] [] (Some (createText (NBSP ++ "a b" ++ NBSP))).
Proof.
  exact (X1_internalText_outer_space "  " "a b" "   " []
           eq_refl eq_refl eq_refl eq_refl).
Defined.

(** X2. [trimSpaces] removes the white space at both ends of a text and
    nothing else: what is left is the part from the first to the last
    character that is not white space. There is one exception: when that
    part ends with a backslash and the text ended with a space, one space
    is put back after the backslash. *)
Theorem X2_trimSpaces ws1 core ws2 :
  allOf JS.isSpace ws1 = true -> allOf JS.isSpace ws2 = true ->
  startsWith JS.isSpace core = false -> endsWith JS.isSpace core = false ->
  trimSpaces (ws1 ++ core ++ ws2)
  = if (endsWith (Ascii.eqb "\") core && endsWith (Ascii.eqb " ") ws2)%bool
    then core ++ " " else core.
Proof. apply trimSpaces_core. Qed.

Lemma X2_trimSpaces_witness :
  trimSpaces "  a  b\  " = "a  b\ ".
Proof.
  exact (X2_trimSpaces "  " "a  b\" "  " eq_refl eq_refl eq_refl eq_refl).
Defined.

(** X3. [trimSpaces] is idempotent: trimming a trimmed text changes
    nothing, also when a space was kept after a backslash. *)
Theorem X3_trimSpaces_idempotent text :
  trimSpaces (trimSpaces text) = trimSpaces text.
Proof.
  destruct (split_outer text) as (ws1 & core & ws2 & -> & H1 & H2 & Hs & He).
  rewrite trimSpaces_core by assumption.
  destruct (endsWith (Ascii.eqb "\") core) eqn:Hb;
    destruct (endsWith (Ascii.eqb " ") ws2) eqn:Hw; cbn [andb].
  - pose proof (trimSpaces_core "" core " " eq_refl eq_refl Hs He) as E.
    cbn [append] in E. rewrite E, Hb. reflexivity.
  - pose proof (trimSpaces_core "" core "" eq_refl eq_refl Hs He) as E.
    cbn [append] in E. rewrite append_nil_r in E. rewrite E, Hb. reflexivity.
  - pose proof (trimSpaces_core "" core "" eq_refl eq_refl Hs He) as E.
    cbn [append] in E. rewrite append_nil_r in E. rewrite E, Hb. reflexivity.
  - pose proof (trimSpaces_core "" core "" eq_refl eq_refl Hs He) as E.
    cbn [append] in E. rewrite append_nil_r in E. rewrite E, Hb. reflexivity.
Qed.

(** X4. [setArrayAlign] reads its argument without the white space
    around it: the letters t, b and c set the alignment of the array to
    baseline 1, baseline -1 and center, any other argument is the
    alignment itself. Only the entry align of the definitions of the
    array changes. *)
Theorem X4_setArrayAlign array ws1 core ws2 :
  allOf JS.isSpace ws1 = true -> allOf JS.isSpace ws2 = true ->
  startsWith JS.isSpace core = false -> endsWith JS.isSpace core = false ->
  core <> "" -> endsWith (Ascii.eqb "\") core = false ->
  getProperty (arraydef (setArrayAlign array (Some (ws1 ++ core ++ ws2))))
    "align"
  = Some (AString (alignment core))
  /\ forall key,
       key <> "align" ->
       getProperty (arraydef (setArrayAlign array
                                (Some (ws1 ++ core ++ ws2)))) key
       = getProperty (arraydef array) key.
Proof.
  intros H1 H2 Hs He Hne Hb. unfold setArrayAlign.
  rewrite truthy_core by exact Hne.
  rewrite trimSpaces_core by assumption. rewrite Hb. cbn [andb].
  assert (Ht : JS.truthy core = true).
  { destruct core; [now elim Hne | reflexivity]. }
  unfold alignment, setAlign.
  destruct (core =? "t")%string; [|destruct (core =? "b")%string;
    [|destruct (core =? "c")%string; [|rewrite Ht]]];
    cbn [arraydef]; (split; [apply getProperty_set|]);
    intros key Hk; now apply getProperty_other.
Qed.

Lemma X4_setArrayAlign_witness :
  getProperty
    (arraydef (setArrayAlign {| arraydef := [("columnalign", AString "l")] |}
                             (Some " t ")))
    "align"
  = Some (AString "baseline 1").
Proof.
  exact (proj1 (X4_setArrayAlign
                  {| arraydef := [("columnalign", AString "l")] |}
                  " " "t" " " eq_refl eq_refl eq_refl eq_refl
                  ltac:(discriminate) eq_refl)).
Defined.

(** X5. An argument of [setArrayAlign] that is missing, empty or white
    space only leaves the array as it is. *)
Theorem X5_setArrayAlign_blank array ws :
  allOf JS.isSpace ws = true ->
  setArrayAlign array (Some ws) = array
  /\ setArrayAlign array None = array.
Proof.
  intros H. split; [|reflexivity].
  unfold setArrayAlign.
  assert (E : trimSpaces ws = "").
  { pose proof (trimSpaces_core ws "" "" H eq_refl eq_refl eq_refl) as E.
    cbn [append endsWith andb] in E. now rewrite append_nil_r in E. }
  destruct (JS.truthy ws); [now rewrite E | reflexivity].
Qed.

Lemma X5_setArrayAlign_blank_witness :
  setArrayAlign {| arraydef := [("align", AString "center")] |} (Some "  ")
  = {| arraydef := [("align", AString "center")] |}.
Proof.
  exact (proj1 (X5_setArrayAlign_blank
                  {| arraydef := [("align", AString "center")] |} "  "
                  eq_refl)).
Defined.

(** ** Dimensions at the start of a string *)

(** The optional space after the unit. *)
Lemma m_optional_space n tail cs :
  exists tail',
    m (Opt (Lit " ")) Some (MState n tail cs)
    = Some (MState (n + if startsWith (Ascii.eqb " ") tail then 1 else 0)
                   tail' cs).
Proof.
  destruct (startsWith (Ascii.eqb " ") tail) eqn:E.
  - destruct tail as [|c tail]; [discriminate|]. cbn [startsWith] in E.
    exists tail. apply m_Opt_take. unfold Lit. rewrite m_Char_cons, E.
    cbn [pos caps]. now rewrite Nat.add_1_r.
  - exists tail. rewrite m_Opt_skip by (now apply m_Char_fail).
    now rewrite Nat.add_0_r.
Qed.

(** The match of [dimenRest] on a numeral and a unit, with white space
    before and between them, whatever comes after the unit: it starts at
    the start of the string and ends after the unit, or after one space
    that follows the unit. *)
Lemma exec_dimenRest ws1 sign ip sep fp ws2 u tail :
  allOf JS.isSpace ws1 = true -> allOf JS.isSpace ws2 = true ->
  validNumeral sign ip sep fp -> In u unitNames ->
  let N := sign ++ ip ++ sep ++ fp in
  let dim := ws1 ++ N ++ ws2 ++ u ++ tail in
  exists mr,
    exec dimenRest dim = Some mr
    /\ m_start mr = 0
    /\ m_end mr = String.length (ws1 ++ N ++ ws2 ++ u)
                  + (if startsWith (Ascii.eqb " ") tail then 1 else 0)
    /\ group dim mr 1 = Some N
    /\ group dim mr 4 = Some u.
Proof.
  intros H1 H2 HN Hu N dim.
  set (rest := ws2 ++ u ++ tail).
  assert (Ht1 : startsWith JS.isDigit rest = false).
  { apply tail_start; auto using space_not_digit.
    apply unit_start; reflexivity. }
  assert (Ht2 : startsWith (fun c => mem c ".,") rest = false).
  { apply tail_start; auto.
    - intros c Hc. apply (space_not_sep c ".,"); simpl; auto.
    - apply unit_start; reflexivity. }
  destruct (m_num sign ip sep fp rest (String.length ws1)
              (String.length ws1 + String.length N) [] HN Ht1 Ht2 eq_refl)
    as [cs' Hnum].
  set (a1 := String.length ws1) in *.
  set (b1 := a1 + String.length N) in *.
  set (a4 := b1 + String.length ws2).
  set (b4 := a4 + String.length u).
  set (caps := (4, (a4, b4)) :: (1, (a1, b1)) :: cs').
  destruct (m_optional_space b4 tail caps) as [tail' Hsp].
  set (L := b4 + (if startsWith (Ascii.eqb " ") tail then 1 else 0)) in *.
  assert (Hm : m (Seq (Star ws) (Seq num (Seq (Star ws) (Seq unit
                 (Opt (Lit " ")))))) Some (MState 0 dim [])
               = Some (MState L tail' caps)).
  { rewrite m_Seq. unfold ws at 1. subst dim.
    apply m_star_class; auto; [now apply numeral_start|].
    cbv beta. rewrite m_Seq. apply Hnum.
    cbv beta. rewrite m_Seq. unfold ws at 1. subst rest.
    apply m_star_class; auto.
    { apply unit_tail_start; auto. apply unit_start; reflexivity. }
    cbv beta. rewrite m_Seq. apply m_unit; auto. }
  exists (MatchResult 0 L caps).
  split; [|split; [|split; [|split]]].
  - unfold dimenRest. rewrite exec_Bol, Hm. reflexivity.
  - reflexivity.
  - cbn [m_end]. subst L b4 a4 b1 a1. rewrite !length_append. lia.
  - unfold group. subst caps. cbn [m_caps lookup Nat.eqb].
    replace (b1 - a1) with (String.length N) by (subst b1; lia).
    subst a1 dim. now rewrite substring_mid.
  - unfold group. subst caps. cbn [m_caps lookup Nat.eqb].
    replace (b4 - a4) with (String.length u) by (subst b4; lia).
    replace a4 with (String.length (ws1 ++ N ++ ws2))
      by (subst a4 b1 a1; rewrite !length_append; lia).
    subst dim.
    replace (ws1 ++ N ++ ws2 ++ u ++ tail)
      with ((ws1 ++ N ++ ws2) ++ u ++ tail)
      by (now rewrite !append_assoc).
    now rewrite substring_mid.
Qed.

(** [matchDimen] on a dimension at the start of a string. *)
Lemma matchDimen_rest_valid ws1 sign ip sep fp ws2 u tail :
  allOf JS.isSpace ws1 = true -> allOf JS.isSpace ws2 = true ->
  validNumeral sign ip sep fp -> In u unitNames ->
  matchDimen (ws1 ++ (sign ++ ip ++ sep ++ fp) ++ ws2 ++ u ++ tail) true
  = (Some (anglosaxon sign ip sep fp), Some u,
     String.length (ws1 ++ (sign ++ ip ++ sep ++ fp) ++ ws2 ++ u)
     + (if startsWith (Ascii.eqb " ") tail then 1 else 0)).
Proof.
  intros H1 H2 HN Hu.
  destruct (exec_dimenRest ws1 sign ip sep fp ws2 u tail H1 H2 HN Hu)
    as (mr & He & Hs & Hl & Hg1 & Hg4).
  cbv zeta in *. unfold matchDimen. rewrite He, Hg1, Hg4.
  rewrite replace_comma by exact HN. f_equal.
  unfold matched. rewrite Hs, Nat.sub_0_r, substring_length, Hl.
  rewrite Nat.sub_0_r. apply Nat.min_l.
  rewrite !length_append.
  destruct tail as [|c tail]; cbn [startsWith]; [lia|].
  destruct (Ascii.eqb " " c); simpl; lia.
Qed.

(** X6. With [rest = true], [matchDimen] reads a dimension at the start
    of a string and leaves what follows it: for a numeral and a unit,
    with white space before and between them, and anything after the
    unit, it returns the numeral with a point for its comma, the unit,
    and the length of what was read, which ends after the unit, or after
    the space that follows the unit if there is one. The caller finds
    the rest of the string from that length on. *)
Theorem X6_matchDimen_rest ws1 sign ip sep fp ws2 u tail :
  allOf JS.isSpace ws1 = true -> allOf JS.isSpace ws2 = true ->
  validNumeral sign ip sep fp -> In u unitNames ->
  matchDimen (ws1 ++ (sign ++ ip ++ sep ++ fp) ++ ws2 ++ u ++ tail) true
  = (Some (anglosaxon sign ip sep fp), Some u,
     String.length (ws1 ++ (sign ++ ip ++ sep ++ fp) ++ ws2 ++ u)
     + (if startsWith (Ascii.eqb " ") tail then 1 else 0)).
Proof. apply matchDimen_rest_valid. Qed.

Lemma X6_matchDimen_rest_witness :
  matchDimen " -1,5 pt plus 2pt" true = (Some "-1.5", Some "pt", 9).
Proof.
  assert (HN : validNumeral "-" "1" "," "5").
  { unfold validNumeral. simpl. repeat split; auto.
    right. split; auto. left. discriminate. }
  assert (Hu : In "pt" unitNames) by (simpl; auto).
  exact (X6_matchDimen_rest " " "-" "1" "," "5" " " "pt" " plus 2pt"
           eq_refl eq_refl HN Hu).
Defined.

(** ** What [Em] writes, [matchDimen] reads *)

Lemma fraction_cases d1 d2 d3 :
  JS.isDigit d1 = true -> JS.isDigit d2 = true -> JS.isDigit d3 = true ->
  exists sep fp,
    fraction d1 d2 d3 = sep ++ fp /\ allOf JS.isDigit fp = true
    /\ ((sep = "" /\ fp = "") \/ (sep = "." /\ fp <> "")).
Proof.
  intros H1 H2 H3. unfold fraction.
  destruct (negb (Ascii.eqb d3 "0")).
  { exists ".", (String d1 (String d2 (String d3 ""))). simpl.
    rewrite H1, H2, H3. repeat split. right. split; [auto | discriminate]. }
  destruct (negb (Ascii.eqb d2 "0")).
  { exists ".", (String d1 (String d2 "")). simpl.
    rewrite H1, H2. repeat split. right. split; [auto | discriminate]. }
  destruct (negb (Ascii.eqb d1 "0")).
  { exists ".", (String d1 ""). simpl.
    rewrite H1. repeat split. right. split; [auto | discriminate]. }
  exists "", "". repeat split. now left.
Qed.

(** What [Em] writes is a numeral and the unit em. *)
Lemma Em_numeral toString v :
  PrimFloat.eqb v v = true ->
  PrimFloat.leb 1e21%float
    (if PrimFloat.ltb v 0%float then PrimFloat.opp v else v) = false ->
  exists sign ip sep fp,
    validNumeral sign ip sep fp
    /\ Em toString v = (sign ++ ip ++ sep ++ fp) ++ "em"
    /\ anglosaxon sign ip sep fp = sign ++ ip ++ sep ++ fp.
Proof.
  intros Hnan Hbig.
  destruct (PrimFloat.ltb (PrimFloat.abs v) 0.0006%float) eqn:Hsmall.
  - exists "", "0", "", "". split; [|split; [|reflexivity]].
    + unfold validNumeral. simpl. repeat split; auto.
      left. repeat split. discriminate.
    + unfold Em. now rewrite Hsmall.
  - destruct (Em_decimals toString v Hnan Hsmall Hbig)
      as (ip & d1 & d2 & d3 & _ & Hne & Hip & H1 & H2 & H3 & E).
    destruct (fraction_cases d1 d2 d3 H1 H2 H3)
      as (sep & fp & Ef & Hfp & Hform).
    exists (if PrimFloat.ltb v 0%float then "-" else ""), ip, sep, fp.
    split; [|split].
    + unfold validNumeral. repeat split; auto.
      * destruct (PrimFloat.ltb v 0%float); simpl; auto.
      * destruct Hform as [(-> & ->)|(-> & Hf)]; [left | right]; auto.
        split; simpl; auto.
    + rewrite E, Ef. now rewrite !append_assoc.
    + unfold anglosaxon.
      destruct Hform as [(-> & ->)|(-> & Hf)]; reflexivity.
Qed.

(** X7. What [Em] writes, [matchDimen] and [dimen2em] read back: for
    every number that is not NaN and under 1e21 in absolute value, the
    string that [Em] returns is a numeral followed by em; [matchDimen]
    accepts it as a whole and returns that numeral and the unit em, and
    [dimen2em] is the number that the numeral denotes. *)
Theorem X7_Em_matchDimen toString v :
  PrimFloat.eqb v v = true ->
  PrimFloat.leb 1e21%float
    (if PrimFloat.ltb v 0%float then PrimFloat.opp v else v) = false ->
  exists value,
    Em toString v = value ++ "em"
    /\ matchDimen (Em toString v) false
       = (Some value, Some "em", String.length (Em toString v))
    /\ dimen2em (Em toString v) = JSNumber.parseFloat value.
Proof.
  intros Hnan Hbig.
  destruct (Em_numeral toString v Hnan Hbig)
    as (sign & ip & sep & fp & HN & E & Ea).
  assert (Hu : In "em" unitNames) by (simpl; auto).
  exists (sign ++ ip ++ sep ++ fp). split; [exact E|].
  pose proof (matchDimen_valid "" sign ip sep fp "" "em" ""
                eq_refl eq_refl eq_refl HN Hu) as Hm.
  pose proof (dimen2em_valid "" sign ip sep fp "" "em" ""
                eq_refl eq_refl eq_refl HN Hu) as Hd.
  cbn [append] in Hm, Hd. rewrite Ea in Hm, Hd.
  rewrite E. split; [exact Hm | exact Hd].
Qed.

Lemma X7_Em_matchDimen_witness :
  exists value,
    Em (fun _ => "") (-2.5)%float = value ++ "em"
    /\ matchDimen (Em (fun _ => "") (-2.5)%float) false
       = (Some value, Some "em",
          String.length (Em (fun _ => "") (-2.5)%float))
    /\ dimen2em (Em (fun _ => "") (-2.5)%float) = JSNumber.parseFloat value.
Proof.
  exact (X7_Em_matchDimen (fun _ => "") (-2.5)%float eq_refl eq_refl).
Defined.

(** ** The scanner after a prefix of the text *)

Lemma substring_shift a t n l :
  substring (String.length a + n) l (a ++ t) = substring n l t.
Proof. induction a as [|c a IH]; [reflexivity | exact IH]. Qed.

Lemma substring_0_shift a t n :
  substring 0 (String.length a + n) (a ++ t) = a ++ substring 0 n t.
Proof.
  induction a as [|c a IH]; [reflexivity|]. simpl. now rewrite IH.
Qed.

Lemma charAt_shift a t n :
  JS.charAt (a ++ t) (String.length a + n) = JS.charAt t n.
Proof. apply substring_shift. Qed.

Lemma substr_shift a t n :
  JS.substr (a ++ t) (String.length a + n) = JS.substr t n.
Proof.
  unfold JS.substr. rewrite substring_shift, length_append.
  f_equal. lia.
Qed.

Lemma slice_shift a t n :
  JS.slice (a ++ t) (String.length a + n) = JS.slice t n.
Proof. apply substr_shift. Qed.

Lemma slice2_shift a t x y :
  JS.slice2 (a ++ t) (String.length a + x) (String.length a + y)
  = JS.slice2 t x y.
Proof.
  unfold JS.slice2. rewrite substring_shift. f_equal. lia.
Qed.

Lemma substr_append a b : JS.substr (a ++ b) (String.length a) = b.
Proof.
  rewrite <- (Nat.add_0_r (String.length a)), substr_shift.
  unfold JS.substr. rewrite Nat.sub_0_r. apply substring_all.
Qed.

Lemma push_app (l0 l : list MmlNode) x :
  push (l0 ++ l)%list x = (l0 ++ push l x)%list.
Proof. unfold push. now rewrite app_assoc. Qed.

Section Shift.
Import InternalMath.
Variable parse : string -> result MmlNode.
Variable def : EnvList.

Lemma pushText_shift a l0 st e :
  pushText def (shifted a l0 st) (String.length a + e)
  = (l0 ++ pushText def st e)%list.
Proof.
  unfold pushText, shifted. cbn [k text mml].
  replace (String.length a + k st <? String.length a + e) with (k st <? e).
  2:{ destruct (k st <? e) eqn:E; symmetry.
      - apply Nat.ltb_lt in E. apply Nat.ltb_lt. lia.
      - apply Nat.ltb_ge in E. apply Nat.ltb_ge. lia. }
  destruct (k st <? e); [|reflexivity].
  now rewrite slice2_shift, push_app.
Qed.

(** One turn of the loop after a prefix is the turn without the prefix,
    shifted. *)
Lemma step_shift a l0 st :
  step parse def (shifted a l0 st)
  = (st' <- step parse def st ;; Ok (shifted a l0 st')).
Proof.
  unfold step.
  change (text (shifted a l0 st)) with (a ++ text st).
  change (i (shifted a l0 st)) with (String.length a + i st).
  change (k (shifted a l0 st)) with (String.length a + k st).
  change (match_ (shifted a l0 st)) with (match_ st).
  change (braces (shifted a l0 st)) with (braces st).
  change (mml (shifted a l0 st)) with (l0 ++ mml st)%list.
  rewrite <- !Nat.add_succ_r.
  replace (String.length a + S (i st) - 1) with (String.length a + i st)
    by lia.
  replace (String.length a + S (S (i st)) - 2)
    with (String.length a + i st) by lia.
  replace (String.length a + S (S (i st)) - 1 - 1)
    with (String.length a + i st) by lia.
  replace (String.length a + S (S (i st)) - 1)
    with (String.length a + S (i st)) by lia.
  replace (S (i st) - 1) with (i st) by lia.
  replace (S (S (i st)) - 2) with (i st) by lia.
  replace (S (S (i st)) - 1 - 1) with (i st) by lia.
  replace (S (S (i st)) - 1) with (S (i st)) by lia.
  rewrite !charAt_shift, !substr_shift, !slice2_shift, !pushText_shift.
  unfold JS.substr2. rewrite substring_0_shift.
  destruct (JS.charAt (text st) (i st) =? "$")%string.
  { destruct ((match_ st =? "$")%string && (braces st =? 0))%bool.
    - destruct (parse _); [cbn [bind]; rewrite push_app|]; reflexivity.
    - destruct (match_ st =? "")%string; reflexivity. }
  destruct ((JS.charAt (text st) (i st) =? "{")%string
            && negb (match_ st =? "")%string)%bool; [reflexivity|].
  destruct (JS.charAt (text st) (i st) =? "}")%string.
  { destruct ((match_ st =? "}")%string && (braces st =? 0))%bool.
    - destruct (parse _); [cbn [bind]; rewrite push_app|]; reflexivity.
    - destruct (negb (match_ st =? "")%string); reflexivity. }
  destruct (JS.charAt (text st) (i st) =? "\")%string; [|reflexivity].
  destruct (if (match_ st =? "")%string
            then exec refOpen (JS.substr (text st) (S (i st))) else None).
  { cbn [bind]. unfold shifted. cbn [text i k match_ braces mml].
    f_equal. f_equal; lia. }
  destruct ((JS.charAt (text st) (S (i st)) =? "(")%string
            && (match_ st =? "")%string)%bool; [reflexivity|].
  destruct ((JS.charAt (text st) (S (i st)) =? ")")%string
            && (match_ st =? ")")%string && (braces st =? 0))%bool.
  { destruct (parse _); [cbn [bind]; rewrite push_app|]; reflexivity. }
  destruct (test special (JS.charAt (text st) (S (i st)))
            && (match_ st =? "")%string)%bool; [|reflexivity].
  cbn [bind]. unfold shifted. cbn [text i k match_ braces mml].
  now rewrite append_assoc.
Qed.

Lemma loop_shift a l0 fuel st :
  loop parse def fuel (shifted a l0 st)
  = (st' <- loop parse def fuel st ;; Ok (shifted a l0 st')).
Proof.
  revert st. induction fuel as [|fuel IH]; intros st.
  - cbn [loop]. destruct (_ <? _), (_ <? _); reflexivity.
  - cbn [loop].
    replace (i (shifted a l0 st) <? JS.length (text (shifted a l0 st)))
      with (i st <? JS.length (text st)).
    2:{ unfold shifted, JS.length. cbn [i text]. rewrite length_append.
        destruct (i st <? String.length (text st)) eqn:E; symmetry.
        - apply Nat.ltb_lt in E. apply Nat.ltb_lt. lia.
        - apply Nat.ltb_ge in E. apply Nat.ltb_ge. lia. }
    destruct (i st <? JS.length (text st)); [|reflexivity].
    rewrite step_shift.
    destruct (step parse def st) as [st1|e]; [|reflexivity].
    cbn [bind]. apply IH.
Qed.

End Shift.

(** ** Runs of text and of math *)

Section Runs.
Import InternalMath.
Variable parse : string -> result MmlNode.
Variable def : EnvList.

(** In text, a character other than a dollar and a backslash has no
    effect, braces included. *)
Lemma step_text_other st c :
  match_ st = "" -> JS.charAt (text st) (i st) = String c "" ->
  Ascii.eqb c "$" = false -> Ascii.eqb c "\" = false ->
  step parse def st
  = Ok (State (text st) (S (i st)) (k st) "" (braces st) (mml st)).
Proof.
  intros Hm Hc H1 H2. unfold step. rewrite Hc, Hm, !one_char_eqb, H1, H2.
  destruct (Ascii.eqb c "{"), (Ascii.eqb c "}"); reflexivity.
Qed.

(** In text, a backslash before a character that opens nothing and is no
    delimiter has no effect, and the character is passed over with it. *)
Lemma step_text_escape st x :
  match_ st = "" -> JS.charAt (text st) (i st) = "\" ->
  JS.charAt (text st) (S (i st)) = String x "" ->
  exec refOpen (JS.substr (text st) (S (i st))) = None ->
  isSpecial x = false -> Ascii.eqb x "(" = false ->
  step parse def st
  = Ok (State (text st) (S (S (i st))) (k st) "" (braces st) (mml st)).
Proof.
  intros Hm Hc Hx Href Hs Hp.
  unfold step. rewrite Hc, Hm, Href, Hx, test_special, Hs.
  rewrite !one_char_eqb, Hp. cbn [String.eqb Ascii.eqb Bool.eqb andb negb].
  now rewrite andb_false_r.
Qed.

(** In math, a character other than a backslash that does not close the
    math only counts as a brace, if it is one. *)
Lemma step_math_char st c :
  match_ st <> "" -> JS.charAt (text st) (i st) = String c "" ->
  Ascii.eqb c "\" = false ->
  (Ascii.eqb c "$" && ((match_ st =? "$")%string && (braces st =? 0)))%bool
  = false ->
  (Ascii.eqb c "}" && ((match_ st =? "}")%string && (braces st =? 0)))%bool
  = false ->
  step parse def st
  = Ok (State (text st) (S (i st)) (k st) (match_ st)
              (if Ascii.eqb c "{" then S (braces st)
               else if Ascii.eqb c "}" then braces st - 1 else braces st)
              (mml st)).
Proof.
  intros Hm Hc Hb H1 H2. apply String.eqb_neq in Hm.
  unfold step. rewrite Hc, Hm, !one_char_eqb, Hb. cbn [negb].
  destruct (Ascii.eqb_spec c "$") as [->|N1].
  { cbn [andb] in H1. rewrite H1. reflexivity. }
  destruct (Ascii.eqb_spec c "{") as [->|N2]; [reflexivity|].
  cbn [andb].
  destruct (Ascii.eqb_spec c "}") as [->|N3]; [|reflexivity].
  cbn [andb] in H2. rewrite H2.
  destruct (braces st); reflexivity.
Qed.

(** In math, a backslash takes the next character along, unless the two
    close the math. *)
Lemma step_math_escape st x :
  match_ st <> "" -> JS.charAt (text st) (i st) = "\" ->
  JS.charAt (text st) (S (i st)) = String x "" ->
  (Ascii.eqb x ")" && (match_ st =? ")")%string && (braces st =? 0))%bool
  = false ->
  step parse def st
  = Ok (State (text st) (S (S (i st))) (k st) (match_ st) (braces st)
              (mml st)).
Proof.
  intros Hm Hc Hx H1. apply String.eqb_neq in Hm.
  unfold step. rewrite Hc, Hm, Hx, !one_char_eqb, H1.
  cbn [String.eqb Ascii.eqb Bool.eqb andb negb].
  now rewrite !andb_false_r.
Qed.

Lemma loop_S fuel st :
  i st < JS.length (text st) ->
  loop parse def (S fuel) st
  = (st' <- step parse def st ;; loop parse def fuel st').
Proof. intros H. apply Nat.ltb_lt in H. cbn [loop]. now rewrite H. Qed.

Lemma loop_0 st : loop parse def 0 st = Ok st.
Proof. cbn [loop]. destruct (_ <? _); reflexivity. Qed.

Lemma charAt_second a c x s :
  JS.charAt (a ++ String c (String x s)) (S (String.length a)) = String x "".
Proof.
  replace (S (String.length a)) with (String.length (a ++ String c ""))
    by (rewrite length_append; simpl; lia).
  replace (a ++ String c (String x s)) with ((a ++ String c "") ++ String x s)
    by (now rewrite append_assoc).
  apply charAt_append.
Qed.

Lemma substr_second a c s :
  JS.substr (a ++ String c s) (S (String.length a)) = s.
Proof.
  replace (S (String.length a)) with (String.length (a ++ String c ""))
    by (rewrite length_append; simpl; lia).
  replace (a ++ String c s) with ((a ++ String c "") ++ s)
    by (now rewrite append_assoc).
  apply substr_append.
Qed.

(** The loop passes over text that holds no math: after some turns, no
    more than the text has characters, the escapes of the text are
    resolved, [i] is at its end and nothing else has changed. *)
Lemma loop_over_passive_n N p after :
  String.length p <= N -> passive p after = true ->
  exists n,
    n <= String.length p
    /\ forall a j d l,
         loop parse def n (State (a ++ p ++ after) (String.length a) j "" d l)
         = Ok (State (a ++ unescape p ++ after)
                     (String.length a + String.length (unescape p))
                     j "" d l).
Proof.
  revert p. induction N as [|N IH]; intros p HN Hp.
  { destruct p; [|simpl in HN; lia]. exists 0. split; [lia|].
    intros. cbn [unescape String.length].
    rewrite loop_0, Nat.add_0_r. reflexivity. }
  destruct p as [|c p].
  { exists 0. split; [lia|].
    intros. cbn [unescape String.length].
    rewrite loop_0, Nat.add_0_r. reflexivity. }
  cbn [passive] in Hp.
  destruct (Ascii.eqb c "$") eqn:H1; [discriminate|].
  destruct (Ascii.eqb_spec c "\") as [->|H2].
  - (* a backslash and the character after it *)
    destruct p as [|x p]; [discriminate|].
    apply andb_prop in Hp. destruct Hp as [Hx Hrec].
    destruct (IH p) as (n & Hn & Hrun); [simpl in HN; lia | exact Hrec |].
    exists (S n). split; [simpl; lia|]. intros a j d l.
    rewrite loop_S
      by (cbn [i text]; unfold JS.length; rewrite !length_append; simpl; lia).
    cbn [unescape Ascii.eqb Bool.eqb].
    destruct (isSpecial x) eqn:Hs.
    + (* an escaped dollar, brace or backslash *)
      rewrite (step_literal_escape parse def _ x);
        cbn [i text k match_ braces mml]; auto.
      2:{ cbn [append]. apply charAt_append. }
      2:{ cbn [append]. apply charAt_second. }
      cbn [bind append]. unfold JS.substr2.
      rewrite substring_take, substr_second.
      specialize (Hrun (a ++ String x "") j d l).
      rewrite !append_assoc in Hrun. cbn [append] in Hrun.
      rewrite length_append in Hrun. cbn [String.length] in Hrun.
      replace (S (String.length a)) with (String.length a + 1) by lia.
      rewrite Hrun. do 2 f_equal. cbn [String.length]. lia.
    + cbn [orb] in Hx. apply andb_prop in Hx. destruct Hx as [Hx Href].
      apply negb_true_iff in Hx, Href.
      rewrite (step_text_escape _ x); cbn [i text k match_ braces mml]; auto.
      * cbn [bind]. specialize (Hrun (a ++ String "\" (String x "")) j d l).
        rewrite !append_assoc in Hrun. cbn [append] in Hrun.
        rewrite length_append in Hrun. cbn [String.length] in Hrun.
        cbn [append].
        replace (S (S (String.length a))) with (String.length a + 2) by lia.
        rewrite Hrun. do 2 f_equal. cbn [String.length]. lia.
      * cbn [append]. apply charAt_append.
      * cbn [append]. apply charAt_second.
      * cbn [append]. rewrite substr_second.
        unfold test in Href. cbn [append] in Href.
        destruct (exec refOpen _); [discriminate | reflexivity].
  - (* any other character *)
    apply Ascii.eqb_neq in H2.
    destruct (IH p) as (n & Hn & Hrun); [simpl in HN; lia | exact Hp |].
    exists (S n). split; [simpl; lia|]. intros a j d l.
    rewrite loop_S
      by (cbn [i text]; unfold JS.length; rewrite !length_append; simpl; lia).
    rewrite (step_text_other _ c); cbn [i text k match_ braces mml]; auto.
    + cbn [bind]. specialize (Hrun (a ++ String c "") j d l).
      rewrite !append_assoc in Hrun. cbn [append] in Hrun.
      rewrite length_append in Hrun. cbn [String.length] in Hrun.
      cbn [append unescape]. rewrite H2. cbn [append].
      replace (S (String.length a)) with (String.length a + 1) by lia.
      rewrite Hrun. do 2 f_equal. cbn [String.length]. lia.
    + cbn [append]. apply charAt_append.
Qed.

Lemma loop_over_passive p after :
  passive p after = true ->
  exists n,
    n <= String.length p
    /\ forall a j d l,
         loop parse def n (State (a ++ p ++ after) (String.length a) j "" d l)
         = Ok (State (a ++ unescape p ++ after)
                     (String.length a + String.length (unescape p))
                     j "" d l).
Proof. apply (loop_over_passive_n (String.length p)). lia. Qed.

(** The loop passes over math that does not close it: [i] is at the end
    of the math, and the depth of braces is what [mathBody] says. *)
Lemma loop_over_math_n N close body d d' :
  String.length body <= N -> close <> "" ->
  mathBody close body d = Some d' ->
  exists n,
    n <= String.length body
    /\ forall a b j l,
         loop parse def n
           (State (a ++ body ++ b) (String.length a) j close d l)
         = Ok (State (a ++ body ++ b)
                     (String.length a + String.length body) j close d' l).
Proof.
  intros HN Hclose. revert body d HN.
  induction N as [|N IH]; intros body d HN Hb.
  { destruct body; [|simpl in HN; lia]. injection Hb as <-.
    exists 0. split; [lia|].
    intros. rewrite loop_0, Nat.add_0_r. reflexivity. }
  destruct body as [|c body].
  { injection Hb as <-. exists 0. split; [lia|].
    intros. rewrite loop_0, Nat.add_0_r. reflexivity. }
  cbn [mathBody] in Hb.
  destruct (Ascii.eqb_spec c "\") as [->|H2].
  - (* a backslash and the character after it *)
    cbn [Ascii.eqb Bool.eqb] in Hb.
    destruct body as [|x body]; [discriminate|].
    destruct (Ascii.eqb x ")" && (close =? ")")%string && (d =? 0))%bool
      eqn:Hx; [discriminate|].
    destruct (IH body d) as (n & Hn & Hrun); [simpl in HN; lia | exact Hb |].
    exists (S n). split; [simpl; lia|]. intros a b j l.
    rewrite loop_S
      by (cbn [i text]; unfold JS.length; rewrite !length_append; simpl; lia).
    rewrite (step_math_escape _ x); cbn [i text k match_ braces mml]; auto.
    + cbn [bind]. specialize (Hrun (a ++ String "\" (String x "")) b j l).
      rewrite !append_assoc in Hrun. cbn [append] in Hrun.
      rewrite length_append in Hrun. cbn [String.length] in Hrun.
      cbn [append].
      replace (S (S (String.length a))) with (String.length a + 2) by lia.
      rewrite Hrun. do 2 f_equal. cbn [String.length]. lia.
    + cbn [append]. apply charAt_append.
    + cbn [append]. apply charAt_second.
  - (* any other character *)
    apply Ascii.eqb_neq in H2.
    set (d1 := if Ascii.eqb c "{" then S d
               else if Ascii.eqb c "}" then d - 1 else d).
    assert (H : (Ascii.eqb c "$" && ((close =? "$")%string && (d =? 0))
                 = false
                 /\ Ascii.eqb c "}" && ((close =? "}")%string && (d =? 0))
                    = false)%bool
                /\ mathBody close body d1 = Some d').
    { subst d1.
      destruct (Ascii.eqb_spec c "$") as [->|N1].
      { cbn [Ascii.eqb Bool.eqb andb].
        destruct ((close =? "$")%string && (d =? 0))%bool;
          [discriminate | auto]. }
      destruct (Ascii.eqb_spec c "{") as [->|N2]; [auto|].
      destruct (Ascii.eqb_spec c "}") as [->|N3]; [|auto].
      cbn [andb].
      destruct ((close =? "}")%string && (d =? 0))%bool;
        [discriminate | auto]. }
    destruct H as [[Hc1 Hc2] Hrec].
    destruct (IH body d1) as (n & Hn & Hrun); [simpl in HN; lia | exact Hrec |].
    exists (S n). split; [simpl; lia|]. intros a b j l.
    rewrite loop_S
      by (cbn [i text]; unfold JS.length; rewrite !length_append; simpl; lia).
    rewrite (step_math_char _ c); cbn [i text k match_ braces mml]; auto.
    + cbn [bind]. fold d1.
      specialize (Hrun (a ++ String c "") b j l).
      rewrite !append_assoc in Hrun. cbn [append] in Hrun.
      rewrite length_append in Hrun. cbn [String.length] in Hrun.
      cbn [append].
      replace (S (String.length a)) with (String.length a + 1) by lia.
      rewrite Hrun. do 2 f_equal. cbn [String.length]. lia.
    + cbn [append]. apply charAt_append.
Qed.

Lemma loop_over_math close body d d' :
  close <> "" -> mathBody close body d = Some d' ->
  exists n,
    n <= String.length body
    /\ forall a b j l,
         loop parse def n
           (State (a ++ body ++ b) (String.length a) j close d l)
         = Ok (State (a ++ body ++ b)
                     (String.length a + String.length body) j close d' l).
Proof. apply (loop_over_math_n (String.length body)). lia. Qed.

End Runs.

(** ** Opening and closing math *)

Lemma refOpen_paren r : exec refOpen (String "(" r) = None.
Proof. unfold refOpen. rewrite exec_Bol. reflexivity. Qed.

(** What [refOpen] matches at the start of a string. *)
Lemma exec_refOpen eq_ sp tail :
  eq_ = "" \/ eq_ = "eq" -> allOf JS.isSpace sp = true ->
  exists caps,
    exec refOpen ((eq_ ++ "ref" ++ sp ++ "{") ++ tail)
    = Some (MatchResult 0 (String.length (eq_ ++ "ref" ++ sp ++ "{")) caps).
Proof.
  intros Heq Hsp.
  assert (Hstar : forall n cs,
            m (Star (Char JS.isSpace))
              (fun st' => m (Char (Ascii.eqb "{")) Some st')
              (MState n (sp ++ String "{" tail) cs)
            = Some (MState (S (n + String.length sp)) tail cs)).
  { intros n cs. apply m_star_class; auto. }
  unfold refOpen. rewrite exec_Bol. rewrite m_Seq.
  destruct Heq as [-> | ->].
  - exists []. rewrite m_Opt_skip by reflexivity.
    rewrite !append_assoc. cbn [append].
    unfold Word, Lit, ws.
    repeat (rewrite ?m_Seq, ?m_Char_cons;
            cbn [Ascii.eqb Bool.eqb pos rest caps]).
    rewrite Hstar.
    cbn [pos caps String.length]. rewrite length_append.
    do 2 f_equal. simpl. lia.
  - exists [(1, (0, 2))].
    rewrite !append_assoc. cbn [append].
    erewrite m_Opt_take.
    2:{ rewrite m_Group. unfold Word, Lit, ws.
        repeat (rewrite ?m_Seq, ?m_Char_cons;
                cbn [Ascii.eqb Bool.eqb pos rest caps]).
        rewrite Hstar. reflexivity. }
    cbn [pos caps String.length]. rewrite length_append.
    do 2 f_equal. simpl. lia.
Qed.

Section Delimiters.
Import InternalMath.
Variable parse : string -> result MmlNode.
Variable def : EnvList.

Lemma step_paren_open st :
  match_ st = "" -> JS.charAt (text st) (i st) = "\" ->
  JS.charAt (text st) (S (i st)) = "(" ->
  step parse def st
  = Ok (State (text st) (S (S (i st))) (S (S (i st))) ")" (braces st)
              (pushText def st (i st))).
Proof.
  intros Hm Hc Hx. unfold step. rewrite Hc, Hm, Hx.
  destruct (charAt_substr _ _ _ Hx) as [r Hr]. rewrite Hr, refOpen_paren.
  cbn [String.eqb Ascii.eqb Bool.eqb andb negb].
  replace (S (S (i st)) - 2) with (i st) by lia. reflexivity.
Qed.

Lemma step_paren_close st :
  match_ st = ")" -> braces st = 0 ->
  JS.charAt (text st) (i st) = "\" ->
  JS.charAt (text st) (S (i st)) = ")" ->
  step parse def st
  = (tree <- parse (JS.slice2 (text st) (k st) (i st)) ;;
     Ok (State (text st) (S (S (i st))) (S (S (i st))) "" 0
               (push (mml st) (createNode "TeXAtom" [tree] [] None)))).
Proof.
  intros Hm Hb Hc Hx. unfold step. rewrite Hc, Hm, Hx, Hb.
  cbn [String.eqb Ascii.eqb Bool.eqb andb negb Nat.eqb].
  replace (S (S (i st)) - 2) with (i st) by lia. reflexivity.
Qed.

Lemma step_ref_open st found :
  match_ st = "" -> JS.charAt (text st) (i st) = "\" ->
  exec refOpen (JS.substr (text st) (S (i st))) = Some found ->
  step parse def st
  = Ok (State (text st)
              (S (i st)
               + String.length (matched (JS.substr (text st) (S (i st)))
                                        found))
              (i st) "}" (braces st) (pushText def st (i st))).
Proof.
  intros Hm Hc Hf. unfold step. rewrite Hc, Hm, Hf.
  cbn [String.eqb Ascii.eqb Bool.eqb andb negb].
  replace (S (i st) - 1) with (i st) by lia. reflexivity.
Qed.

Lemma step_brace_close st :
  match_ st = "}" -> braces st = 0 ->
  JS.charAt (text st) (i st) = "}" ->
  step parse def st
  = (tree <- parse (JS.slice2 (text st) (k st) (S (i st))) ;;
     Ok (State (text st) (S (i st)) (S (i st)) "" 0
               (push (mml st) (createNode "TeXAtom" [tree] def None)))).
Proof.
  intros Hm Hb Hc. unfold step. rewrite Hc, Hm, Hb. reflexivity.
Qed.

(** The text before math is pushed as one text node, if there is any. *)
Lemma pushText_pre pre b m_ d :
  pushText def (State (pre ++ b) (String.length pre) 0 m_ d [])
    (String.length pre)
  = textNodes pre def.
Proof.
  unfold pushText, textNodes. cbn [k text mml].
  unfold JS.slice2. rewrite Nat.sub_0_r, substring_take.
  destruct pre; reflexivity.
Qed.

(** Text, and what opens math after it: the escapes of the text are
    resolved and the text is pushed, the loop is in math and awaits the
    delimiter that closes it, from the start of the math, or from the
    backslash for a reference. *)
Lemma loop_open pre o close b :
  opens o close -> passive pre (o ++ b) = true ->
  exists n,
    n <= String.length (pre ++ o)
    /\ loop parse def n (State (pre ++ o ++ b) 0 0 "" 0 [])
       = Ok (State (unescape pre ++ o ++ b)
                   (String.length (unescape pre ++ o))
                   (if (close =? "}")%string
                    then String.length (unescape pre)
                    else String.length (unescape pre ++ o))
                   close 0 (textNodes (unescape pre) def)).
Proof.
  intros Ho Hp.
  destruct (loop_over_passive parse def pre (o ++ b) Hp) as (n & Hn & Hrun).
  specialize (Hrun "" 0 0 []). cbn [append String.length] in Hrun.
  rewrite Nat.add_0_l in Hrun.
  exists (n + 1). split; [rewrite length_append; destruct Ho; simpl; lia|].
  rewrite scan_loop_app, Hrun. cbn [bind].
  set (pre' := unescape pre) in *.
  assert (Hlt : forall x s, String.length pre'
                            < JS.length (pre' ++ String x s)).
  { intros. unfold JS.length. rewrite length_append. simpl. lia. }
  destruct Ho as [| |eq_ sp Heq Hsp].
  - rewrite loop_one by (cbn [i text append]; apply Hlt).
    rewrite step_dollar_open
      by (cbn [i text match_ append]; auto using charAt_append).
    cbn [i text k match_ braces mml String.eqb Ascii.eqb Bool.eqb].
    rewrite pushText_pre, length_append. do 2 f_equal; simpl; lia.
  - rewrite loop_one by (cbn [i text append]; apply Hlt).
    rewrite step_paren_open
      by (cbn [i text match_ append]; auto using charAt_append, charAt_second).
    cbn [i text k match_ braces mml String.eqb Ascii.eqb Bool.eqb].
    rewrite pushText_pre, length_append. do 2 f_equal; simpl; lia.
  - rewrite loop_one by (cbn [i text append]; apply Hlt).
    destruct (exec_refOpen eq_ sp b Heq Hsp) as [caps Hex].
    set (o := eq_ ++ "ref" ++ sp ++ "{") in *.
    rewrite (step_ref_open _ (MatchResult 0 (String.length o) caps)).
    + cbn [i text k match_ braces mml String.eqb Ascii.eqb Bool.eqb].
      cbn [append]. rewrite substr_second.
      unfold matched. cbn [m_start m_end].
      rewrite Nat.sub_0_r, substring_take, pushText_pre.
      rewrite length_append. cbn [String.length]. do 2 f_equal. lia.
    + reflexivity.
    + cbn [i text append]. apply charAt_append.
    + cbn [i text append]. rewrite substr_second. exact Hex.
Qed.

End Delimiters.

(** ** Math, and the text after it *)

Section Compose.
Import InternalMath.
Variable parse : string -> result MmlNode.
Variable def : EnvList.

(** The nodes at the end of the scan, after a prefix. *)
Lemma final_shift a l0 st :
  (if k (shifted a l0 st) <? JS.length (text (shifted a l0 st))
   then push (mml (shifted a l0 st))
             (internalText (JS.slice (text (shifted a l0 st))
                                     (k (shifted a l0 st))) def)
   else mml (shifted a l0 st))
  = (l0 ++ (if k st <? JS.length (text st)
            then push (mml st) (internalText (JS.slice (text st) (k st)) def)
            else mml st))%list.
Proof.
  unfold shifted. cbn [text k mml]. unfold JS.length.
  rewrite length_append, slice_shift, push_app.
  replace (String.length a + k st <? String.length a + String.length (text st))
    with (k st <? String.length (text st)).
  - destruct (_ <? _); reflexivity.
  - destruct (k st <? String.length (text st)) eqn:E; symmetry.
    + apply Nat.ltb_lt in E. apply Nat.ltb_lt. lia.
    + apply Nat.ltb_ge in E. apply Nat.ltb_ge. lia.
Qed.

(** The scan of a text, by the loop, whether the text makes the scanner
    run the loop or not. *)
Lemma segments_loop text :
  segments parse def text
  = (st <- loop parse def (JS.length text) (State text 0 0 "" 0 []) ;;
     if negb (match_ st =? "")%string then Throw MathNotTerminated
     else Ok (if k st <? JS.length (InternalMath.text st)
              then push (mml st)
                        (internalText (JS.slice (InternalMath.text st) (k st))
                                      def)
              else mml st)).
Proof.
  unfold segments, scanText. destruct (test trigger text) eqn:T.
  - destruct (loop parse def _ _) as [st|e]; [|reflexivity].
    cbn [bind]. destruct (negb _); reflexivity.
  - rewrite test_trigger in T.
    destruct (loop_plain parse def (JS.length text) (State text 0 0 "" 0 []) T)
      as [j ->].
    reflexivity.
Qed.

(** When the loop is back in text after a prefix of the text, the scan
    goes on as the scan of the rest, and the nodes of the rest come after
    the nodes of the prefix. The prefix may have changed, by the escapes
    that were resolved in it. *)
Lemma segments_after {A : Type} P P' rest (X : result A)
  (L : A -> list MmlNode) n :
  n <= String.length P ->
  loop parse def n (State (P ++ rest) 0 0 "" 0 [])
  = (x <- X ;;
     Ok (State (P' ++ rest) (String.length P') (String.length P') "" 0
               (L x))) ->
  segments parse def (P ++ rest)
  = (x <- X ;; r <- segments parse def rest ;; Ok (L x ++ r)%list).
Proof.
  intros Hn Hloop. rewrite segments_loop.
  replace (JS.length (P ++ rest))
    with (n + (JS.length rest + (String.length P - n)))
    by (unfold JS.length; rewrite length_append; lia).
  rewrite scan_loop_app, Hloop.
  destruct X as [x|e]; [|reflexivity]. cbn [bind].
  replace (State (P' ++ rest) (String.length P') (String.length P') "" 0
                 (L x))
    with (shifted P' (L x) (State rest 0 0 "" 0 []))
    by (unfold shifted; cbn [text i k match_ braces mml];
        now rewrite Nat.add_0_r, app_nil_r).
  rewrite loop_shift.
  rewrite scan_loop_fuel by (cbn [text i]; lia).
  rewrite segments_loop.
  destruct (loop parse def (JS.length rest) _) as [st|e]; [|reflexivity].
  cbn [bind].
  change (match_ (shifted P' (L x) st)) with (match_ st).
  destruct (negb (match_ st =? "")%string); [reflexivity|].
  cbn [bind]. now rewrite final_shift.
Qed.

(** The error of math that is left open at the end of the text. *)
Lemma segments_open text n st :
  n <= JS.length text ->
  loop parse def n (State text 0 0 "" 0 []) = Ok st ->
  JS.length (InternalMath.text st) <= i st -> match_ st <> "" ->
  segments parse def text = Throw MathNotTerminated.
Proof.
  intros Hn Hloop Hend Hm. rewrite segments_loop.
  replace (JS.length text) with (n + (JS.length text - n)) by lia.
  rewrite scan_loop_app, Hloop. cbn [bind].
  destruct st as [t ia j m_ d l]. rewrite loop_done by exact Hend.
  cbn [bind match_]. apply String.eqb_neq in Hm. cbn [match_] in Hm.
  now rewrite Hm.
Qed.

End Compose.

Section Islands2.
Import InternalMath.
Variable parse : string -> result MmlNode.
Variable def : EnvList.

Lemma slice2_mid a s c :
  JS.slice2 (a ++ s ++ c) (String.length a)
    (String.length a + String.length s) = s.
Proof.
  unfold JS.slice2.
  replace (String.length a + String.length s - String.length a)
    with (String.length s) by lia.
  apply substring_mid.
Qed.

(** Math between dollars, after text. *)
Lemma island_dollar pre body rest :
  passive pre ("$" ++ body ++ "$" ++ rest) = true ->
  mathBody "$" body 0 = Some 0 ->
  segments parse def (pre ++ "$" ++ body ++ "$" ++ rest)
  = (tree <- parse body ;;
     r <- segments parse def rest ;;
     Ok ((textNodes (unescape pre) def
          ++ [createNode "TeXAtom" [tree] [] None]) ++ r)%list).
Proof.
  intros Hp Hb.
  destruct (loop_open parse def pre "$" "$" (body ++ "$" ++ rest)
              opens_dollar Hp) as (n1 & Hn1 & Hrun1).
  destruct (loop_over_math parse def "$" body 0 0 ltac:(discriminate) Hb)
    as (n2 & Hn2 & Hrun2).
  set (pre' := unescape pre) in *.
  specialize (Hrun2 (pre' ++ "$") ("$" ++ rest) (String.length (pre' ++ "$"))
                    (textNodes pre' def)).
  cbn [String.eqb Ascii.eqb Bool.eqb] in Hrun1.
  set (t := pre' ++ "$" ++ body ++ "$" ++ rest) in *.
  set (P := pre' ++ "$" ++ body ++ "$").
  assert (Et : t = P ++ rest) by (subst t P; now rewrite !append_assoc).
  assert (E2 : (pre' ++ "$") ++ body ++ "$" ++ rest = t)
    by (subst t; now rewrite !append_assoc).
  assert (E3 : t = ((pre' ++ "$") ++ body) ++ String "$" rest)
    by (subst t; now rewrite !append_assoc).
  assert (LP : String.length P
               = S (String.length (pre' ++ "$") + String.length body)).
  { subst P. rewrite !length_append. simpl. lia. }
  rewrite E2 in Hrun2.
  replace (pre ++ "$" ++ body ++ "$" ++ rest)
    with ((pre ++ "$" ++ body ++ "$") ++ rest)
    by (now rewrite !append_assoc).
  apply (segments_after parse def (pre ++ "$" ++ body ++ "$") P rest
           (parse body)
           (fun tree => textNodes pre' def
                        ++ [createNode "TeXAtom" [tree] [] None])%list
           (n1 + (n2 + 1))).
  { rewrite !length_append in *. simpl in *. lia. }
  rewrite !append_assoc. cbn [append] in *.
  rewrite <- Et, scan_loop_app, Hrun1. cbn [bind].
  rewrite scan_loop_app, Hrun2.
  cbn [bind].
  rewrite loop_one
    by (cbn [i text]; unfold JS.length;
        rewrite Et, (length_append P rest), LP; lia).
  rewrite step_dollar_close; cbn [i text k match_ braces mml]; auto.
  - rewrite <- E2 at 1. rewrite slice2_mid, <- LP. reflexivity.
  - rewrite E3, <- length_append. apply charAt_append.
Qed.

(** Math between a backslash with an opening parenthesis and a backslash
    with a closing one, after text. *)
Lemma island_paren pre body rest :
  passive pre ("\(" ++ body ++ "\)" ++ rest) = true ->
  mathBody ")" body 0 = Some 0 ->
  segments parse def (pre ++ "\(" ++ body ++ "\)" ++ rest)
  = (tree <- parse body ;;
     r <- segments parse def rest ;;
     Ok ((textNodes (unescape pre) def
          ++ [createNode "TeXAtom" [tree] [] None]) ++ r)%list).
Proof.
  intros Hp Hb.
  destruct (loop_open parse def pre "\(" ")" (body ++ "\)" ++ rest)
              opens_paren Hp) as (n1 & Hn1 & Hrun1).
  destruct (loop_over_math parse def ")" body 0 0 ltac:(discriminate) Hb)
    as (n2 & Hn2 & Hrun2).
  set (pre' := unescape pre) in *.
  specialize (Hrun2 (pre' ++ "\(") ("\)" ++ rest)
                    (String.length (pre' ++ "\(")) (textNodes pre' def)).
  cbn [String.eqb Ascii.eqb Bool.eqb] in Hrun1.
  set (t := pre' ++ "\(" ++ body ++ "\)" ++ rest) in *.
  set (P := pre' ++ "\(" ++ body ++ "\)").
  assert (Et : t = P ++ rest) by (subst t P; now rewrite !append_assoc).
  assert (E2 : (pre' ++ "\(") ++ body ++ "\)" ++ rest = t)
    by (subst t; now rewrite !append_assoc).
  assert (E3 : t = ((pre' ++ "\(") ++ body) ++ String "\" (String ")" rest))
    by (subst t; now rewrite !append_assoc).
  assert (LP : String.length P
               = S (S (String.length (pre' ++ "\(") + String.length body))).
  { subst P. rewrite !length_append. simpl. lia. }
  rewrite E2 in Hrun2.
  replace (pre ++ "\(" ++ body ++ "\)" ++ rest)
    with ((pre ++ "\(" ++ body ++ "\)") ++ rest)
    by (now rewrite !append_assoc).
  apply (segments_after parse def (pre ++ "\(" ++ body ++ "\)") P rest
           (parse body)
           (fun tree => textNodes pre' def
                        ++ [createNode "TeXAtom" [tree] [] None])%list
           (n1 + (n2 + 1))).
  { rewrite !length_append in *. simpl in *. lia. }
  rewrite !append_assoc. cbn [append] in *.
  rewrite <- Et, scan_loop_app, Hrun1. cbn [bind].
  rewrite scan_loop_app, Hrun2.
  cbn [bind].
  rewrite loop_one
    by (cbn [i text]; unfold JS.length;
        rewrite Et, (length_append P rest), LP; lia).
  rewrite step_paren_close; cbn [i text k match_ braces mml]; auto.
  - rewrite <- E2 at 1. rewrite slice2_mid, <- LP. reflexivity.
  - rewrite E3, <- length_append. apply charAt_append.
  - rewrite E3, <- length_append. apply charAt_second.
Qed.

(** A reference, after text. *)
Lemma island_ref pre eq_ sp body rest :
  eq_ = "" \/ eq_ = "eq" -> allOf JS.isSpace sp = true ->
  passive pre (("\" ++ eq_ ++ "ref" ++ sp ++ "{") ++ body ++ "}" ++ rest)
  = true ->
  mathBody "}" body 0 = Some 0 ->
  segments parse def
    (pre ++ ("\" ++ eq_ ++ "ref" ++ sp ++ "{") ++ body ++ "}" ++ rest)
  = (tree <- parse (("\" ++ eq_ ++ "ref" ++ sp ++ "{") ++ body ++ "}") ;;
     r <- segments parse def rest ;;
     Ok ((textNodes (unescape pre) def
          ++ [createNode "TeXAtom" [tree] def None]) ++ r)%list).
Proof.
  intros Heq Hsp Hp Hb.
  set (o := "\" ++ eq_ ++ "ref" ++ sp ++ "{") in *.
  destruct (loop_open parse def pre o "}" (body ++ "}" ++ rest)
              (opens_ref eq_ sp Heq Hsp) Hp) as (n1 & Hn1 & Hrun1).
  destruct (loop_over_math parse def "}" body 0 0 ltac:(discriminate) Hb)
    as (n2 & Hn2 & Hrun2).
  set (pre' := unescape pre) in *.
  specialize (Hrun2 (pre' ++ o) ("}" ++ rest) (String.length pre')
                    (textNodes pre' def)).
  cbn [String.eqb Ascii.eqb Bool.eqb] in Hrun1.
  set (t := pre' ++ o ++ body ++ "}" ++ rest) in *.
  set (P := pre' ++ o ++ body ++ "}").
  assert (Et : t = P ++ rest) by (subst t P; now rewrite !append_assoc).
  assert (E2 : (pre' ++ o) ++ body ++ "}" ++ rest = t)
    by (subst t; now rewrite !append_assoc).
  assert (E3 : t = ((pre' ++ o) ++ body) ++ String "}" rest)
    by (subst t; now rewrite !append_assoc).
  assert (E4 : t = pre' ++ (o ++ body ++ "}") ++ rest)
    by (subst t; now rewrite !append_assoc).
  assert (LP : String.length P
               = S (String.length (pre' ++ o) + String.length body)).
  { subst P. rewrite !length_append. simpl. lia. }
  rewrite E2 in Hrun2.
  replace (pre ++ o ++ body ++ "}" ++ rest)
    with ((pre ++ o ++ body ++ "}") ++ rest)
    by (now rewrite !append_assoc).
  apply (segments_after parse def (pre ++ o ++ body ++ "}") P rest
           (parse (o ++ body ++ "}"))
           (fun tree => textNodes pre' def
                        ++ [createNode "TeXAtom" [tree] def None])%list
           (n1 + (n2 + 1))).
  { rewrite !length_append in *. simpl in *. lia. }
  rewrite !append_assoc.
  change (loop parse def (n1 + (n2 + 1))
            (State (pre ++ o ++ body ++ "}" ++ rest) 0 0 "" 0 [])
          = (x <- parse (o ++ body ++ "}") ;;
             Ok (State (P ++ rest) (String.length P) (String.length P) "" 0
                       (textNodes pre' def
                        ++ [createNode "TeXAtom" [x] def None])%list))).
  rewrite <- Et, scan_loop_app, Hrun1. cbn [bind].
  rewrite scan_loop_app, Hrun2.
  cbn [bind].
  rewrite loop_one
    by (cbn [i text]; unfold JS.length;
        rewrite Et, (length_append P rest), LP; lia).
  rewrite step_brace_close; cbn [i text k match_ braces mml]; auto.
  - replace (JS.slice2 t (String.length pre')
               (S (String.length (pre' ++ o) + String.length body)))
      with (o ++ body ++ "}").
    + rewrite <- LP. reflexivity.
    + rewrite E4 at 1.
      replace (S (String.length (pre' ++ o) + String.length body))
        with (String.length pre' + String.length (o ++ body ++ "}"))
        by (rewrite !length_append; simpl; lia).
      now rewrite slice2_mid.
  - rewrite E3, <- length_append. apply charAt_append.
Qed.

(** Text that holds no math is one text node. *)
Lemma segments_passive s :
  passive s "" = true ->
  segments parse def s = Ok (textNodes (unescape s) def).
Proof.
  intros Hp. rewrite segments_loop.
  destruct (loop_over_passive parse def s "" Hp) as (n & Hn & Hrun).
  specialize (Hrun "" 0 0 []). cbn [append String.length] in Hrun.
  rewrite !append_nil_r, Nat.add_0_l in Hrun.
  replace (JS.length s) with (n + (JS.length s - n))
    by (unfold JS.length; lia).
  rewrite scan_loop_app, Hrun. cbn [bind].
  rewrite loop_done by (unfold JS.length; lia).
  cbn [bind match_ String.eqb negb k text mml].
  rewrite slice_0. unfold textNodes, JS.length.
  destruct (unescape s); reflexivity.
Qed.

(** Math that is opened and not closed. *)
Lemma segments_unterminated pre o close body d :
  opens o close -> passive pre (o ++ body) = true ->
  mathBody close body 0 = Some d ->
  segments parse def (pre ++ o ++ body) = Throw MathNotTerminated.
Proof.
  intros Ho Hp Hb.
  assert (Hc : close <> "") by (destruct Ho; discriminate).
  destruct (loop_open parse def pre o close body Ho Hp)
    as (n1 & Hn1 & Hrun1).
  destruct (loop_over_math parse def close body 0 d Hc Hb)
    as (n2 & Hn2 & Hrun2).
  set (pre' := unescape pre) in *.
  set (kk := if (close =? "}")%string then String.length pre'
             else String.length (pre' ++ o)) in *.
  specialize (Hrun2 (pre' ++ o) "" kk (textNodes pre' def)).
  rewrite append_nil_r, append_assoc in Hrun2.
  apply (segments_open parse def _ (n1 + n2)
           (State (pre' ++ o ++ body)
                  (String.length (pre' ++ o) + String.length body) kk close d
                  (textNodes pre' def))).
  - unfold JS.length. rewrite !length_append in *. lia.
  - rewrite scan_loop_app, Hrun1. cbn [bind]. exact Hrun2.
  - cbn [text i]. unfold JS.length. rewrite !length_append. lia.
  - exact Hc.
Qed.

End Islands2.

(** ** Text and math blocks, in general *)

(** X8. A text without math is one text node. When every dollar of the
    text comes after a backslash, and every backslash comes before a
    dollar, a brace or a backslash, which it escapes, or before another
    character that is not an opening parenthesis and does not start
    [ref{] or [eqref{], then [internalMath] returns the text node of the
    whole text, without the backslashes of the escapes and with its
    braces and its other backslashes as they are; nothing for the empty
    text. The parser is not called. With a level, the result is wrapped
    in one mstyle. *)
Theorem X8_internalMath_text parse font s level :
  passive s "" = true ->
  internalMath parse font s level
  = Ok (match level with
        | Some l =>
          [createNode "mstyle" (textNodes (unescape s) (fontDef font))
             [("displaystyle", ABool false); ("scriptlevel", l)] None]
        | None => textNodes (unescape s) (fontDef font)
        end).
Proof.
  intros Hp. unfold internalMath. rewrite segments_passive by exact Hp.
  cbn [bind]. destruct level; [reflexivity|].
  unfold textNodes. destruct (unescape s =? "")%string; reflexivity.
Qed.

Lemma X8_internalMath_text_witness :
  internalMath (fun _ => Throw MathNotTerminated) None
    "f{x} \alpha\) 5\$ \\ }" None
  = Ok [internalText "f{x} \alpha\) 5$ \ }" []].
Proof.
  exact (X8_internalMath_text (fun _ => Throw MathNotTerminated) None
           "f{x} \alpha\) 5\$ \\ }" None eq_refl).
Defined.

(** X9. Math between dollars. After text without math, a dollar opens
    math that goes up to the next dollar outside braces: dollars inside
    braces and characters after a backslash do not close it. The
    segments are the text before the math, if any, with its escapes
    resolved, the TeXAtom of what the parser makes of the math, and then
    the segments of the rest of the text, which is scanned as a text of
    its own. An error of the parser is the result, and the rest is not
    scanned then. *)
Theorem X9_dollar_math parse def pre body rest :
  passive pre ("$" ++ body ++ "$" ++ rest) = true ->
  mathBody "$" body 0 = Some 0 ->
  segments parse def (pre ++ "$" ++ body ++ "$" ++ rest)
  = (tree <- parse body ;;
     r <- segments parse def rest ;;
     Ok ((textNodes (unescape pre) def
          ++ [createNode "TeXAtom" [tree] [] None]) ++ r)%list).
Proof. apply island_dollar. Qed.

Lemma X9_dollar_math_witness :
  segments (fun s => Ok (createText s)) []
    ("a{b} \$1 " ++ "$" ++ "x_{$n$}\$" ++ "$" ++ " c $d$")
  = (tree <- Ok (createText "x_{$n$}\$") ;;
     r <- segments (fun s => Ok (createText s)) [] " c $d$" ;;
     Ok ((textNodes "a{b} $1 " []
          ++ [createNode "TeXAtom" [tree] [] None]) ++ r)%list).
Proof.
  exact (X9_dollar_math (fun s => Ok (createText s)) []
           "a{b} \$1 " "x_{$n$}\$" " c $d$" eq_refl eq_refl).
Defined.

(** X10. Math between a backslash with an opening parenthesis and a
    backslash with a closing parenthesis, after text without math: the
    math ends at the first backslash and closing parenthesis outside
    braces. The segments are the text before, if any, with its escapes
    resolved, the TeXAtom of the parse of the math, and the segments of
    the rest of the text. *)
Theorem X10_paren_math parse def pre body rest :
  passive pre ("\(" ++ body ++ "\)" ++ rest) = true ->
  mathBody ")" body 0 = Some 0 ->
  segments parse def (pre ++ "\(" ++ body ++ "\)" ++ rest)
  = (tree <- parse body ;;
     r <- segments parse def rest ;;
     Ok ((textNodes (unescape pre) def
          ++ [createNode "TeXAtom" [tree] [] None]) ++ r)%list).
Proof. apply island_paren. Qed.

Lemma X10_paren_math_witness :
  segments (fun s => Ok (createText s)) []
    ("a " ++ "\(" ++ "f(x)$ {\)}" ++ "\)" ++ " b")
  = (tree <- Ok (createText "f(x)$ {\)}") ;;
     r <- segments (fun s => Ok (createText s)) [] " b" ;;
     Ok ((textNodes "a " []
          ++ [createNode "TeXAtom" [tree] [] None]) ++ r)%list).
Proof.
  exact (X10_paren_math (fun s => Ok (createText s)) []
           "a " "f(x)$ {\)}" " b" eq_refl eq_refl).
Defined.

(** X11. A reference in text: a backslash, [ref] or [eqref], white space
    if any, and braces around the label. It ends at the first closing
    brace outside braces. The whole reference, from its backslash to its
    closing brace, goes to the parser, and its TeXAtom takes the
    definitions of the text (the font); the segments are the text
    before, if any, with its escapes resolved, this TeXAtom, and the
    segments of the rest. *)
Theorem X11_reference parse def pre eq_ sp body rest :
  eq_ = "" \/ eq_ = "eq" -> allOf JS.isSpace sp = true ->
  passive pre (("\" ++ eq_ ++ "ref" ++ sp ++ "{") ++ body ++ "}" ++ rest)
  = true ->
  mathBody "}" body 0 = Some 0 ->
  segments parse def
    (pre ++ ("\" ++ eq_ ++ "ref" ++ sp ++ "{") ++ body ++ "}" ++ rest)
  = (tree <- parse (("\" ++ eq_ ++ "ref" ++ sp ++ "{") ++ body ++ "}") ;;
     r <- segments parse def rest ;;
     Ok ((textNodes (unescape pre) def
          ++ [createNode "TeXAtom" [tree] def None]) ++ r)%list).
Proof. apply island_ref. Qed.

Lemma X11_reference_witness :
  segments (fun s => Ok (createText s)) [("mathvariant", AString "bold")]
    ("see " ++ ("\" ++ "eq" ++ "ref" ++ " " ++ "{") ++ "e{1}" ++ "}" ++ ".")
  = (tree <- Ok (createText "\eqref {e{1}}") ;;
     r <- segments (fun s => Ok (createText s))
            [("mathvariant", AString "bold")] "." ;;
     Ok ((textNodes "see " [("mathvariant", AString "bold")]
          ++ [createNode "TeXAtom" [tree]
                [("mathvariant", AString "bold")] None]) ++ r)%list).
Proof.
  exact (X11_reference (fun s => Ok (createText s))
           [("mathvariant", AString "bold")] "see " "eq" " " "e{1}" "."
           (or_intror eq_refl) eq_refl eq_refl eq_refl).
Defined.

(** X12. Math that is opened and not closed is an error: after text
    without math, when a dollar, a backslash and an opening parenthesis,
    or the start of a reference is followed by math in which the closing
    delimiter does not occur outside braces, [internalMath] throws
    MathNotTerminated, whatever the parser, the font and the level. So
    for a dollar that is followed by dollars inside braces only. *)
Theorem X12_unterminated parse font level pre o close body d :
  opens o close -> passive pre (o ++ body) = true ->
  mathBody close body 0 = Some d ->
  internalMath parse font (pre ++ o ++ body) level
  = Throw MathNotTerminated.
Proof.
  intros Ho Hp Hb. unfold internalMath.
  now rewrite (segments_unterminated parse (fontDef font) pre o close body d).
Qed.

Lemma X12_unterminated_witness :
  internalMath (fun s => Ok (createText s)) None ("a " ++ "$" ++ "{b$c} d")
    None
  = Throw MathNotTerminated.
Proof.
  exact (X12_unterminated (fun s => Ok (createText s)) None None
           "a " "$" "$" "{b$c} d" 0 opens_dollar eq_refl eq_refl).
Defined.

(** ** Control words at the end of a string *)

Lemma allOf_false_split p r :
  allOf p r = false ->
  exists s c b, r = s ++ String c b /\ p c = false.
Proof.
  induction r as [|x r IH]; [discriminate|]. cbn [allOf].
  destruct (p x) eqn:E.
  - cbn [andb]. intros H. destruct (IH H) as (s & c & b & -> & Hc).
    exists (String x s), c, b. auto.
  - intros _. exists "", x, r. auto.
Qed.

(** Characters of a class up to the end of the string: not when another
    character follows. *)
Lemma plus_eol_fails p n s c b cs :
  p c = false ->
  m (Seq (Plus (Char p)) Eol) Some (MState n (s ++ String c b) cs) = None.
Proof.
  intros Hc.
  destruct (span_class p s c b Hc) as (ds & x & b' & -> & Hds & Hx).
  unfold Plus. rewrite !m_Seq.
  destruct ds as [|d ds]; cbn [append].
  - now rewrite m_Char_cons, Hx.
  - simpl in Hds. apply andb_prop in Hds. destruct Hds as [Hd Hds].
    rewrite m_Char_cons, Hd, m_Star. cbn [rest].
    apply star_class_none; auto.
    intros st Hst. cbn [m]. destruct (rest st); [now elim Hst | reflexivity].
Qed.

Lemma plus_eol p n r cs :
  succeeds (m (Seq (Plus (Char p)) Eol) Some (MState n r cs))
  = (negb (r =? "")%string && allOf p r)%bool.
Proof.
  destruct (allOf p r) eqn:E.
  - destruct r as [|d ds]; [reflexivity|].
    simpl in E. apply andb_prop in E. destruct E as [Hd Hds].
    rewrite m_Seq. rewrite <- (append_nil_r (String d ds)).
    erewrite m_plus_class; eauto. reflexivity.
  - destruct (allOf_false_split p r E) as (s & c & b & -> & Hc).
    rewrite plus_eol_fails by exact Hc. now rewrite andb_false_r.
Qed.

(** Two backslashes, which is group 2. *)
Lemma m_pair k n t cs :
  m (Group 2 (Word "\\")) k (MState n t cs)
  = match t with
    | String c (String c' t'') =>
      if (Ascii.eqb "\" c && Ascii.eqb "\" c')%bool
      then k (MState (S (S n)) t'' ((2, (n, S (S n))) :: cs))
      else None
    | _ => None
    end.
Proof.
  rewrite m_Group. unfold Word, Lit. rewrite m_Seq.
  destruct t as [|c t]; [reflexivity|]. rewrite m_Char_cons.
  destruct (Ascii.eqb "\" c); [|destruct t; reflexivity].
  destruct t as [|c' t]; [reflexivity|]. rewrite m_Char_cons.
  cbn [andb pos rest caps]. reflexivity.
Qed.

Lemma letter_class : letter = Char isLetter.
Proof. reflexivity. Qed.

(** Pairs of backslashes, a backslash and letters up to the end. *)
Lemma star_tail fuel t n cs :
  String.length t < fuel ->
  succeeds (star_loop (m (Group 2 (Word "\\")))
              (fun st' => m (Seq (Lit "\") (Seq (Plus letter) Eol)) Some st')
              fuel (MState n t cs))
  = controlWord t.
Proof.
  revert t n cs. induction fuel as [|f IH]; intros t n cs Hf; [lia|].
  cbn [star_loop]. rewrite m_pair. rewrite letter_class.
  destruct t as [|c [|c' t'']].
  - reflexivity.
  - cbn [controlWord]. rewrite m_Seq. unfold Lit. rewrite m_Char_cons.
    rewrite (Ascii.eqb_sym c "\").
    destruct (Ascii.eqb "\" c); reflexivity.
  - cbn [controlWord]. rewrite !(Ascii.eqb_sym _ "\").
    destruct (Ascii.eqb "\" c) eqn:Ec.
    + destruct (Ascii.eqb "\" c') eqn:Ec'; cbn [andb].
      * cbn [pos].
        replace (n <? S (S n)) with true
          by (symmetry; apply Nat.ltb_lt; lia).
        specialize (IH t'' (S (S n)) ((2, (n, S (S n))) :: cs)).
        rewrite <- IH by (simpl in Hf; lia).
        destruct (star_loop _ _ f _); [reflexivity|].
        rewrite m_Seq. unfold Lit. rewrite m_Char_cons, Ec.
        cbn [pos rest caps]. unfold Plus. rewrite !m_Seq, m_Char_cons.
        apply Ascii.eqb_eq in Ec'. subst c'. reflexivity.
      * rewrite m_Seq. unfold Lit at 1. rewrite m_Char_cons, Ec.
        cbn [pos rest caps]. rewrite plus_eol. reflexivity.
    + cbn [andb]. rewrite m_Seq. unfold Lit. now rewrite m_Char_cons, Ec.
Qed.

(** The pattern of [addArgs] for its first string, at an index of it. *)
Lemma m_endsWithMacro n t cs :
  succeeds (m endsWithMacro Some (MState n t cs))
  = (((n =? 0) && controlWord t)
     || match t with
        | String c t' => negb (mem c "\") && controlWord t'
        | EmptyString => false
        end)%bool.
Proof.
  unfold endsWithMacro. rewrite m_Seq, m_Group, m_Alt, m_Bol.
  cbn [pos rest caps].
  assert (Hk : forall n' t' cs',
            succeeds (m (Seq (Star (Group 2 (Word "\\")))
                            (Seq (Lit "\") (Seq (Plus letter) Eol)))
                        Some (MState n' t' cs'))
            = controlWord t').
  { intros. rewrite m_Seq, m_Star. apply star_tail. simpl. lia. }
  destruct (n =? 0).
  - cbn [andb]. rewrite <- (Hk n t ((1, (n, n)) :: cs)).
    destruct (m (Seq (Star _) _) Some (MState n t _));
      [reflexivity|].
    cbn [succeeds orb]. unfold NoneOf.
    destruct t as [|c t']; [reflexivity|]. rewrite m_Char_cons.
    destruct (negb (mem c "\")); [|reflexivity].
    cbn [pos rest caps andb]. apply Hk.
  - cbn [andb orb]. unfold NoneOf.
    destruct t as [|c t']; [reflexivity|]. rewrite m_Char_cons.
    destruct (negb (mem c "\")); [|reflexivity].
    cbn [pos rest caps andb]. apply Hk.
Qed.

Lemma exec_from_endsWithMacro n t :
  succeeds (exec_from endsWithMacro n t) = controlWordAtEnd n t.
Proof.
  revert n. induction t as [|c t IH]; intros n.
  - cbn [exec_from controlWordAtEnd].
    rewrite <- (m_endsWithMacro n "" []).
    destruct (m endsWithMacro Some _); reflexivity.
  - cbn [exec_from controlWordAtEnd].
    rewrite <- IH, orb_assoc.
    rewrite <- (m_endsWithMacro n (String c t) []).
    destruct (m endsWithMacro Some _); reflexivity.
Qed.

Lemma test_endsWithMacro s :
  test endsWithMacro s = controlWordAtEnd 0 s.
Proof.
  rewrite <- exec_from_endsWithMacro. unfold test, exec.
  destruct (exec_from _ _ _); reflexivity.
Qed.

Lemma test_startsWithLetter s :
  test startsWithLetter s = startsWith isLetter s.
Proof.
  unfold test, startsWithLetter. rewrite exec_Bol, letter_class.
  destruct s as [|c s]; [reflexivity|]. rewrite m_Char_cons.
  cbn [startsWith]. destruct (isLetter c); reflexivity.
Qed.

Lemma letter_not_backslash c : isLetter c = true -> Ascii.eqb c "\" = false.
Proof.
  intros H. destruct (Ascii.eqb_spec c "\") as [->|]; [discriminate H|].
  reflexivity.
Qed.

Lemma controlWord_letters name :
  allOf isLetter name = true -> controlWord name = false.
Proof.
  destruct name as [|c r]; [reflexivity|]. cbn [allOf controlWord].
  intros H. apply andb_prop in H. destruct H as [Hc _].
  now rewrite letter_not_backslash.
Qed.

(** Backslashes and letters are a control word when the backslashes are
    in odd number and there is a letter. *)
Lemma controlWord_run j name :
  allOf isLetter name = true ->
  controlWord (JS.repeat "\" j ++ name)
  = (Nat.odd j && negb (name =? "")%string)%bool.
Proof.
  intros Hn.
  enough (H : controlWord (JS.repeat "\" j ++ name)
              = (Nat.odd j && negb (name =? "")%string)%bool
              /\ controlWord (JS.repeat "\" (S j) ++ name)
                 = (Nat.odd (S j) && negb (name =? "")%string)%bool)
    by apply H.
  induction j as [|j [IH1 IH2]].
  - split.
    + cbn [JS.repeat append]. now rewrite controlWord_letters.
    + cbn [JS.repeat append controlWord Ascii.eqb Bool.eqb].
      destruct name as [|c r]; [reflexivity|].
      cbn [allOf] in Hn. apply andb_prop in Hn. destruct Hn as [Hc Hr].
      rewrite letter_not_backslash by exact Hc.
      cbn [allOf]. now rewrite Hc, Hr.
  - split; [exact IH2|].
    cbn [JS.repeat append controlWord Ascii.eqb Bool.eqb].
    rewrite Nat.odd_succ, Nat.even_succ. exact IH1.
Qed.

(** No control word starts before a character that is no backslash and
    does not start letters up to the end. *)
Lemma controlWord_inside q x B :
  Ascii.eqb x "\" = false -> allOf isLetter (String x B) = false ->
  controlWord (q ++ String x B) = false.
Proof.
  intros Hx HB.
  enough (H : controlWord (q ++ String x B) = false
              /\ forall c, controlWord (String c q ++ String x B) = false)
    by apply H.
  induction q as [|c' q [IH1 IH2]].
  - split.
    + cbn [append controlWord]. now rewrite Hx.
    + intros c. cbn [append controlWord]. rewrite Hx.
      destruct (Ascii.eqb c "\"); [exact HB | reflexivity].
  - split; [apply IH2|].
    intros c. cbn [append controlWord].
    destruct (Ascii.eqb c "\"); [|reflexivity].
    destruct (Ascii.eqb c' "\"); [exact IH1|].
    change (String c' (q ++ String x B)) with (String c' q ++ String x B).
    rewrite allOf_append, HB. apply andb_false_r.
Qed.

Lemma controlWordAtEnd_letters n name :
  allOf isLetter name = true -> controlWordAtEnd n name = false.
Proof.
  revert n. induction name as [|c r IH]; intros n H.
  - cbn [controlWordAtEnd controlWord]. now rewrite andb_false_r.
  - cbn [controlWordAtEnd]. rewrite controlWord_letters by exact H.
    cbn [allOf] in H. apply andb_prop in H. destruct H as [_ Hr].
    rewrite controlWord_letters, IH by exact Hr.
    now rewrite !andb_false_r.
Qed.

Lemma controlWordAtEnd_backslashes n q name :
  0 < n -> allOf isLetter name = true ->
  controlWordAtEnd n (JS.repeat "\" q ++ name) = false.
Proof.
  intros Hn H. revert n Hn. induction q as [|q IH]; intros n Hn.
  - now apply controlWordAtEnd_letters.
  - cbn [JS.repeat append controlWordAtEnd].
    replace (n =? 0) with false by (symmetry; apply Nat.eqb_neq; lia).
    rewrite IH by lia. reflexivity.
Qed.

(** At the start of the string. *)
Lemma controlWordAtEnd_start j name :
  allOf isLetter name = true ->
  controlWordAtEnd 0 (JS.repeat "\" j ++ name)
  = (Nat.odd j && negb (name =? "")%string)%bool.
Proof.
  intros H.
  replace (controlWordAtEnd 0 (JS.repeat "\" j ++ name))
    with (controlWord (JS.repeat "\" j ++ name) || false)%bool.
  { now rewrite orb_false_r, controlWord_run. }
  destruct j as [|j].
  - cbn [JS.repeat append]. destruct name as [|c r]; [reflexivity|].
    cbn [controlWordAtEnd Nat.eqb andb]. f_equal.
    cbn [allOf] in H. apply andb_prop in H. destruct H as [_ Hr].
    now rewrite controlWord_letters, controlWordAtEnd_letters,
      andb_false_r.
  - cbn [JS.repeat append controlWordAtEnd Nat.eqb andb]. f_equal.
    now rewrite controlWordAtEnd_backslashes by (auto; lia).
Qed.

(** After characters that are not part of it. *)
Lemma controlWordAtEnd_after n q x j name :
  Ascii.eqb x "\" = false ->
  allOf isLetter (String x (JS.repeat "\" j ++ name)) = false ->
  allOf isLetter name = true ->
  controlWordAtEnd n (q ++ String x (JS.repeat "\" j ++ name))
  = (Nat.odd j && negb (name =? "")%string)%bool.
Proof.
  intros Hx HB Hn. revert n. induction q as [|c q IH]; intros n.
  - cbn [append controlWordAtEnd controlWord]. rewrite Hx.
    cbn [mem]. rewrite Hx. cbn [orb negb andb].
    rewrite controlWord_run by exact Hn.
    rewrite controlWordAtEnd_backslashes by (auto; lia).
    now rewrite andb_false_r, orb_false_r.
  - cbn [append controlWordAtEnd].
    replace (controlWord (String c (q ++ String x (JS.repeat "\" j ++ name))))
      with false
      by (symmetry; apply (controlWord_inside (String c q)); assumption).
    rewrite (controlWord_inside q) by assumption.
    rewrite IH. now rewrite !andb_false_r.
Qed.

Lemma endsWith_last p s c : endsWith p (s ++ String c "") = p c.
Proof. now rewrite endsWith_append. Qed.

(** The test of [addArgs] on its first string. *)
Lemma test_endsWithMacro_run pre j name :
  endsWith (Ascii.eqb "\") pre = false ->
  (j = 0 -> endsWith isLetter pre = false) ->
  allOf isLetter name = true ->
  test endsWithMacro (pre ++ JS.repeat "\" j ++ name)
  = (Nat.odd j && negb (name =? "")%string)%bool.
Proof.
  intros Hb Hl Hn. rewrite test_endsWithMacro.
  destruct (endsWith_inv _ _ Hb) as [->|(q & x & -> & Hx)].
  - now apply controlWordAtEnd_start.
  - rewrite append_assoc. cbn [append].
    rewrite Ascii.eqb_sym in Hx.
    apply controlWordAtEnd_after; auto.
    cbn [allOf]. destruct j as [|j].
    + rewrite endsWith_last in Hl. now rewrite Hl.
    + cbn [JS.repeat append allOf]. apply andb_false_r.
Qed.

(** X13. [addArgs] puts one space between its two strings exactly when
    the second starts with a letter and the first ends with a control
    word: letters, one at least, after backslashes in odd number, so
    that the last backslash is not itself escaped. In every other case
    the two strings are joined as they are: after letters that no
    backslash precedes, after backslashes in even number and letters,
    after a backslash alone, and before anything but a letter. This for
    strings under the size of the buffer. *)
Theorem X13_addArgs_space pre j name s2 :
  endsWith (Ascii.eqb "\") pre = false ->
  (j = 0 -> endsWith isLetter pre = false) ->
  allOf isLetter name = true ->
  JS.length (pre ++ JS.repeat "\" j ++ name) + JS.length s2 < MAXBUFFER ->
  addArgs (pre ++ JS.repeat "\" j ++ name) s2
  = Ok ((pre ++ JS.repeat "\" j ++ name)
        ++ (if (startsWith isLetter s2 && (Nat.odd j
                && negb (name =? "")%string))%bool then " " else "")
        ++ s2).
Proof.
  intros Hb Hl Hn Hlen. unfold addArgs.
  rewrite test_startsWithLetter, test_endsWithMacro_run by assumption.
  set (s1 := pre ++ JS.repeat "\" j ++ name) in *.
  destruct (startsWith isLetter s2 && _)%bool.
  - replace (MAXBUFFER <? JS.length (s1 ++ " ") + JS.length s2) with false.
    + now rewrite append_assoc.
    + symmetry. apply Nat.ltb_ge. unfold JS.length in *.
      rewrite length_append. simpl. lia.
  - replace (MAXBUFFER <? JS.length s1 + JS.length s2) with false
      by (symmetry; apply Nat.ltb_ge; lia).
    reflexivity.
Qed.

Lemma X13_addArgs_space_witness :
  addArgs ("a" ++ JS.repeat "\" 3 ++ "alpha") "b"
  = Ok (("a" ++ JS.repeat "\" 3 ++ "alpha") ++ " " ++ "b").
Proof.
  exact (X13_addArgs_space "a" 3 "alpha" "b" eq_refl
           (fun H => False_ind _ (Nat.neq_succ_0 2 H)) eq_refl
           ltac:(vm_compute; lia)).
Defined.

(** ** Macro bodies, piece by piece *)

Section Pieces.
Import SubstituteArgs.
Variable args : list string.

Lemma subst_loop_S str fuel st :
  i st < JS.length str ->
  loop args str (S fuel) st
  = (st' <- step args str st ;; loop args str fuel st').
Proof. intros H. apply Nat.ltb_lt in H. cbn [loop]. now rewrite H. Qed.

Lemma subst_loop_0 str st : loop args str 0 st = Ok st.
Proof. cbn [loop]. destruct (_ <? _); reflexivity. Qed.

Lemma subst_loop_one str st :
  i st < JS.length str -> loop args str 1 st = step args str st.
Proof.
  intros H. rewrite subst_loop_S by exact H.
  destruct (step args str st) as [st'|e]; [|reflexivity].
  cbn [bind]. apply subst_loop_0.
Qed.

Lemma subst_loop_done str fuel st :
  JS.length str <= i st -> loop args str fuel st = Ok st.
Proof.
  intros H. apply Nat.ltb_ge in H.
  destruct fuel; cbn [loop]; rewrite H; reflexivity.
Qed.

(** The loop copies a piece without parameters to [text]. *)
Lemma loop_literal_n N s :
  String.length s <= N -> literal s = true ->
  exists n,
    n <= String.length s
    /\ forall a b txt ns,
         loop args (a ++ s ++ b) n (State txt ns (String.length a))
         = Ok (State (txt ++ s) ns (String.length a + String.length s)).
Proof.
  revert s. induction N as [|N IH]; intros s HN Hs.
  { destruct s; [|simpl in HN; lia]. exists 0. split; [lia|].
    intros. now rewrite subst_loop_0, Nat.add_0_r, append_nil_r. }
  destruct s as [|c s].
  { exists 0. split; [lia|].
    intros. now rewrite subst_loop_0, Nat.add_0_r, append_nil_r. }
  cbn [literal] in Hs.
  destruct (Ascii.eqb c "#") eqn:H1; [discriminate|].
  destruct (Ascii.eqb_spec c "\") as [->|H2].
  - destruct s as [|x s]; [discriminate|].
    destruct (IH s) as (n & Hn & Hrun); [simpl in HN; lia | exact Hs |].
    exists (S n). split; [simpl; lia|]. intros a b txt ns.
    rewrite subst_loop_S
      by (cbn [i]; unfold JS.length; rewrite !length_append; simpl; lia).
    rewrite step_escape by (cbn [i append]; apply charAt_append).
    cbn [i text newstring bind append]. rewrite charAt_second.
    specialize (Hrun (a ++ String "\" (String x "")) b
                     (txt ++ String "\" (String x "")) ns).
    rewrite !append_assoc in Hrun. cbn [append] in Hrun.
    rewrite length_append in Hrun. cbn [String.length] in Hrun.
    replace (S (S (String.length a))) with (String.length a + 2) by lia.
    rewrite Hrun. do 2 f_equal. cbn [String.length]. lia.
  - apply Ascii.eqb_neq in H2.
    destruct (IH s) as (n & Hn & Hrun); [simpl in HN; lia | exact Hs |].
    exists (S n). split; [simpl; lia|]. intros a b txt ns.
    rewrite subst_loop_S
      by (cbn [i]; unfold JS.length; rewrite !length_append; simpl; lia).
    rewrite subst_step_plain;
      cbn [i text newstring append]; rewrite ?charAt_append;
      rewrite ?one_char_eqb; auto.
    cbn [bind].
    specialize (Hrun (a ++ String c "") b (txt ++ String c "") ns).
    rewrite !append_assoc in Hrun. cbn [append] in Hrun.
    rewrite length_append in Hrun. cbn [String.length] in Hrun.
    replace (S (String.length a)) with (String.length a + 1) by lia.
    rewrite Hrun. do 2 f_equal. cbn [String.length]. lia.
Qed.

Lemma loop_literal s :
  literal s = true ->
  exists n,
    n <= String.length s
    /\ forall a b txt ns,
         loop args (a ++ s ++ b) n (State txt ns (String.length a))
         = Ok (State (txt ++ s) ns (String.length a + String.length s)).
Proof. apply (loop_literal_n (String.length s)). lia. Qed.

(** The loop on a body made of pieces, and the string that is returned
    at its end. *)
Lemma loop_expansion pieces :
  forall a ns last F,
    forallb (validPiece args) pieces = true -> literal last = true ->
    String.length (bodyOf pieces last) <= F ->
    (st <- loop args (a ++ bodyOf pieces last) F
             (State "" ns (String.length a)) ;;
     addArgs (newstring st) (text st))
    = expansion args ns pieces last.
Proof.
  induction pieces as [|[p d] rest IH]; intros a ns last F Hv Hl HF.
  - cbn [bodyOf expansion] in *.
    destruct (loop_literal last Hl) as (n & Hn & Hrun).
    specialize (Hrun a "" "" ns). rewrite append_nil_r in Hrun.
    cbn [append] in Hrun.
    replace F with (n + (F - n)) by lia.
    rewrite subst_loop_app, Hrun. cbn [bind].
    rewrite subst_loop_done
      by (cbn [i]; unfold JS.length; rewrite length_append; lia).
    reflexivity.
  - cbn [bodyOf expansion forallb] in *.
    apply andb_prop in Hv. destruct Hv as [Hpd Hv].
    unfold validPiece in Hpd. cbn [fst snd] in Hpd.
    apply andb_prop in Hpd. destruct Hpd as [Hpd Hd2].
    apply andb_prop in Hpd. destruct Hpd as [Hp Hd1].
    apply Nat.leb_le in Hd2.
    set (tail := bodyOf rest last) in *.
    destruct (loop_literal p Hp) as (n & Hn & Hrun).
    specialize (Hrun a (String "#" (String d tail)) "" ns).
    cbn [append] in Hrun.
    rewrite length_append in HF. cbn [String.length] in HF.
    replace F with (n + (1 + (F - n - 1))) by lia.
    rewrite subst_loop_app, Hrun. cbn [bind].
    set (str := a ++ p ++ String "#" (String d tail)).
    assert (E1 : str = (a ++ p) ++ String "#" (String d tail))
      by (subst str; now rewrite append_assoc).
    assert (E2 : str = (a ++ p ++ String "#" (String d "")) ++ tail)
      by (subst str; now rewrite !append_assoc).
    rewrite subst_loop_app, subst_loop_one.
    2:{ cbn [i]. unfold JS.length. rewrite E1, !length_append. simpl. lia. }
    rewrite (step_param args str _ (String d "")); cbn [i text newstring];
      auto.
    2:{ rewrite E1, <- length_append. apply charAt_append. }
    2:{ rewrite E1, <- length_append. apply charAt_second. }
    destruct (addArgs ns p) as [s|e]; [|reflexivity]. cbn [bind].
    destruct (addArgs s _) as [s'|e]; [|reflexivity]. cbn [bind].
    rewrite E2.
    replace (S (S (String.length a + String.length p)))
      with (String.length (a ++ p ++ String "#" (String d "")))
      by (rewrite !length_append; simpl; lia).
    apply IH; auto. unfold tail in *. lia.
Qed.

End Pieces.

(** X14. [substituteArgs] on a macro body replaces the parameters from
    left to right. For a body made of pieces without parameters, each
    followed by a parameter [#d] with [d] from 1 to 9 and at most the
    number of arguments, and of a last piece, the result is built piece
    by piece: each piece is added to the string made so far, then the
    argument of its parameter, and the last piece at the end, each time
    by [addArgs], which puts a space after a control word that a letter
    follows and throws MaxBufferSize when the string gets too long. *)
Theorem X14_substituteArgs_pieces args pieces last :
  forallb (validPiece args) pieces = true -> literal last = true ->
  substituteArgs args (bodyOf pieces last)
  = expansion args "" pieces last.
Proof.
  intros Hv Hl. unfold substituteArgs.
  apply (loop_expansion args pieces "" "" last); auto.
Qed.

Lemma X14_substituteArgs_pieces_witness :
  substituteArgs ["x"; "2"]
    (bodyOf [("\frac", "1"%char); ("\over ", "2"%char)] "\#")
  = expansion ["x"; "2"] "" [("\frac", "1"%char); ("\over ", "2"%char)]
      "\#".
Proof.
  exact (X14_substituteArgs_pieces ["x"; "2"]
           [("\frac", "1"%char); ("\over ", "2"%char)] "\#" eq_refl eq_refl).
Defined.

(** ** Dimensions and nothing else *)

(** X15. [matchDimen] accepts dimensions and nothing else. With
    [rest = false], every string either is a numeral and a unit of the
    table, with white space around them at most, and then the result is
    the numeral with a point for its comma, the unit and the length of
    the string; or it is refused with [[null, null, 0]], and [dimen2em]
    is 0 for it. With [rest = true], every string either starts with a
    numeral and a unit, after white space at most, and the result is the
    numeral, the unit and the length read; or it is refused. *)
Theorem X15_matchDimen_only dim :
  ((exists ws1 sign ip sep fp ws2 u ws3,
      allOf JS.isSpace ws1 = true /\ allOf JS.isSpace ws2 = true
      /\ allOf JS.isSpace ws3 = true
      /\ validNumeral sign ip sep fp /\ In u unitNames
      /\ dim = ws1 ++ (sign ++ ip ++ sep ++ fp) ++ ws2 ++ u ++ ws3
      /\ matchDimen dim false
         = (Some (anglosaxon sign ip sep fp), Some u, String.length dim))
   \/ (matchDimen dim false = (None, None, 0)
       /\ dimen2em dim = 0%float))
  /\ ((exists ws1 sign ip sep fp ws2 u tail,
         allOf JS.isSpace ws1 = true /\ allOf JS.isSpace ws2 = true
         /\ validNumeral sign ip sep fp /\ In u unitNames
         /\ dim = ws1 ++ (sign ++ ip ++ sep ++ fp) ++ ws2 ++ u ++ tail
         /\ matchDimen dim true
            = (Some (anglosaxon sign ip sep fp), Some u,
               String.length (ws1 ++ (sign ++ ip ++ sep ++ fp) ++ ws2 ++ u)
               + (if startsWith (Ascii.eqb " ") tail then 1 else 0)))
      \/ matchDimen dim true = (None, None, 0)).
Proof.
  split.
  - destruct (exec dimenEnd dim) as [mr|] eqn:E.
    + left. destruct (exec_dimenEnd_inv dim mr E)
        as (ws1 & sign & ip & sep & fp & ws2 & u & ws3
            & H1 & H2 & H3 & HN & Hu & ->).
      exists ws1, sign, ip, sep, fp, ws2, u, ws3.
      repeat (split; [assumption|]). split; [reflexivity|].
      now apply matchDimen_valid.
    + right.
      assert (Hm : matchDimen dim false = (None, None, 0))
        by (unfold matchDimen; now rewrite E).
      split; [exact Hm | now apply dimen2em_no_match].
  - destruct (exec dimenRest dim) as [mr|] eqn:E.
    + left. destruct (exec_dimenRest_inv dim mr E)
        as (ws1 & sign & ip & sep & fp & ws2 & u & tail
            & H1 & H2 & HN & Hu & ->).
      exists ws1, sign, ip, sep, fp, ws2, u, tail.
      repeat (split; [assumption|]). split; [reflexivity|].
      now apply matchDimen_rest_valid.
    + right. unfold matchDimen. now rewrite E.
Qed.
